(** * ezPAARSE parser list: a shallow embedding of [lib/parserlist.js]

    The registry maps a domain (host name) to the parsers of the platforms
    that claim it, keeps for every platform the set of domains it owns, and
    records the domains that resolve to nothing in [domains.miss.csv]. The
    class [ParserList] of [lib/parserlist.js] is embedded in full, and so is
    the earlier callback version of the same file, in module [Callback].

    Conventions of the embedding.
    - JavaScript strings are modelled by [string] (bytes); the source only
      ever handles host names, file names and the ledger text. On text of
      the ASCII range a byte is a code unit, and [trim], [toLowerCase] and
      the comparison [gt] are the functions of the host language; outside
      of it they are not (the host folds the case of every letter, strips
      the Unicode white space and compares code units). What is proved of
      the header test and of the sorted lines is therefore stated for a
      ledger of the ASCII range, [ascii_text].
    - A [manifest.json] that parses is taken to hold an object whose fields
      have the types they have in the manifests of the platforms: strings,
      and an array of strings for [domains]. Other JSON is outside the
      model; of it, [null] and an object whose [domains] is truthy and not
      an array make the scan throw a [TypeError], where it reads
      [manifest.name] or calls [forEach].
    - [this.domains] is a JavaScript [Map]. A [Map] is an object: besides its
      entries it carries ordinary own properties, and [get] writes one
      ([this.domains[domain] = false]). Both stores are modelled.
    - An exception or a rejected promise is a [Throw] completion; the state
      reached at the point of the throw is kept, as mutation is not undone.
    - The arrays held by the map are shared, mutable objects in the source;
      here a [push] rewrites the map entry, which is what every later read
      through the map observes.
    - The file system is a value: what the platforms directory holds is an
      argument of the scan, the ledger file is part of the state. An [await]
      of [init] is not a point where other calls are interleaved; the
      [await] of [writeMiss] is, and there the pending appends are part of
      the state. *)

From Stdlib Require Import ZArith Ascii.
From stdpp Require Import base option gmap sets list strings sorting.


(** The line feed, written ['\n'] in the source. *)
Definition LF : string := String "010"%char "".

(** ** Completions *)

Inductive JsError :=
  | TypeError
  | SyntaxError
  | SystemError (code : string).

Inductive Completion (A : Type) :=
  | Normal (a : A)
  | Throw (e : JsError).
Arguments Normal {A} a.
Arguments Throw {A} e.

#[global] Instance JsError_eq_dec : EqDecision JsError.
Proof. solve_decision. Defined.

#[global] Instance Completion_eq_dec `{EqDecision A} : EqDecision (Completion A).
Proof. solve_decision. Defined.

(** A computation over a mutable state [S]: it ends normally with a value or
    abruptly with an error, and in both cases leaves a state behind. *)
Definition M (S A : Type) : Type := S → Completion A * S.

Definition ret {S A} (a : A) : M S A := λ s, (Normal a, s).
Definition throw {S A} (e : JsError) : M S A := λ s, (Throw e, s).
Definition bind {S A B} (m : M S A) (k : A → M S B) : M S B :=
  λ s, match m s with
       | (Normal a, s') => k a s'
       | (Throw e, s') => (Throw e, s')
       end.
Definition lift {S A} (c : Completion A) : M S A := λ s, (c, s).
Definition gets {S A} (f : S → A) : M S A := λ s, (Normal (f s), s).
Definition modify {S} (f : S → S) : M S unit := λ s, (Normal tt, f s).

#[global] Instance M_ret {S} : MRet (M S) := λ A, ret.
#[global] Instance M_bind {S} : MBind (M S) := λ A B k m, bind m k.

(** [arr.forEach(f)]: the callback runs on every element in order; a throw
    leaves the loop. *)
Fixpoint forEach {S A} (f : A → M S unit) (l : list A) : M S unit :=
  match l with
  | [] => ret tt
  | x :: l' => bind (f x) (λ _, forEach f l')
  end.

(** ** Data model *)

(** The object built in [addDomainsOf] and handed to [add]. [longname] and
    [publisher_name] are optional in a manifest. *)
Record ParserBinding := mkBinding {
  file : string;
  platform : string;
  platformName : option string;
  publisherName : option string
}.

#[global] Instance ParserBinding_eq_dec : EqDecision ParserBinding.
Proof. solve_decision. Defined.

(** What [this.domains] holds for a key: [false], or an array of parsers. *)
Inductive DomainVal :=
  | JsFalse
  | Parsers (l : list ParserBinding).

#[global] Instance DomainVal_eq_dec : EqDecision DomainVal.
Proof. solve_decision. Defined.

(** A [Map] object: its entries, and the names of the own properties that
    plain assignment has created on the object (each holds [false], the only
    value the source assigns). *)
Record JSMap := mkMap {
  entries : gmap string DomainVal;
  props : gset string
}.

Definition new_Map : JSMap := {| entries := ∅; props := ∅ |}.

(** [m.name(...)]: the method is found on [Map.prototype] unless an own
    property of that name hides it, in which case the callee is [false] and
    the call throws. *)
Definition method (m : JSMap) (name : string) : Completion unit :=
  if decide (name ∈ props m) then Throw TypeError else Normal tt.

Definition Map_has (m : JSMap) (k : string) : Completion bool :=
  match method m "has" with
  | Normal _ => Normal (bool_decide (is_Some (entries m !! k)))
  | Throw e => Throw e
  end.

Definition Map_get (m : JSMap) (k : string) : Completion (option DomainVal) :=
  match method m "get" with
  | Normal _ => Normal (entries m !! k)
  | Throw e => Throw e
  end.

Definition Map_set (m : JSMap) (k : string) (v : DomainVal) : Completion JSMap :=
  match method m "set" with
  | Normal _ => Normal {| entries := <[k := v]> (entries m); props := props m |}
  | Throw e => Throw e
  end.

Definition Map_delete (m : JSMap) (k : string) : Completion JSMap :=
  match method m "delete" with
  | Normal _ => Normal {| entries := delete k (entries m); props := props m |}
  | Throw e => Throw e
  end.

(** [m[k] = false] in strict mode. An own property is overwritten. Otherwise
    the prototype chain decides: [size] is an accessor without a setter, so
    the write throws; [__proto__] has a setter that ignores a boolean; any
    other name creates an own property (hiding an inherited method of the
    same name). *)
Definition assign_false (m : JSMap) (k : string) : Completion JSMap :=
  if decide (k ∈ props m) then Normal m
  else if decide (k = "size") then Throw TypeError
  else if decide (k = "__proto__") then Normal m
  else Normal {| entries := entries m; props := {[k]} ∪ props m |}.

(** The value of [this.platforms]: the parser of the platform and the [Set]
    of the domains registered for it. *)
Record PlatformEntry := mkEntry {
  parser : ParserBinding;
  owned : gset string
}.

Record ParserList := mkParserList {
  domains : JSMap;
  platforms : gmap string PlatformEntry;
  missQueue : list string
}.

(** [constructor()] *)
Definition new_ParserList : ParserList :=
  {| domains := new_Map; platforms := ∅; missQueue := [] |}.

Definition set_domains (m : JSMap) (pl : ParserList) : ParserList :=
  {| domains := m; platforms := platforms pl; missQueue := missQueue pl |}.
Definition set_platforms (p : gmap string PlatformEntry) (pl : ParserList) : ParserList :=
  {| domains := domains pl; platforms := p; missQueue := missQueue pl |}.
Definition set_missQueue (q : list string) (pl : ParserList) : ParserList :=
  {| domains := domains pl; platforms := platforms pl; missQueue := q |}.

(** ** The host: ledger file, pending appends, module cache *)

(** [domains.miss.csv] as [fs.readFile] finds it: its text, or an error with
    its [code] (["ENOENT"] when the file does not exist). *)
Inductive FileState :=
  | NoFile (code : string)
  | Content (text : string).

#[global] Instance FileState_eq_dec : EqDecision FileState.
Proof. solve_decision. Defined.

(** [inflight] lists the [fs.appendFile] calls that were issued and have not
    completed; each belongs to one [writeMiss] activation suspended at its
    [await]. [rejected] counts the [writeMiss] promises that were rejected.
    [modules] are the files [require.resolve] finds, [requireCache] the keys
    of [require.cache]. *)
Record World := mkWorld {
  self : ParserList;
  missFile : FileState;
  inflight : list string;
  rejected : nat;
  modules : gset string;
  requireCache : gset string
}.

Definition set_self (pl : ParserList) (w : World) : World :=
  {| self := pl; missFile := missFile w; inflight := inflight w;
     rejected := rejected w; modules := modules w; requireCache := requireCache w |}.
Definition set_missFile (f : FileState) (w : World) : World :=
  {| self := self w; missFile := f; inflight := inflight w;
     rejected := rejected w; modules := modules w; requireCache := requireCache w |}.
Definition set_inflight (l : list string) (w : World) : World :=
  {| self := self w; missFile := missFile w; inflight := l;
     rejected := rejected w; modules := modules w; requireCache := requireCache w |}.
Definition set_rejected (n : nat) (w : World) : World :=
  {| self := self w; missFile := missFile w; inflight := inflight w;
     rejected := n; modules := modules w; requireCache := requireCache w |}.
Definition set_requireCache (c : gset string) (w : World) : World :=
  {| self := self w; missFile := missFile w; inflight := inflight w;
     rejected := rejected w; modules := modules w; requireCache := c |}.

(** A world around a freshly constructed list. *)
Definition new_World (f : FileState) : World :=
  {| self := new_ParserList; missFile := f; inflight := []; rejected := 0;
     modules := ∅; requireCache := ∅ |}.

(** Run an operation that only touches [this]. *)
Definition on_self {A} (m : M ParserList A) : M World A :=
  λ w, let '(r, pl) := m (self w) in (r, set_self pl w).

(** A successful [fs.appendFile(missFile, text)]; the file is created when it
    could not be read. *)
Definition appendFile (text : string) (f : FileState) : FileState :=
  match f with
  | Content old => Content (old +:+ text)
  | NoFile _ => Content text
  end.

(** ** Strings and arrays of the host language *)

(** [s.split('\n')]: never empty; the empty string gives one empty line. *)
Fixpoint split (sep : ascii) (s : string) : list string :=
  match s with
  | "" => [""]
  | String c s' =>
      if Ascii.eqb c sep then "" :: split sep s'
      else match split sep s' with
           | [] => [String c ""]
           | x :: xs => String c x :: xs
           end
  end.

(** [lines.join('\n')] *)
Definition join (sep : string) (l : list string) : string := String.concat sep l.

Fixpoint trimStart (s : string) : string :=
  match s with
  | "" => ""
  | String c s' => if Ascii.is_space c then trimStart s' else s
  end.

(** [s.trim()], for the white space of the ASCII range: the function of the
    host language on [ascii_text], where no other white space occurs. *)
Definition trim (s : string) : string :=
  String.rev (trimStart (String.rev (trimStart s))).

Definition lower (c : ascii) : ascii :=
  let n := nat_of_ascii c in
  if (65 <=? n)%nat && (n <=? 90)%nat then ascii_of_nat (n + 32) else c.

(** [s.toLowerCase()], for the letters of the ASCII range: the function of
    the host language on [ascii_text], where no other letter occurs. *)
Fixpoint toLowerCase (s : string) : string :=
  match s with
  | "" => ""
  | String c s' => String (lower c) (toLowerCase s')
  end.

(** [a > b] on strings: the order of the code units, which are the bytes on
    [ascii_text]. *)
Definition gt (a b : string) : bool := String.ltb b a.

(** [arr.sort(cmp)]: every element in turn is put in front of the first
    element of the sorted part that it compares below, the way the insertion
    sort of the runtime places its pivot. *)
Fixpoint sort_insert {A} (cmp : A → A → Z) (pivot : A) (l : list A) : list A :=
  match l with
  | [] => [pivot]
  | y :: l' =>
      if (cmp pivot y <? 0)%Z then pivot :: y :: l'
      else y :: sort_insert cmp pivot l'
  end.

Definition sort {A} (cmp : A → A → Z) (l : list A) : list A :=
  fold_left (λ acc x, sort_insert cmp x acc) l [].

(** [arr.filter(f)] with a callback that has effects. *)
Fixpoint filterM {S A} (f : A → M S bool) (l : list A) : M S (list A) :=
  match l with
  | [] => ret []
  | x :: l' =>
      bind (f x) (λ keep,
      bind (filterM f l') (λ rest,
      ret (if keep : bool then x :: rest else rest)))
  end.

(** [path.resolve(dir, name)] for a plain name. *)
Definition path_resolve (dir name : string) : string := dir +:+ "/" +:+ name.

Definition is_digit (c : ascii) : bool :=
  let n := nat_of_ascii c in (48 <=? n)%nat && (n <=? 57)%nat.

Fixpoint match_all (pat : list (ascii → bool)) (s : list ascii) : bool :=
  match pat, s with
  | [], [] => true
  | f :: pat', c :: s' => f c && match_all pat' s'
  | _, _ => false
  end.

(** [/_[0-9]{4}-[0-9]{2}-[0-9]{2}\.txt$/.test(f)]: the last fifteen
    characters are an underscore, a date and [.txt]. *)
Definition pkb_pattern : list (ascii → bool) :=
  let lit (a c : ascii) := Ascii.eqb a c in
  [lit "_"%char; is_digit; is_digit; is_digit; is_digit;
   lit "-"%char; is_digit; is_digit;
   lit "-"%char; is_digit; is_digit;
   lit "."%char; lit "t"%char; lit "x"%char; lit "t"%char].

Definition is_pkb_file (f : string) : bool :=
  let cs := String.list_ascii_of_string f in
  match_all pkb_pattern (drop (length cs - 15) cs).

(** ** The missing-domain ledger queue *)

Module Ledger.

(** The head of the [while] loop of [writeMiss]: with an empty queue the
    loop, and the async function, end; otherwise [fs.appendFile] is called
    for the first domain of the queue and the function is suspended. *)
Definition drain (w : World) : World :=
  match missQueue (self w) with
  | [] => w
  | currentDomain :: _ => set_inflight (inflight w ++ [currentDomain]) w
  end.

(** [writeMiss(domain)] up to its first [await]: what a caller that does not
    await the returned promise observes. *)
Definition writeMiss (domain : string) : M World unit :=
  on_self (modify (λ pl, set_missQueue (missQueue pl ++ [domain]) pl));;
  len ← gets (λ w, length (missQueue (self w)));
  if negb (Nat.eqb len 1) then mret tt
  else modify drain.

(** The [i]-th pending append completes. On success the text has been
    written, [finally] shifts the queue and the loop goes on. On failure
    [finally] shifts the queue as well, then the error leaves the loop and
    rejects the promise of [writeMiss]. *)
Definition settle (i : nat) (ok : bool) (w : World) : World :=
  match inflight w !! i with
  | None => w
  | Some currentDomain =>
      let w1 := set_inflight (delete i (inflight w)) w in
      let w2 := if ok then set_missFile (appendFile (LF +:+ currentDomain) (missFile w1)) w1
                else w1 in
      let w3 := set_self (set_missQueue (tail (missQueue (self w2))) (self w2)) w2 in
      if ok then drain w3 else set_rejected (S (rejected w3)) w3
  end.

(** What can happen to the queue: a caller enters [writeMiss], or a pending
    append completes, well or badly. *)
Inductive event :=
  | Call (domain : string)
  | Settle (i : nat) (ok : bool).

Definition step (w : World) (e : event) : World :=
  match e with
  | Call domain => (writeMiss domain w).2
  | Settle i ok => settle i ok w
  end.

Definition run (tr : list event) (w : World) : World := fold_left step tr w.

End Ledger.

(** ** The registry *)

Module Registry.

(** [this.domains.has(k)], [.get(k)], [.set(k, v)], [.delete(k)] *)
Definition domains_has (k : string) : M ParserList bool :=
  λ pl, (Map_has (domains pl) k, pl).
Definition domains_get (k : string) : M ParserList (option DomainVal) :=
  λ pl, (Map_get (domains pl) k, pl).
Definition domains_set (k : string) (v : DomainVal) : M ParserList unit :=
  λ pl, match Map_set (domains pl) k v with
        | Normal m => (Normal tt, set_domains m pl)
        | Throw e => (Throw e, pl)
        end.
Definition domains_delete (k : string) : M ParserList unit :=
  λ pl, match Map_delete (domains pl) k with
        | Normal m => (Normal tt, set_domains m pl)
        | Throw e => (Throw e, pl)
        end.

(** [this.domains[k] = false] *)
Definition domains_assign_false (k : string) : M ParserList unit :=
  λ pl, match assign_false (domains pl) k with
        | Normal m => (Normal tt, set_domains m pl)
        | Throw e => (Throw e, pl)
        end.

(** [sizeOf(type)]; [None] is [null]. *)
Definition sizeOf (type : string) (pl : ParserList) : option nat :=
  if decide (type = "domains") then Some (size (entries (domains pl)))
  else if decide (type = "platforms") then Some (size (platforms pl))
  else None.

(** [addMiss(domain)] *)
Definition addMiss (domain : string) : M ParserList bool :=
  known ← domains_has domain;
  if negb known then
    domains_set domain JsFalse;;
    mret true
  else mret false.

(** [arr.push(parser)] on the array [arr] that the map holds for [domain]:
    the array object itself grows, no method of the map is called. *)
Definition array_push (domain : string) (arr : list ParserBinding) (p : ParserBinding)
  : M ParserList unit :=
  modify (λ pl, set_domains
    {| entries := <[domain := Parsers (arr ++ [p])]> (entries (domains pl));
       props := props (domains pl) |} pl).

(** [add(domain, parser)]. [this.domains.get(domain).push(parser)] throws
    when the entry is [false], which has no [push]. *)
Definition add (domain : string) (p : ParserBinding) : M ParserList unit :=
  let name := platform p in
  known ← domains_has domain;
  (if negb known then domains_set domain (Parsers []) else mret tt);;
  modify (λ pl,
    if decide (is_Some (platforms pl !! name)) then pl
    else set_platforms (<[name := {| parser := p; owned := ∅ |}]> (platforms pl)) pl);;
  platformEntry ← gets (λ pl, platforms pl !! name);
  match platformEntry with
  | None => throw TypeError
  | Some e =>
      if decide (domain ∈ owned e) then mret tt
      else
        v ← domains_get domain;
        match v with
        | Some (Parsers l) =>
            array_push domain l p;;
            modify (λ pl, set_platforms
              (<[name := {| parser := parser e; owned := {[domain]} ∪ owned e |}]>
                 (platforms pl)) pl)
        | _ => throw TypeError
        end
  end.

(** [get(domain, write)]; [write] is [None] when the argument is omitted.
    The result is [None] for [undefined]. *)
Definition get (domain : string) (write : option bool) : M World (option DomainVal) :=
  known ← on_self (domains_has domain);
  cached ← (if (known : bool) then (mret true : M World bool)
            else v ← on_self (domains_get domain);
                 mret (bool_decide (v = Some JsFalse)));
  if (cached : bool) then on_self (domains_get domain)
  else
    on_self (domains_assign_false domain);;
    (if bool_decide (write ≠ Some false) then Ledger.writeMiss domain else mret tt);;
    mret (Some JsFalse).

(** [getFromPlatform(name)]: [platform && platform.parser] *)
Definition getFromPlatform (name : string) (pl : ParserList) : option ParserBinding :=
  parser <$> platforms pl !! name.

(** [getAll()] *)
Definition getAll (pl : ParserList) : JSMap := domains pl.

(** [getDomainsOf(platform)] *)
Definition getDomainsOf (name : string) (pl : ParserList) : option PlatformEntry :=
  platforms pl !! name.

(** [clearPlatform(name)]. The [Set] is walked in an order that the result
    does not depend on. *)
Definition clearPlatform (name : string) : M ParserList unit :=
  e ← gets (λ pl, platforms pl !! name);
  match e with
  | None => mret tt
  | Some e =>
      forEach domains_delete (elements (owned e));;
      modify (λ pl, set_platforms (delete name (platforms pl)) pl)
  end.

(** An object as [for (... in ...)] sees it: the string-keyed properties of
    the object, then of each object of its prototype chain, every property
    with its enumerable flag. *)
Definition PropertyTable : Type := list (string * bool).

(** [Object.prototype]: nothing in it is enumerable. *)
Definition Object_prototype : PropertyTable :=
  [("constructor", false); ("__defineGetter__", false); ("__defineSetter__", false);
   ("hasOwnProperty", false); ("__lookupGetter__", false); ("__lookupSetter__", false);
   ("isPrototypeOf", false); ("propertyIsEnumerable", false); ("toString", false);
   ("valueOf", false); ("__proto__", false); ("toLocaleString", false)].

(** The object returned by [this.platforms.values()]: a map iterator has no
    own property; its prototype has [next]; the iterator prototype above it
    has string-keyed methods only where the runtime ships the iterator
    helpers, and none of them is enumerable. *)
Definition Map_values (m : gmap string PlatformEntry) : list PropertyTable :=
  [ [];
    [("next", false)];
    [("constructor", false); ("map", false); ("filter", false); ("take", false);
     ("drop", false); ("flatMap", false); ("reduce", false); ("toArray", false);
     ("forEach", false); ("some", false); ("every", false); ("find", false)];
    Object_prototype ].

(** The keys that [for (... in obj)] visits: the enumerable properties along
    the chain, a name being looked at only where it first occurs. *)
Fixpoint for_in_from (seen : list string) (chain : list PropertyTable) : list string :=
  match chain with
  | [] => []
  | table :: chain' =>
      (fst <$> filter (λ kv : string * bool, kv.2 = true ∧ kv.1 ∉ seen) table)
        ++ for_in_from (seen ++ (fst <$> table)) chain'
  end.

Definition for_in (chain : list PropertyTable) : list string := for_in_from [] chain.

(** [const { parser } = key] for a string: a string has no such property,
    the variable is [undefined]. *)
Definition destructure_parser (key : string) : option ParserBinding := None.

(** [delete require.cache[require.resolve(file)]], which throws when the
    file cannot be resolved. *)
Definition evict (f : string) : M World unit :=
  λ w, if decide (f ∈ modules w)
       then (Normal tt, set_requireCache (requireCache w ∖ {[f]}) w)
       else (Throw (SystemError "MODULE_NOT_FOUND"), w).

(** [try { ... } catch (e) { continue; }] *)
Definition try_continue (m : M World unit) : M World unit :=
  λ w, match m w with
       | (Normal _, w') => (Normal tt, w')
       | (Throw _, w') => (Normal tt, w')
       end.

(** [clearCachedParsers()] *)
Definition clearCachedParsers : M World unit :=
  keys ← gets (λ w, for_in (Map_values (platforms (self w))));
  forEach (λ key,
    try_continue
      match destructure_parser key with
      | None => throw TypeError
      | Some p => evict (file p)
      end) keys.

End Registry.

(** ** Building the catalogue *)

Module Catalog.
Import Registry.

(** The fields of [manifest.json] that the source reads, with the types they
    have in the manifests of the platforms; a field that is missing is
    [None]. *)
Record Manifest := mkManifest {
  name : option string;
  longname : option string;
  publisher_name : option string;
  manifest_domains : option (list string);
  pkb_domains : option string
}.

(** [manifest.json] of a platform: it cannot be read, [JSON.parse] rejects
    it, or it holds an object with fields of these types. *)
Inductive ManifestFile :=
  | ReadError (code : string)
  | Malformed
  | Object (m : Manifest).

(** A platform directory: its manifest, whether [parser.js] exists, and the
    listing of [pkb/]. *)
Record PlatformDir := mkPlatformDir {
  manifest_json : ManifestFile;
  parser_js : bool;
  pkb : Completion (list string)
}.

Inductive DirEntry :=
  | StatError (code : string)
  | RegularFile
  | Directory (dir : PlatformDir).

(** What the scan reads: the path and the listing of the platforms
    directory, and the field-keyed records [csvextractor.extract] yields for
    a list of files and a field. *)
Record Disk := mkDisk {
  platformsDir : string;
  listing : Completion (list (string * DirEntry));
  extract : list string → string → Completion (list (gmap string string))
}.

(** A string is truthy unless it is missing or empty. *)
Definition truthy (o : option string) : bool :=
  match o with
  | Some s => negb (String.eqb s "")
  | None => false
  end.

Fixpoint entry_named (item : string) (l : list (string * DirEntry)) : option DirEntry :=
  match l with
  | [] => None
  | (n, e) :: l' => if String.eqb n item then Some e else entry_named item l'
  end.

(** What is found at [path.resolve(platformsDir, item)]. *)
Definition find_dir (disk : Disk) (item : string) : option DirEntry :=
  match listing disk with
  | Normal l => entry_named item l
  | Throw _ => None
  end.

(** [JSON.parse(await fs.readFile(manifestFile))] *)
Definition read_manifest (disk : Disk) (item : string) : Completion Manifest :=
  match find_dir disk item with
  | Some (Directory dir) =>
      match manifest_json dir with
      | ReadError code => Throw (SystemError code)
      | Malformed => Throw SyntaxError
      | Object m => Normal m
      end
  | Some RegularFile => Throw (SystemError "ENOTDIR")
  | Some (StatError code) => Throw (SystemError code)
  | None => Throw (SystemError "ENOENT")
  end.

(** [await fs.stat(parserFile)] *)
Definition stat_parser (disk : Disk) (item : string) : Completion unit :=
  match find_dir disk item with
  | Some (Directory dir) =>
      if parser_js dir then Normal tt else Throw (SystemError "ENOENT")
  | _ => Throw (SystemError "ENOENT")
  end.

(** [await fs.readdir(pkbFolder)] *)
Definition readdir_pkb (disk : Disk) (item : string) : Completion (list string) :=
  match find_dir disk item with
  | Some (Directory dir) => pkb dir
  | _ => Throw (SystemError "ENOENT")
  end.

(** [addDomainsOf(platform)] *)
Definition addDomainsOf (disk : Disk) (item : string) : M ParserList unit :=
  let platformDir := path_resolve (platformsDir disk) item in
  let parserFile := path_resolve platformDir "parser.js" in
  let pkbFolder := path_resolve platformDir "pkb" in
  manifest ← lift (read_manifest disk item);
  if negb (truthy (name manifest)) then mret tt
  else if negb (bool_decide (is_Some (manifest_domains manifest)))
          && negb (truthy (pkb_domains manifest)) then mret tt
  else
    lift (stat_parser disk item);;
    let p := {| file := parserFile;
                platform := default "" (name manifest);
                platformName := longname manifest;
                publisherName := publisher_name manifest |} in
    forEach (λ domain, add domain p) (default [] (manifest_domains manifest));;
    if negb (truthy (pkb_domains manifest)) then mret tt
    else
      let domainsPkbField := default "" (pkb_domains manifest) in
      files ← lift (readdir_pkb disk item);
      let pkbFiles := path_resolve pkbFolder <$> filter (λ f, is_pkb_file f = true) files in
      if Nat.eqb (length pkbFiles) 0 then mret tt
      else
        records ← lift (extract disk pkbFiles domainsPkbField);
        forEach (λ record : gmap string string,
          let domain := record !! domainsPkbField in
          if truthy domain then add (default "" domain) p else mret tt) records.

(** The first half of [init()]: the lists are reset, the directory is listed
    and every directory in it is scanned, one after the other. *)
Definition scanPlatforms (disk : Disk) : M ParserList unit :=
  modify (λ _, new_ParserList);;
  items ← lift (listing disk);
  let items := filter (λ i : string * DirEntry,
                 negb (String.prefix "." i.1) && negb (String.eqb i.1 "js-parser-skeleton") = true)
                 items in
  forEach (λ i : string * DirEntry,
    match i.2 with
    | StatError code => throw (SystemError code)
    | RegularFile => mret tt
    | Directory _ => addDomainsOf disk i.1
    end) items.

(** [(a, b) => (a.toLowerCase() > b.toLowerCase() ? 1 : -1)] *)
Definition byLowerCase (a b : string) : Z :=
  if gt (toLowerCase a) (toLowerCase b) then 1%Z else (-1)%Z.

(** The second half of [init()]: [domains.miss.csv] is read, its header is
    checked, the lines that [addMiss] accepts are sorted and written back.
    Writing the file is assumed to succeed. *)
Definition buildMissingDomains : M World unit :=
  f ← gets missFile;
  missFileContent ← match f with
                    | Content text => (mret (Some text) : M World (option string))
                    | NoFile code =>
                        if String.eqb code "ENOENT" then mret None
                        else throw (SystemError code)
                    end;
  let lines := split "010"%char (default "" missFileContent) in
  let firstLine := trim (hd "" lines) in
  let lines := tail lines in
  (if negb (String.eqb firstLine "domain")
   then modify (set_missFile (Content "domain"))
   else mret tt);;
  kept ← on_self (filterM addMiss lines);
  let lines := sort byLowerCase kept in
  modify (set_missFile (Content ("domain" +:+ LF +:+ join LF lines))).

(** [init()] *)
Definition init (disk : Disk) : M World unit :=
  on_self (scanPlatforms disk);;
  buildMissingDomains.

End Catalog.

(** ** The callback variant

    The earlier, callback-style version of the same file: first the two
    operations whose iteration differs from the class above, then its lists,
    which are plain objects, and the scan that fills them. *)

Module Callback.

(** [writeNextDomain()] *)
Definition writeNextDomain (w : World) : World :=
  match missQueue (self w) with
  | [] => w
  | currentDomain :: _ => set_inflight (inflight w ++ [currentDomain]) w
  end.

(** [writeMiss(domain)] *)
Definition writeMiss (domain : string) : M World unit :=
  on_self (modify (λ pl, set_missQueue (missQueue pl ++ [domain]) pl));;
  len ← gets (λ w, length (missQueue (self w)));
  if negb (Nat.eqb len 1) then mret tt
  else modify writeNextDomain.

(** The callback of [fs.appendFile]: it takes no argument, so the outcome of
    the append is not looked at. *)
Definition settle (i : nat) (ok : bool) (w : World) : World :=
  match inflight w !! i with
  | None => w
  | Some currentDomain =>
      let w1 := set_inflight (delete i (inflight w)) w in
      let w2 := if ok then set_missFile (appendFile (LF +:+ currentDomain) (missFile w1)) w1
                else w1 in
      let w3 := set_self (set_missQueue (tail (missQueue (self w2))) (self w2)) w2 in
      writeNextDomain w3
  end.

Definition step (w : World) (e : Ledger.event) : World :=
  match e with
  | Ledger.Call domain => (writeMiss domain w).2
  | Ledger.Settle i ok => settle i ok w
  end.

Definition run (tr : list Ledger.event) (w : World) : World := fold_left step tr w.

(** The plain object [this.parsers]: one enumerable own property per
    platform name, and [Object.prototype] above. *)
Definition parsers_object (parsers : gmap string ParserBinding) : list Registry.PropertyTable :=
  [ (λ p : string, (p, true)) <$> elements (dom parsers); Registry.Object_prototype ].

(** [clearCachedParsers()], over [this.parsers]. *)
Definition clearCachedParsers (parsers : gmap string ParserBinding) : M World unit :=
  forEach (λ p : string,
    match parsers !! p with
    | None => throw TypeError
    | Some b => Registry.try_continue (Registry.evict (file b))
    end) (Registry.for_in (parsers_object parsers)).

(** *** The lists of the callback variant

    [this.parsers], [this.domains] and [this.platforms] are plain objects
    used as maps. A read [obj[k]] finds an own property, or else a member of
    [Object.prototype] (a function, or for [__proto__] the prototype itself:
    all truthy), or else nothing. The source assigns to a key only where
    the read gave an own property or nothing, so every assignment creates or
    overwrites an own property. *)
Inductive Read (A : Type) :=
  | Own (a : A)
  | Inherited (name : string)
  | Undefined.
Arguments Own {A} a.
Arguments Inherited {A} name.
Arguments Undefined {A}.

Definition Object_members : list string := fst <$> Registry.Object_prototype.

Definition read {A} (o : gmap string A) (k : string) : Read A :=
  match o !! k with
  | Some a => Own a
  | None => if decide (k ∈ Object_members) then Inherited k else Undefined
  end.

(** What [this.domains] holds for a key: [false], a parser object, or what
    reading [this.parsers[platform]] gave instead of one. *)
Inductive Value :=
  | VFalse
  | VParser (b : ParserBinding)
  | VBuiltin (name : string)
  | VUndefined.

#[global] Instance Value_eq_dec : EqDecision Value.
Proof. solve_decision. Defined.

Record ParserList := mkParserList {
  parsers : gmap string ParserBinding;
  domains : gmap string Value;
  platforms : gmap string (list string)
}.

(** [new ParserList()]; [this.missQueue] is the queue that [writeMiss] above
    keeps in the host state. *)
Definition new_ParserList : ParserList :=
  {| parsers := ∅; domains := ∅; platforms := ∅ |}.

Definition set_parsers (p : gmap string ParserBinding) (l : ParserList) : ParserList :=
  {| parsers := p; domains := domains l; platforms := platforms l |}.
Definition set_domains (d : gmap string Value) (l : ParserList) : ParserList :=
  {| parsers := parsers l; domains := d; platforms := platforms l |}.
Definition set_platforms (p : gmap string (list string)) (l : ParserList) : ParserList :=
  {| parsers := parsers l; domains := domains l; platforms := p |}.

(** The value of the expression [this.parsers[k]]. *)
Definition value_of (r : Read ParserBinding) : Value :=
  match r with
  | Own b => VParser b
  | Inherited name => VBuiltin name
  | Undefined => VUndefined
  end.

(** The value of the expression [this.domains[k]]. *)
Definition domain_value (r : Read Value) : Value :=
  match r with
  | Own v => v
  | Inherited name => VBuiltin name
  | Undefined => VUndefined
  end.

(** Truthiness of a value; objects and functions are truthy. *)
Definition is_truthy (v : Value) : bool :=
  match v with
  | VFalse | VUndefined => false
  | VParser _ | VBuiltin _ => true
  end.

(** [sizeOf(type)] *)
Definition sizeOf (type : string) (l : ParserList) : option nat :=
  if decide (type = "parsers") then Some (size (parsers l))
  else if decide (type = "domains") then Some (size (domains l))
  else if decide (type = "platforms") then Some (size (platforms l))
  else None.

(** [addMiss(domain)] *)
Definition addMiss (domain : string) : M ParserList bool :=
  v ← gets (λ l, domain_value (read (domains l) domain));
  if negb (is_truthy v) then
    modify (λ l, set_domains (<[domain := VFalse]> (domains l)) l);;
    mret true
  else mret false.

(** [add(domain, obj)] *)
Definition add (domain : string) (obj : ParserBinding) : M ParserList bool :=
  let platform := platform obj in
  v ← gets (λ l, domain_value (read (domains l) domain));
  if is_truthy v then mret false
  else
    modify (λ l, match read (parsers l) platform with
                 | Undefined => set_parsers (<[platform := obj]> (parsers l)) l
                 | _ => l
                 end);;
    modify (λ l, match read (platforms l) platform with
                 | Undefined => set_platforms (<[platform := []]> (platforms l)) l
                 | _ => l
                 end);;
    modify (λ l, set_domains (<[domain := value_of (read (parsers l) platform)]> (domains l)) l);;
    arr ← gets (λ l, read (platforms l) platform);
    match arr with
    | Own arr =>
        modify (λ l, set_platforms (<[platform := arr ++ [domain]]> (platforms l)) l);;
        mret true
    | _ => throw TypeError
    end.

(** The state of the module: the lists and the host. *)
Record State := mkState {
  this : ParserList;
  host : World
}.

Definition on_this {A} (m : M ParserList A) : M State A :=
  λ s, let '(r, l) := m (this s) in (r, {| this := l; host := host s |}).
Definition on_host {A} (m : M World A) : M State A :=
  λ s, let '(r, w) := m (host s) in (r, {| this := this s; host := w |}).

(** [get(domain, write)] *)
Definition get (domain : string) (write : option bool) : M State Value :=
  v ← on_this (gets (λ l, domain_value (read (domains l) domain)));
  if is_truthy v || bool_decide (v = VFalse) then mret v
  else
    on_this (modify (λ l, set_domains (<[domain := VFalse]> (domains l)) l));;
    (if bool_decide (write ≠ Some false) then on_host (writeMiss domain) else mret tt);;
    mret VFalse.

(** [getFromPlatform(platform)]: the parser, or [false]. *)
Definition getFromPlatform (platform : string) (l : ParserList) : Value :=
  let v := value_of (read (parsers l) platform) in
  if is_truthy v then v else VFalse.

(** [getAll()] *)
Definition getAll (l : ParserList) : gmap string Value := domains l.

(** [getDomainsOf(platform)] *)
Definition getDomainsOf (platform : string) (l : ParserList) : Read (list string) :=
  read (platforms l) platform.

(** [clearPlatform(platform)]: [forEach] is not a property of [undefined],
    nor of a member of [Object.prototype]. *)
Definition clearPlatform (platform : string) : M ParserList unit :=
  modify (λ l, set_parsers (delete platform (parsers l)) l);;
  arr ← gets (λ l, read (platforms l) platform);
  match arr with
  | Own arr =>
      forEach (λ domain, modify (λ l, set_domains (delete domain (domains l)) l)) arr;;
      modify (λ l, set_platforms (<[platform := []]> (platforms l)) l)
  | _ => throw TypeError
  end.

(** [path.join(dir, name)] for a plain name. *)
Definition path_join (dir name : string) : string := dir +:+ "/" +:+ name.

(** What [init] reports: an error of [fs], or [new Error(message)]. *)
Inductive Report :=
  | FsError (e : JsError)
  | Error (message : string).

#[global] Instance Report_eq_dec : EqDecision Report.
Proof. solve_decision. Defined.

(** An entry of [duplicates]; [dup_domain] and [first] are [None] for
    [undefined]. *)
Record Duplicate := mkDuplicate {
  dup_domain : option string;
  first : option string;
  ignored : string
}.

(** [v.platform] *)
Definition platform_of (v : Value) : option string :=
  match v with
  | VParser b => Some (platform b)
  | _ => None
  end.

(** [arr.forEach(f)] for a callback that updates variables of the enclosing
    function, here [acc]. *)
Fixpoint foldM {S A B} (f : A → B → M S B) (l : list A) (acc : B) : M S B :=
  match l with
  | [] => ret acc
  | x :: l' => bind (f x acc) (foldM f l')
  end.

(** The body of the two [forEach] loops of [addDomainsOf]; [key] is the
    property key that [domain] is used as. [acc] holds the own keys of
    [selfDomains] and the array [duplicates]. *)
Definition register (obj : ParserBinding) (key : string) (domain : option string)
    (acc : gset string * list Duplicate) : M State (gset string * list Duplicate) :=
  if decide (key ∈ acc.1) then mret acc
  else
    unique ← on_this (add key obj);
    if (unique : bool) then
      mret (if decide (key = "__proto__") then acc.1 else {[key]} ∪ acc.1, acc.2)
    else
      v ← get key None;
      mret (acc.1, acc.2 ++ [{| dup_domain := domain; first := platform_of v;
                                ignored := platform obj |}]).

(** What [addDomainsOf] hands to its callback: an error, or [null] and the
    duplicates. *)
Inductive Outcome :=
  | Failed (err : Report)
  | Done (duplicates : list Duplicate).

(** [addDomainsOf(platform, callback)] *)
Definition addDomainsOf (disk : Catalog.Disk) (platform : string) : M State Outcome :=
  let platformDir := path_join (Catalog.platformsDir disk) platform in
  let parserFile := path_join platformDir "parser.js" in
  match Catalog.read_manifest disk platform with
  | Throw SyntaxError =>
      mret (Failed (Error ("Failed to parse the manifest of " +:+ platform)))
  | Throw _ =>
      mret (Failed (Error ("Could not read the manifest of " +:+ platform)))
  | Normal manifest =>
      if negb (Catalog.truthy (Catalog.name manifest))
         || negb (bool_decide (is_Some (Catalog.manifest_domains manifest)))
            && negb (Catalog.truthy (Catalog.pkb_domains manifest))
      then mret (Failed (Error ("No domain found for " +:+ platform)))
      else
        let domainsPkbField := Catalog.pkb_domains manifest in
        match Catalog.stat_parser disk platform with
        | Throw _ => mret (Failed (Error ("No parser found for " +:+ platform)))
        | Normal _ =>
            let obj := {| file := parserFile;
                          platform := default "" (Catalog.name manifest);
                          platformName := Catalog.longname manifest;
                          publisherName := Catalog.publisher_name manifest |} in
            acc ← foldM (λ domain, register obj domain (Some domain))
                        (default [] (Catalog.manifest_domains manifest)) (∅, []);
            if negb (Catalog.truthy domainsPkbField) then mret (Done acc.2)
            else
              let pkbFolder := path_join platformDir "pkb" in
              match Catalog.readdir_pkb disk platform with
              | Throw _ => mret (Failed (Error ("PKB of " +:+ platform +:+ " not found")))
              | Normal files =>
                  let pkbFiles := path_join pkbFolder
                                    <$> filter (λ f, is_pkb_file f = true) files in
                  if Nat.eqb (length pkbFiles) 0
                  then mret (Failed (Error ("PKB of " +:+ platform +:+ " not found")))
                  else
                    match Catalog.extract disk pkbFiles (default "" domainsPkbField) with
                    | Throw _ =>
                        mret (Failed (Error ("Syntax error into the PKB of " +:+ platform)))
                    | Normal records =>
                        acc ← foldM (λ record : gmap string string,
                                 let domain := record !! default "" domainsPkbField in
                                 register obj (default "undefined" domain) domain)
                               records acc;
                        mret (Done acc.2)
                    end
              end
        end
  end.

(** [nextItem()], over the items that [items.pop()] will give, in that
    order. An empty name is falsy and ends the walk like the end of the
    array does. *)
Fixpoint nextItem (disk : Catalog.Disk) (items : list (string * Catalog.DirEntry))
    (errors : list Report) (duplicates : list Duplicate)
  : M State (list Report * list Duplicate) :=
  match items with
  | [] => ret (errors, duplicates)
  | (item, entry) :: items' =>
      if String.eqb item "" then ret (errors, duplicates)
      else
        match entry with
        | Catalog.StatError code =>
            nextItem disk items' (errors ++ [FsError (SystemError code)]) duplicates
        | Catalog.RegularFile => nextItem disk items' errors duplicates
        | Catalog.Directory _ =>
            bind (addDomainsOf disk item) (λ r,
              match r with
              | Failed err => nextItem disk items' (errors ++ [err]) duplicates
              | Done dupl => nextItem disk items' errors (duplicates ++ dupl)
              end)
        end
  end.

(** [buildMissingDomains()]; the result is what [callback] is called with.
    Writing the file is assumed to succeed. *)
Definition buildMissingDomains (errors : list Report) (duplicates : list Duplicate)
  : M State (list Report * option (list Duplicate)) :=
  f ← on_host (gets missFile);
  match f with
  | NoFile code =>
      mret (if String.eqb code "ENOENT" then errors
            else errors ++ [FsError (SystemError code)], Some duplicates)
  | Content content =>
      let lines := split "010"%char content in
      let firstLine := trim (hd "" lines) in
      let lines := tail lines in
      if negb (String.eqb firstLine "domain") then
        on_host (modify (set_missFile (Content "domain")));;
        mret (errors, Some duplicates)
      else
        kept ← on_this (filterM addMiss lines);
        let lines := sort Catalog.byLowerCase kept in
        on_host (modify (set_missFile (Content ("domain" +:+ LF +:+ join LF lines))));;
        mret (errors, Some duplicates)
  end.

(** [init(callback)] *)
Definition init (disk : Catalog.Disk) : M State (list Report * option (list Duplicate)) :=
  on_this (modify (λ _, new_ParserList));;
  on_host (on_self (modify (set_missQueue [])));;
  match Catalog.listing disk with
  | Throw err => mret ([FsError err], None)
  | Normal items =>
      let items := filter (λ i : string * Catalog.DirEntry,
                     negb (String.prefix "." i.1)
                     && negb (String.eqb i.1 "js-parser-skeleton") = true) items in
      r ← nextItem disk (reverse items) [] [];
      buildMissingDomains r.1 r.2
  end.

End Callback.

(** * Notions used by the statements *)

Import Registry.

(** No own property hides one of the [Map] methods the source calls. *)
Definition intact (m : JSMap) : Prop :=
  ("has" ∉ props m) ∧ ("get" ∉ props m) ∧ ("set" ∉ props m) ∧ ("delete" ∉ props m).

(** The candidate list of a domain, empty when the map has none. *)
Definition cands (pl : ParserList) (d : string) : list ParserBinding :=
  match entries (domains pl) !! d with
  | Some (Parsers l) => l
  | _ => []
  end.

(** The domains recorded for a platform, none when it is unknown. *)
Definition owned_of (pl : ParserList) (p : string) : gset string :=
  match platforms pl !! p with
  | Some e => owned e
  | None => ∅
  end.

(** What holds of a list that was only ever filled by [add]: the methods are
    in place, every entry is an array, and a platform owns a domain exactly
    when one of the domain's candidates is its parser. *)
Record Inv (pl : ParserList) : Prop := {
  inv_intact : intact (domains pl);
  inv_arrays : ∀ d, entries (domains pl) !! d ≠ Some JsFalse;
  inv_owned : ∀ p d, d ∈ owned_of pl p ↔ p ∈ platform <$> cands pl d
}.

(** [add] without the method look-ups. *)
Definition add_outcome (d : string) (p : ParserBinding) (pl : ParserList)
  : Completion unit * ParserList :=
  let m1 := if decide (is_Some (entries (domains pl) !! d)) then entries (domains pl)
            else <[d := Parsers []]> (entries (domains pl)) in
  let ps1 := if decide (is_Some (platforms pl !! platform p)) then platforms pl
             else <[platform p := {| parser := p; owned := ∅ |}]> (platforms pl) in
  let pl1 := {| domains := {| entries := m1; props := props (domains pl) |};
                platforms := ps1; missQueue := missQueue pl |} in
  match ps1 !! platform p with
  | None => (Throw TypeError, pl1)
  | Some e =>
      if decide (d ∈ owned e) then (Normal tt, pl1)
      else match m1 !! d with
           | Some (Parsers l) =>
               (Normal tt,
                {| domains := {| entries := <[d := Parsers (l ++ [p])]> m1;
                                 props := props (domains pl) |};
                   platforms := <[platform p := {| parser := parser e;
                                                   owned := {[d]} ∪ owned e |}]> ps1;
                   missQueue := missQueue pl |})
           | _ => (Throw TypeError, pl1)
           end
  end.

Definition entry_of (p : ParserBinding) (pl : ParserList) : PlatformEntry :=
  default {| parser := p; owned := ∅ |} (platforms pl !! platform p).

(** The list [add] leaves when [Inv] holds. *)
Definition add_ok (d : string) (p : ParserBinding) (pl : ParserList) : ParserList :=
  let new := if decide (platform p ∈ platform <$> cands pl d) then [] else [p] in
  {| domains := {| entries := <[d := Parsers (cands pl d ++ new)]> (entries (domains pl));
                   props := props (domains pl) |};
     platforms := <[platform p := {| parser := parser (entry_of p pl);
                                     owned := {[d]} ∪ owned (entry_of p pl) |}]> (platforms pl);
     missQueue := missQueue pl |}.

(** A run of calls [add(domain, parser)], in order. *)
Definition adds (calls : list (string * ParserBinding)) : M ParserList unit :=
  forEach (λ c, add c.1 c.2) calls.

(** The parsers that the calls passed for domain [d], in call order. *)
Definition added_for (d : string) (calls : list (string * ParserBinding)) : list ParserBinding :=
  snd <$> filter (λ c, c.1 = d) calls.

(** The first parser of every platform not in [seen], in order. *)
Fixpoint first_per_platform (seen : gset string) (l : list ParserBinding) : list ParserBinding :=
  match l with
  | [] => []
  | b :: l' =>
      if decide (platform b ∈ seen) then first_per_platform seen l'
      else b :: first_per_platform ({[platform b]} ∪ seen) l'
  end.

(** The domains passed to [writeMiss] in a trace, in call order. *)
Definition enqueued (tr : list Ledger.event) : list string :=
  omap (λ e, match e with Ledger.Call d => Some d | Ledger.Settle _ _ => None end) tr.

(** No append of the trace fails. *)
Definition succeeds (e : Ledger.event) : Prop :=
  match e with
  | Ledger.Settle _ ok => ok = true
  | Ledger.Call _ => True
  end.

(** The file after one successful append per domain, in list order. *)
Definition appended (f0 : FileState) (l : list string) : FileState :=
  fold_left (λ f d, appendFile (LF +:+ d) f) l f0.

(** Nothing queued, nothing being appended. *)
Definition quiet (w : World) : Prop := missQueue (self w) = [] ∧ inflight w = [].

(** At most one append is pending, and it is for the head of the queue. *)
Definition one_writer (w : World) : Prop :=
  inflight w = [] ∨ ∃ c q, inflight w = [c] ∧ missQueue (self w) = c :: q.

(** The domains of the trace that left the queue were appended in order, and
    the head of what remains is being appended. *)
Definition in_order (f0 : FileState) (tr : list Ledger.event) (w : World) : Prop :=
  ∃ written, enqueued tr = written ++ missQueue (self w) ∧
    missFile w = appended f0 written ∧
    inflight w = take 1 (missQueue (self w)).

(** [a] is not after [b] when the case of the ASCII letters is ignored. *)
Definition ci_le (a b : string) : Prop := String.le (toLowerCase a) (toLowerCase b).

(** Text of the ASCII range: every byte is below 128. *)
Definition is_ascii (c : ascii) : bool := (nat_of_ascii c <? 128)%nat.

Definition ascii_text (s : string) : Prop :=
  forallb is_ascii (String.list_ascii_of_string s) = true.

(** A ledger file that, when it can be read, holds text of the ASCII range. *)
Definition ascii_ledger (f : FileState) : Prop :=
  match f with
  | Content text => ascii_text text
  | NoFile _ => True
  end.

(** The lines that [addMiss] accepts in turn: those not in [known], each
    once, at its first occurrence. *)
Fixpoint accepted (known : gset string) (lines : list string) : list string :=
  match lines with
  | [] => []
  | x :: l =>
      if decide (x ∈ known) then accepted known l
      else x :: accepted ({[x]} ∪ known) l
  end.

Fixpoint contains (c : ascii) (s : string) : bool :=
  match s with
  | "" => false
  | String a s' => Ascii.eqb a c || contains c s'
  end.

(** A computation keeps a property of the state, however it ends. *)
Definition preserves {S A} (I : S → Prop) (m : M S A) : Prop := ∀ s, I s → I (m s).2.

(** What [fs.readFile] gives the second half of [init], when it goes on. *)
Definition ledger_text (f : FileState) : option string :=
  match f with
  | Content text => Some text
  | NoFile code => if String.eqb code "ENOENT" then Some "" else None
  end.

(** The ways the directory of a platform makes [addDomainsOf] throw: the
    manifest cannot be read or parsed; or it names the platform and domains
    but [parser.js] is missing, or the [pkb] folder it asks for cannot be
    listed. *)
Definition faulty (disk : Catalog.Disk) (item : string) : Prop :=
  (∃ e, Catalog.read_manifest disk item = Throw e) ∨
  (∃ m, Catalog.read_manifest disk item = Normal m ∧
        Catalog.truthy (Catalog.name m) = true ∧
        (is_Some (Catalog.manifest_domains m) ∨
         Catalog.truthy (Catalog.pkb_domains m) = true) ∧
        ((∃ e, Catalog.stat_parser disk item = Throw e) ∨
         (Catalog.truthy (Catalog.pkb_domains m) = true ∧
          ∃ e, Catalog.readdir_pkb disk item = Throw e))).

(** An item that the filter of [init] keeps. *)
Definition visible (item : string) : Prop :=
  negb (String.prefix "." item) && negb (String.eqb item "js-parser-skeleton") = true.

(** A well-formed platform, and a platforms directory that lists a platform
    named [faulty] before it. *)
Definition platformA : Catalog.PlatformDir :=
  {| Catalog.manifest_json :=
       Catalog.Object {| Catalog.name := Some "platformA";
                         Catalog.longname := None;
                         Catalog.publisher_name := None;
                         Catalog.manifest_domains := Some ["a.example.com"];
                         Catalog.pkb_domains := None |};
     Catalog.parser_js := true;
     Catalog.pkb := Throw (SystemError "ENOENT") |}.

Definition disk_with (first : Catalog.PlatformDir) : Catalog.Disk :=
  {| Catalog.platformsDir := "/ezpaarse/platforms";
     Catalog.listing := Normal [("faulty", Catalog.Directory first);
                                ("platformA", Catalog.Directory platformA)];
     Catalog.extract := λ _ _, Normal [] |}.

(** A platforms directory with [platformA] alone. *)
Definition disk_A : Catalog.Disk :=
  {| Catalog.platformsDir := "/ezpaarse/platforms";
     Catalog.listing := Normal [("platformA", Catalog.Directory platformA)];
     Catalog.extract := λ _ _, Normal [] |}.

(** The calls that passed a parser of platform [n], in call order. *)
Definition calls_of (n : string) (calls : list (string * ParserBinding))
  : list (string * ParserBinding) :=
  filter (λ c, platform c.2 = n) calls.






(** A file name that ends with an underscore, a date written
    [dddd-dd-dd] and [.txt]. *)
Definition dated_name (cs : list ascii) : Prop :=
  ∃ pre y m d,
    cs = pre ++ ["_"%char] ++ y ++ ["-"%char] ++ m ++ ["-"%char] ++ d
             ++ ["."%char; "t"%char; "x"%char; "t"%char] ∧
    length y = 4 ∧ length m = 2 ∧ length d = 2 ∧
    Forall (λ c, is_digit c = true) (y ++ m ++ d).

(** The platforms directory without the items that [init] filters out. *)
Definition without_hidden (disk : Catalog.Disk) : Catalog.Disk :=
  {| Catalog.platformsDir := Catalog.platformsDir disk;
     Catalog.listing :=
       match Catalog.listing disk with
       | Normal items =>
           Normal (filter (λ i : string * Catalog.DirEntry, visible i.1) items)
       | Throw e => Throw e
       end;
     Catalog.extract := Catalog.extract disk |}.

(** A key that is not the name of a member of [Object.prototype]. *)
Definition plain (k : string) : Prop := k ∉ Callback.Object_members.

(** In the callback variant, [this.domains[d]] is truthy: a parser, or for a
    key named like one a member of [Object.prototype]. *)
Definition claimed (l : Callback.ParserList) (d : string) : Prop :=
  Callback.is_truthy (Callback.domain_value (Callback.read (Callback.domains l) d)) = true.

(** A run of calls [add(domain, obj)] of the callback variant, with the
    values they return. *)
Fixpoint cb_adds (calls : list (string * ParserBinding))
  : M Callback.ParserList (list bool) :=
  match calls with
  | [] => ret []
  | c :: calls' =>
      bind (Callback.add c.1 c.2) (λ unique,
      bind (cb_adds calls') (λ rest, ret (unique :: rest)))
  end.

(** For every call, whether its domain occurs in no earlier call and not in
    [seen]. *)
Fixpoint first_claims (seen : gset string) (calls : list (string * ParserBinding))
  : list bool :=
  match calls with
  | [] => []
  | c :: calls' => bool_decide (c.1 ∉ seen) :: first_claims ({[c.1]} ∪ seen) calls'
  end.

(** What holds of the lists of the callback variant when only [add] filled
    them: a parser is stored under its own platform name, and a domain holds
    the parser stored for its platform. *)
Record cb_consistent (l : Callback.ParserList) : Prop := {
  cb_parsers_keyed : ∀ p b, Callback.parsers l !! p = Some b → platform b = p;
  cb_domains_parsers : ∀ d v, Callback.domains l !! d = Some v →
    ∃ b, v = Callback.VParser b ∧ Callback.parsers l !! platform b = Some b
}.

(** No manifest of the directory names its platform like a member of
    [Object.prototype]. *)
Definition plain_platforms (disk : Catalog.Disk) : Prop :=
  ∀ item m, Catalog.read_manifest disk item = Normal m → plain (default "" (Catalog.name m)).

(** The entry of [duplicates] for a domain that another platform holds. *)
Definition duplicate_of (l : Callback.ParserList) (ignored : string) (d : string)
  : Callback.Duplicate :=
  {| Callback.dup_domain := Some d;
     Callback.first :=
       Callback.platform_of (Callback.domain_value (Callback.read (Callback.domains l) d));
     Callback.ignored := ignored |}.

(** * Theorems *)

(** ** The registry: [add] *)

Ltac js_unfold :=
  unfold mbind, M_bind, bind, domains_has, domains_get, domains_set, domains_delete,
    domains_assign_false, array_push, Map_has, Map_get, Map_set, Map_delete, method,
    modify, gets,
    lift, mret, M_ret, ret, throw, set_domains, set_platforms, set_missQueue;
  cbn [domains entries props platforms missQueue].

Lemma add_intact d p pl :
  intact (domains pl) → add d p pl = add_outcome d p pl.
Proof.
  intros (Hhas & Hget & Hset & _). destruct pl as [[m pr] ps q].
  unfold add, add_outcome. js_unfold. cbn [props] in *.
  rewrite !(decide_False _ _ Hhas), ?(decide_False _ _ Hget), ?(decide_False _ _ Hset).
  destruct (decide (is_Some (m !! d))) as [Hd|Hd];
    [rewrite bool_decide_eq_true_2 by done|rewrite bool_decide_eq_false_2 by done];
    cbn; rewrite ?(decide_False _ _ Hset); cbn;
    destruct (decide (is_Some (ps !! platform p))) as [Hp|Hp]; cbn;
    rewrite ?lookup_insert_eq; cbn.
  - destruct (ps !! platform p) as [e|] eqn:He; [|by destruct Hp].
    destruct (decide (d ∈ owned e)); [done|].
    rewrite ?(decide_False _ _ Hget); cbn.
    by destruct (m !! d) as [[|l]|] eqn:Hmd.
  - destruct (decide (d ∈ ∅)) as [Hin|_]; [by apply not_elem_of_empty in Hin|].
    rewrite ?(decide_False _ _ Hget); cbn.
    by destruct (m !! d) as [[|l]|] eqn:Hmd.
  - destruct (ps !! platform p) as [e|] eqn:He; [|by destruct Hp].
    destruct (decide (d ∈ owned e)); [done|].
    rewrite ?(decide_False _ _ Hget); cbn. by rewrite lookup_insert_eq.
  - destruct (decide (d ∈ ∅)) as [Hin|_]; [by apply not_elem_of_empty in Hin|].
    rewrite ?(decide_False _ _ Hget); cbn. by rewrite lookup_insert_eq.
Qed.

Lemma add_Inv_eq d p pl : Inv pl → add d p pl = (Normal tt, add_ok d p pl).
Proof.
  intros [Hi Ha Ho]. rewrite add_intact by done.
  specialize (Ho (platform p) d). specialize (Ha d).
  destruct pl as [[m pr] ps q]. unfold add_outcome, add_ok, entry_of, cands, owned_of in *.
  cbn [domains entries props platforms missQueue] in *.
  destruct (ps !! platform p) as [e|] eqn:He; cbn [default].
  - rewrite decide_True by done. rewrite He.
    destruct (decide (d ∈ owned e)) as [Hd|Hd].
    + pose proof (proj1 Ho Hd) as Hin. rewrite (decide_True _ _ Hin).
      destruct (m !! d) as [[|l]|] eqn:Hm; try by apply not_elem_of_nil in Hin.
      rewrite decide_True by done. rewrite app_nil_r.
      rewrite insert_id by done. rewrite insert_id; [done|].
      rewrite He. f_equal. destruct e as [pe oe]. cbn in *. f_equal.
      apply leibniz_equiv. intros x. rewrite elem_of_union, elem_of_singleton.
      split; [by right|intros [->|?]; done].
    + assert (Hnin := Hd). rewrite Ho in Hnin. rewrite (decide_False _ _ Hnin).
      destruct (m !! d) as [[|l]|] eqn:Hm; [done| |].
      * rewrite decide_True by done. rewrite Hm. done.
      * rewrite decide_False by (by intros [??]). rewrite lookup_insert_eq.
        rewrite insert_insert_eq. done.
  - rewrite decide_False by (by intros [??]). rewrite lookup_insert_eq. cbn [owned parser].
    rewrite decide_False by apply not_elem_of_empty.
    assert (Hnin : platform p ∉ platform <$>
              match m !! d with Some (Parsers l) => l | _ => [] end).
    { rewrite <-Ho. apply not_elem_of_empty. }
    rewrite (decide_False _ _ Hnin). rewrite insert_insert_eq.
    destruct (m !! d) as [[|l]|] eqn:Hm; [done| |].
    * rewrite decide_True by done. rewrite Hm. done.
    * rewrite decide_False by (by intros [??]). rewrite lookup_insert_eq.
      rewrite insert_insert_eq. done.
Qed.

Lemma cands_add_ok d p pl d' :
  cands (add_ok d p pl) d' =
    if decide (d' = d)
    then cands pl d ++ (if decide (platform p ∈ platform <$> cands pl d) then [] else [p])
    else cands pl d'.
Proof.
  unfold cands at 1. unfold add_ok. cbn [domains entries].
  destruct (decide (d' = d)) as [->|Hd].
  - by rewrite lookup_insert_eq.
  - by rewrite lookup_insert_ne.
Qed.

Lemma owned_entry_of p pl : owned (entry_of p pl) = owned_of pl (platform p).
Proof. unfold entry_of, owned_of. by destruct (platforms pl !! platform p). Qed.

Lemma add_ok_Inv d p pl : Inv pl → Inv (add_ok d p pl).
Proof.
  intros [Hi Ha Ho]. split.
  - exact Hi.
  - intros d'. cbn. destruct (decide (d = d')) as [->|Hne].
    + by rewrite lookup_insert_eq.
    + rewrite lookup_insert_ne by done. apply Ha.
  - intros p' d'. rewrite cands_add_ok. unfold owned_of. cbn [add_ok platforms].
    destruct (decide (platform p = p')) as [<-|Hp].
    + rewrite lookup_insert_eq. cbn [owned]. rewrite owned_entry_of.
      rewrite elem_of_union, elem_of_singleton.
      destruct (decide (d' = d)) as [->|Hd].
      * split; [intros _|by left].
        rewrite fmap_app. apply elem_of_app.
        destruct (decide (platform p ∈ platform <$> cands pl d)); [by left|right].
        apply list_elem_of_singleton. done.
      * rewrite <-(Ho (platform p) d'). split; [intros [?|?]; done|by right].
    + rewrite lookup_insert_ne by done. fold (owned_of pl p').
      destruct (decide (d' = d)) as [->|Hd]; [|apply Ho].
      rewrite (Ho p' d), fmap_app, elem_of_app.
      split; [by left|intros [?|Hin]; [done|]].
      destruct (decide (platform p ∈ platform <$> cands pl d)).
      * by apply not_elem_of_nil in Hin.
      * apply list_elem_of_singleton in Hin. by subst.
Qed.

Lemma Inv_new : Inv new_ParserList.
Proof.
  split.
  - repeat split; cbn; apply not_elem_of_empty.
  - intros d. cbn. by rewrite lookup_empty.
  - intros p d. unfold owned_of, cands. cbn. rewrite !lookup_empty. cbn.
    split; [intros []%not_elem_of_empty|intros []%not_elem_of_nil].
Qed.

(** *** Runs of [add] *)

Lemma first_per_platform_elem seen l p :
  p ∈ platform <$> first_per_platform seen l ↔ (p ∉ seen) ∧ p ∈ platform <$> l.
Proof.
  revert seen. induction l as [|b l IH]; intros seen; cbn.
  - split; [intros []%not_elem_of_nil|intros [_ []%not_elem_of_nil]].
  - destruct (decide (platform b ∈ seen)) as [Hb|Hb].
    + rewrite IH, elem_of_cons. split; [intros [??]; auto|].
      intros [Hp [->|?]]; done.
    + cbn. rewrite !elem_of_cons, IH, elem_of_union, elem_of_singleton.
      split.
      * intros [->|[Hn ?]]; [auto|]. split; [|by right]. intros ?. apply Hn. by right.
      * intros [Hp [->|?]]; [by left|].
        destruct (decide (p = platform b)) as [->|Hne]; [by left|right].
        split; [|done]. intros [?|?]; done.
Qed.

Lemma first_per_platform_NoDup seen l :
  NoDup (platform <$> first_per_platform seen l).
Proof.
  revert seen. induction l as [|b l IH]; intros seen; cbn; [constructor|].
  destruct (decide (platform b ∈ seen)); [apply IH|]. cbn. constructor; [|apply IH].
  rewrite first_per_platform_elem. intros [Hn _]. apply Hn.
  apply elem_of_union. left. by apply elem_of_singleton.
Qed.

Lemma first_per_platform_sublist seen l : first_per_platform seen l `sublist_of` l.
Proof.
  revert seen. induction l as [|b l IH]; intros seen; cbn; [done|].
  destruct (decide (platform b ∈ seen)); [apply sublist_cons|apply sublist_skip]; apply IH.
Qed.

Lemma first_per_platform_snoc seen l b :
  first_per_platform seen (l ++ [b]) =
    first_per_platform seen l ++
      (if decide (platform b ∈ seen ∨ platform b ∈ platform <$> l) then [] else [b]).
Proof.
  revert seen. induction l as [|a l IH]; intros seen; cbn.
  - destruct (decide (platform b ∈ seen)) as [Hb|Hb].
    + rewrite decide_True; [done|by left].
    + rewrite decide_False; [done|]. intros [?|[]%not_elem_of_nil]. done.
  - destruct (decide (platform a ∈ seen)) as [Ha|Ha]; rewrite IH.
    + f_equal. apply decide_ext. rewrite elem_of_cons.
      split; [intros [?|?]; auto|]. intros [?|[->|?]]; auto.
    + cbn. f_equal. f_equal. apply decide_ext.
      rewrite elem_of_cons, elem_of_union, elem_of_singleton.
      split; [intros [[?|?]|?]; auto|intros [?|[?|?]]; auto].
Qed.

Lemma adds_from pl calls :
  Inv pl →
  ∃ pl', adds calls pl = (Normal tt, pl') ∧ Inv pl' ∧
    ∀ d, entries (domains pl') !! d =
      match added_for d calls with
      | [] => entries (domains pl) !! d
      | _ => Some (Parsers (cands pl d ++
               first_per_platform (list_to_set (platform <$> cands pl d)) (added_for d calls)))
      end.
Proof.
  revert pl. induction calls as [|[d0 b0] calls IH]; intros pl HI.
  - exists pl. done.
  - destruct (IH (add_ok d0 b0 pl) (add_ok_Inv _ _ _ HI)) as (pl' & Hrun & HI' & Hent).
    exists pl'. split; [|split; [done|]].
    + unfold adds in *. cbn [forEach]. unfold bind. cbn [fst snd].
      rewrite add_Inv_eq by done. exact Hrun.
    + intros d. rewrite Hent. unfold added_for. rewrite filter_cons. cbn [fst].
      rewrite cands_add_ok.
      destruct (decide (d0 = d)) as [->|Hne].
      * rewrite decide_True by done. rewrite fmap_cons. cbn [snd first_per_platform].
        fold (added_for d calls).
        rewrite (decide_ext (platform b0 ∈ (list_to_set (platform <$> cands pl d) : gset string))
                   (platform b0 ∈ platform <$> cands pl d)) by apply elem_of_list_to_set.
        destruct (decide (platform b0 ∈ platform <$> cands pl d)) as [Hin|Hin].
        -- rewrite app_nil_r. destruct (added_for d calls) eqn:Hadd.
           ++ cbn. rewrite app_nil_r. cbn [add_ok domains entries].
              by rewrite lookup_insert_eq, decide_True, app_nil_r.
           ++ done.
        -- rewrite fmap_app, list_to_set_app_L. cbn [fmap list_fmap list_to_set].
           replace (list_to_set (platform <$> cands pl d) ∪ ({[platform b0]} ∪ ∅))
             with ({[platform b0]} ∪ (list_to_set (platform <$> cands pl d) : gset string)).
           2:{ rewrite (right_id_L ∅ (∪)). apply (comm_L (∪)). }
           rewrite <-app_assoc. cbn [app].
           destruct (added_for d calls) eqn:Hadd; [|done].
           cbn. cbn [add_ok domains entries].
           by rewrite lookup_insert_eq, decide_False.
      * rewrite decide_False by done. fold (added_for d calls).
        destruct (added_for d calls); [|done].
        cbn [add_ok domains entries]. by rewrite lookup_insert_ne.
Qed.

Lemma added_for_elem d calls p :
  p ∈ platform <$> added_for d calls ↔ ∃ b, (d, b) ∈ calls ∧ platform b = p.
Proof.
  unfold added_for. rewrite list_elem_of_fmap. split.
  - intros (b & -> & Hb). apply list_elem_of_fmap in Hb as ([d' b'] & -> & Hin).
    apply list_elem_of_filter in Hin as [Hd Hin]. cbn in *. subst. eauto.
  - intros (b & Hin & <-). exists b. split; [done|].
    apply list_elem_of_fmap. exists (d, b). split; [done|].
    apply list_elem_of_filter. done.
Qed.

Lemma added_for_snoc d calls d' b :
  added_for d (calls ++ [(d', b)]) =
    added_for d calls ++ (if decide (d' = d) then [b] else []).
Proof.
  unfold added_for. rewrite filter_app, fmap_app. f_equal.
  rewrite filter_cons, filter_nil. cbn. by destruct (decide (d' = d)).
Qed.

(** C4. Whatever calls [add(domain, parser)] are made on a new list, all of
    them return, and afterwards the candidate list of a domain holds the
    first parser of every platform that added the domain, in the order of
    those first calls: one candidate per platform, and a subsequence of the
    parsers passed for that domain. A further [add] for a pair (domain,
    platform) that was added before leaves the candidate list as it is, and
    for a platform that is new to the domain it puts the parser at the end.
    Two platforms adding one domain give the list of their two parsers in
    call order. *)
Theorem add_candidates_per_platform :
  (∀ calls : list (string * ParserBinding),
     ∃ pl, adds calls new_ParserList = (Normal tt, pl) ∧
       ∀ d,
         entries (domains pl) !! d =
           (if decide (added_for d calls = []) then None
            else Some (Parsers (first_per_platform ∅ (added_for d calls)))) ∧
         NoDup (platform <$> cands pl d) ∧
         (∀ p, p ∈ platform <$> cands pl d ↔ ∃ b, (d, b) ∈ calls ∧ platform b = p) ∧
         cands pl d `sublist_of` added_for d calls ∧
         (∀ b pl', adds (calls ++ [(d, b)]) new_ParserList = (Normal tt, pl') →
            cands pl' d =
              cands pl d ++ (if decide (platform b ∈ platform <$> added_for d calls)
                             then [] else [b]))) ∧
  (∀ d b1 b2, platform b1 ≠ platform b2 →
     ∃ pl, adds [(d, b1); (d, b2)] new_ParserList = (Normal tt, pl) ∧
       entries (domains pl) !! d = Some (Parsers [b1; b2])).
Proof.
  assert (Hgen : ∀ calls, ∃ pl, adds calls new_ParserList = (Normal tt, pl) ∧
            ∀ d, entries (domains pl) !! d =
              (if decide (added_for d calls = []) then None
               else Some (Parsers (first_per_platform ∅ (added_for d calls))))).
  { intros calls. destruct (adds_from new_ParserList calls Inv_new) as (pl & Hrun & _ & Hent).
    exists pl. split; [done|]. intros d. rewrite Hent. unfold cands. cbn.
    rewrite lookup_empty. cbn. destruct (added_for d calls); done. }
  assert (Hc : ∀ calls pl d, adds calls new_ParserList = (Normal tt, pl) →
            cands pl d = first_per_platform ∅ (added_for d calls)).
  { intros calls pl d Hrun. destruct (Hgen calls) as (pl0 & Hrun0 & Hent).
    rewrite Hrun in Hrun0. injection Hrun0 as <-. unfold cands. rewrite Hent.
    destruct (added_for d calls); done. }
  split.
  - intros calls. destruct (Hgen calls) as (pl & Hrun & Hent). exists pl.
    split; [done|]. intros d. split; [apply Hent|]. rewrite (Hc _ _ d Hrun).
    split; [apply first_per_platform_NoDup|].
    split; [|split; [apply first_per_platform_sublist|]].
    + intros p. rewrite first_per_platform_elem, added_for_elem.
      split; [intros [_ ?]; done|]. intros ?. split; [apply not_elem_of_empty|done].
    + intros b pl' Hrun'. rewrite (Hc _ _ d Hrun'), added_for_snoc.
      rewrite decide_True by done. rewrite first_per_platform_snoc. f_equal.
      apply decide_ext. split; [intros [[]%not_elem_of_empty|?]; done|by right].
  - intros d b1 b2 Hne. exists (add_ok d b2 (add_ok d b1 new_ParserList)).
    pose proof (add_ok_Inv d b1 _ Inv_new) as HI1.
    split.
    + unfold adds. cbn [forEach]. unfold bind. cbn [fst snd].
      rewrite (add_Inv_eq _ _ _ Inv_new), (add_Inv_eq _ _ _ HI1). done.
    + assert (Hc1 : cands (add_ok d b1 new_ParserList) d = [b1]).
      { rewrite cands_add_ok, decide_True by done. unfold cands. cbn.
        rewrite lookup_empty. cbn. rewrite decide_False by apply not_elem_of_nil. done. }
      unfold add_ok at 1. cbn [domains entries]. rewrite lookup_insert_eq, Hc1.
      cbn. rewrite decide_False; [done|].
      intros Hin%list_elem_of_singleton. done.
Qed.

Lemma add_candidates_per_platform_witness :
  ∃ pl, adds [("a.example.com", mkBinding "/platforms/p/parser.js" "p" None None);
              ("a.example.com", mkBinding "/platforms/q/parser.js" "q" None None)]
          new_ParserList = (Normal tt, pl) ∧
    entries (domains pl) !! "a.example.com" =
      Some (Parsers [mkBinding "/platforms/p/parser.js" "p" None None;
                     mkBinding "/platforms/q/parser.js" "q" None None]).
Proof.
  apply (proj2 add_candidates_per_platform "a.example.com"
           (mkBinding "/platforms/p/parser.js" "p" None None)
           (mkBinding "/platforms/q/parser.js" "q" None None)).
  cbn. discriminate.
Defined.

(** ** The registry: [clearPlatform] and [get] *)

Lemma set_self_self w : set_self (self w) w = w.
Proof. by destruct w. Qed.

Lemma forEach_delete l pl :
  "delete" ∉ props (domains pl) →
  forEach domains_delete l pl =
    (Normal tt,
     set_domains {| entries := fold_left (λ m k, delete k m) l (entries (domains pl));
                    props := props (domains pl) |} pl).
Proof.
  intros Hd. revert pl Hd. induction l as [|k l IH]; intros [[m pr] ps q] Hd.
  - done.
  - cbn [forEach]. unfold bind, domains_delete at 1, Map_delete, method.
    cbn [domains props entries] in *. rewrite (decide_False _ _ Hd). cbn.
    rewrite IH by done. done.
Qed.

Lemma lookup_fold_delete (l : list string) (m : gmap string DomainVal) d :
  fold_left (λ m k, delete k m) l m !! d = if decide (d ∈ l) then None else m !! d.
Proof.
  revert m. induction l as [|k l IH]; intros m; cbn.
  - rewrite decide_False by apply not_elem_of_nil. done.
  - rewrite IH. destruct (decide (d ∈ l)) as [Hin|Hin].
    + rewrite decide_True; [done|by right].
    + destruct (decide (k = d)) as [->|Hne].
      * rewrite lookup_delete_eq, decide_True; [done|by left].
      * rewrite lookup_delete_ne by done. rewrite decide_False; [done|].
        intros [?|?]%elem_of_cons; done.
Qed.

Lemma clearPlatform_known name e pl :
  platforms pl !! name = Some e → "delete" ∉ props (domains pl) →
  ∃ pl', clearPlatform name pl = (Normal tt, pl') ∧
    (∀ d, entries (domains pl') !! d =
            if decide (d ∈ owned e) then None else entries (domains pl) !! d) ∧
    props (domains pl') = props (domains pl) ∧
    platforms pl' = delete name (platforms pl) ∧
    missQueue pl' = missQueue pl.
Proof.
  intros He Hd. eexists. split.
  - unfold clearPlatform. js_unfold. rewrite He. unfold mbind, M_bind, bind.
    rewrite forEach_delete by done. cbn. reflexivity.
  - cbn. split; [|done]. intros d. rewrite lookup_fold_delete.
    apply decide_ext. apply elem_of_elements.
Qed.

Lemma clearPlatform_unknown name pl :
  platforms pl !! name = None → clearPlatform name pl = (Normal tt, pl).
Proof. intros He. unfold clearPlatform. js_unfold. by rewrite He. Qed.

Lemma get_hit d write w v :
  intact (domains (self w)) → entries (domains (self w)) !! d = Some v →
  get d write w = (Normal (Some v), w).
Proof.
  intros (Hhas & Hget & _) Hv. unfold get, on_self. js_unfold.
  rewrite (decide_False _ _ Hhas). cbn. rewrite Hv.
  rewrite bool_decide_eq_true_2 by (by eexists). rewrite set_self_self. cbn.
  rewrite (decide_False _ _ Hget). cbn. by rewrite set_self_self, Hv.
Qed.

Lemma writeMiss_domains d w :
  domains (self (Ledger.writeMiss d w).2) = domains (self w) ∧
  platforms (self (Ledger.writeMiss d w).2) = platforms (self w).
Proof.
  unfold Ledger.writeMiss, on_self, Ledger.drain. js_unfold. cbn.
  destruct (length (missQueue (self w) ++ [d]) =? 1)%nat; cbn; [|done].
  by destruct (missQueue (self w) ++ [d]).
Qed.

(** X10. [get] never changes the entries of the domain map, whatever the
    domain, the [write] flag and the state, and whether it returns or
    throws: it registers nothing, removes nothing, and what it notes about a
    miss is not an entry. *)
Lemma get_entries d write w :
  entries (domains (self (get d write w).2)) = entries (domains (self w)).
Proof.
  unfold get, on_self. js_unfold.
  destruct (decide ("has" ∈ props (domains (self w)))); cbn; [done|].
  destruct (bool_decide (is_Some (entries (domains (self w)) !! d))); cbn.
  - by destruct (decide ("get" ∈ props (domains (self w)))).
  - destruct (decide ("get" ∈ props (domains (self w)))); cbn; [done|].
    destruct (bool_decide (entries (domains (self w)) !! d = Some JsFalse)); cbn.
    + by destruct (decide ("get" ∈ props (domains (self w)))).
    + unfold assign_false.
      destruct (decide (d ∈ props (domains (self w)))); cbn.
      * destruct (bool_decide (write ≠ Some false)); cbn; [|done].
        match goal with |- context [Ledger.writeMiss d ?w0] =>
          pose proof (writeMiss_domains d w0) as [Hd _];
          destruct (Ledger.writeMiss d w0) as [[] ?] end; cbn in *; by rewrite Hd.
      * destruct (decide (d = "size")); cbn; [done|].
        destruct (decide (d = "__proto__")); cbn.
        -- destruct (bool_decide (write ≠ Some false)); cbn; [|done].
           match goal with |- context [Ledger.writeMiss d ?w0] =>
             pose proof (writeMiss_domains d w0) as [Hd _];
             destruct (Ledger.writeMiss d w0) as [[] ?] end; cbn in *; by rewrite Hd.
        -- destruct (bool_decide (write ≠ Some false)); cbn; [|done].
           match goal with |- context [Ledger.writeMiss d ?w0] =>
             pose proof (writeMiss_domains d w0) as [Hd _];
             destruct (Ledger.writeMiss d w0) as [[] ?] end; cbn in *; by rewrite Hd.
Qed.

Lemma writeMiss_normal d w : (Ledger.writeMiss d w).1 = Normal tt.
Proof.
  unfold Ledger.writeMiss, on_self. js_unfold. cbn.
  by destruct (length (missQueue (self w) ++ [d]) =? 1)%nat.
Qed.

Lemma get_miss d write w :
  "has" ∉ props (domains (self w)) → "get" ∉ props (domains (self w)) →
  entries (domains (self w)) !! d = None →
  get d write w =
    match assign_false (domains (self w)) d with
    | Throw e => (Throw e, w)
    | Normal m =>
        let w1 := set_self (set_domains m (self w)) w in
        (Normal (Some JsFalse),
         if bool_decide (write ≠ Some false) then (Ledger.writeMiss d w1).2 else w1)
    end.
Proof.
  intros Hhas Hget Hd. destruct w as [pl f i r mo c]. unfold get, on_self. js_unfold.
  cbn [self set_self] in *.
  do 4 (cbn; rewrite ?Hd, ?(decide_False _ _ Hget), ?(decide_False _ _ Hhas)).
  rewrite bool_decide_eq_false_2 by done. cbn.
  destruct (assign_false (domains pl) d) as [m|e]; cbn; [|done].
  destruct (bool_decide (write ≠ Some false)); cbn; [|done].
  unfold set_self, set_domains.
  cbn [self missFile inflight rejected modules requireCache domains platforms missQueue].
  match goal with |- context [Ledger.writeMiss d ?w0] =>
    pose proof (writeMiss_normal d w0) as Hn;
    destruct (Ledger.writeMiss d w0) as [[] ?] end; cbn in *; done.
Qed.

Lemma get_shadowed d write w :
  entries (domains (self w)) !! d = None →
  "has" ∈ props (domains (self w)) ∨ "get" ∈ props (domains (self w)) →
  (get d write w).1 = Throw TypeError.
Proof.
  intros Hd Hs. destruct w as [pl f i r mo c]. unfold get, on_self. js_unfold.
  cbn [self set_self] in *.
  destruct (decide ("has" ∈ props (domains pl))) as [|Hhas]; cbn; [done|].
  destruct Hs as [?|Hget]; [done|].
  do 4 (cbn; rewrite ?Hd, ?(decide_True _ _ Hget)). done.
Qed.

(** Whatever [get] returns for a domain that has no entry, it is not an array. *)
Lemma get_miss_not_array d write w l :
  entries (domains (self w)) !! d = None →
  (get d write w).1 ≠ Normal (Some (Parsers l)).
Proof.
  intros Hd.
  destruct (decide ("has" ∈ props (domains (self w)))) as [|Hhas];
    [by rewrite get_shadowed by auto|].
  destruct (decide ("get" ∈ props (domains (self w)))) as [|Hget];
    [by rewrite get_shadowed by auto|].
  rewrite get_miss by done. by destruct (assign_false _ _).
Qed.

(** After [clearPlatform(P)] no domain that [P] owned resolves to an array,
    whichever other platforms had registered it. *)
Lemma clearPlatform_forgets_coowned pl P e d write w l :
  "delete" ∉ props (domains pl) → platforms pl !! P = Some e → d ∈ owned e →
  (get d write (set_self (clearPlatform P pl).2 w)).1 ≠ Normal (Some (Parsers l)).
Proof.
  intros Hdel He Hd.
  destruct (clearPlatform_known P e pl He Hdel) as (pl1 & -> & Hent & _).
  apply get_miss_not_array. cbn. rewrite Hent. by rewrite decide_True.
Qed.

(** C2. Platforms [Q] and [P] both register [d.example.com], and [P] alone
    registers [e.example.com]. After [clearPlatform("P")], [Q] is still
    registered, [get("e.example.com", false)] is [false], and so is
    [get("d.example.com", false)]: the candidate of [Q] went with the entry. *)
Theorem clearPlatform_loses_coowned_domain :
  let bP := mkBinding "/platforms/P/parser.js" "P" None None in
  let bQ := mkBinding "/platforms/Q/parser.js" "Q" None None in
  let pl := (adds [("d.example.com", bQ); ("d.example.com", bP); ("e.example.com", bP)]
               new_ParserList).2 in
  let w := set_self (clearPlatform "P" pl).2 (new_World (NoFile "ENOENT")) in
  entries (domains pl) !! "d.example.com" = Some (Parsers [bQ; bP]) ∧
  getFromPlatform "Q" (self w) = Some bQ ∧
  (get "e.example.com" (Some false) w).1 = Normal (Some JsFalse) ∧
  (get "d.example.com" (Some false) w).1 = Normal (Some JsFalse).
Proof. vm_compute. done. Qed.

(** C10, as amended. In a list whose [Map] methods are in place and in
    which two distinct platforms [P] and [Q] both own domain [d],
    [clearPlatform(P)] returns; afterwards the entry of [Q] is what it was,
    so it still owns [d], and the map has no entry for [d]. A following
    [add(d, parser)] for a parser of [Q] returns and appends nothing, but it
    does give [d] an entry, the empty array, and changes nothing else; then
    [get(d, false)] returns that empty array and leaves the world as it is. *)
Theorem stale_ownership_after_clearPlatform pl P Q d eP eQ bq w :
  intact (domains pl) →
  platforms pl !! P = Some eP → platforms pl !! Q = Some eQ → P ≠ Q →
  d ∈ owned eP → d ∈ owned eQ → platform bq = Q →
  ∃ pl1, clearPlatform P pl = (Normal tt, pl1) ∧
    platforms pl1 !! Q = Some eQ ∧
    entries (domains pl1) !! d = None ∧
    ∃ pl2, add d bq pl1 = (Normal tt, pl2) ∧
      entries (domains pl2) = <[d := Parsers []]> (entries (domains pl1)) ∧
      props (domains pl2) = props (domains pl1) ∧
      platforms pl2 = platforms pl1 ∧
      missQueue pl2 = missQueue pl1 ∧
      get d (Some false) (set_self pl2 w) = (Normal (Some (Parsers [])), set_self pl2 w).
Proof.
  intros Hi HP HQ Hne HdP HdQ Hbq.
  destruct (clearPlatform_known P eP pl HP (proj2 (proj2 (proj2 Hi))))
    as (pl1 & Hclear & Hent & Hprops & Hplat & Hq).
  assert (Hi1 : intact (domains pl1)) by (unfold intact; by rewrite Hprops).
  assert (HQ1 : platforms pl1 !! Q = Some eQ) by (rewrite Hplat, lookup_delete_ne; done).
  assert (Hd1 : entries (domains pl1) !! d = None) by (rewrite Hent, decide_True; done).
  exists pl1. split; [done|]. split; [done|]. split; [done|].
  eexists. split.
  - rewrite add_intact by done. unfold add_outcome. rewrite Hbq, HQ1, Hd1.
    rewrite (decide_False (P := is_Some (@None DomainVal))) by apply is_Some_None.
    rewrite (decide_True (P := is_Some (Some eQ))) by (by eexists). rewrite HQ1.
    rewrite decide_True by done. reflexivity.
  - cbn. repeat (split; [done|]).
    apply get_hit; cbn; [done|]. by rewrite lookup_insert_eq.
Qed.

Lemma stale_ownership_after_clearPlatform_witness :
  let bP := mkBinding "/platforms/P/parser.js" "P" None None in
  let bQ := mkBinding "/platforms/Q/parser.js" "Q" None None in
  let pl := (adds [("d.example.com", bP); ("d.example.com", bQ)] new_ParserList).2 in
  ∃ pl1, clearPlatform "P" pl = (Normal tt, pl1) ∧
    platforms pl1 !! "Q" = Some {| parser := bQ; owned := {["d.example.com"]} |} ∧
    entries (domains pl1) !! "d.example.com" = None ∧
    ∃ pl2, add "d.example.com" bQ pl1 = (Normal tt, pl2) ∧
      entries (domains pl2) = <["d.example.com" := Parsers []]> (entries (domains pl1)) ∧
      props (domains pl2) = props (domains pl1) ∧
      platforms pl2 = platforms pl1 ∧
      missQueue pl2 = missQueue pl1 ∧
      get "d.example.com" (Some false) (set_self pl2 (new_World (NoFile "ENOENT"))) =
        (Normal (Some (Parsers [])), set_self pl2 (new_World (NoFile "ENOENT"))).
Proof.
  intros bP bQ pl.
  apply (stale_ownership_after_clearPlatform pl "P" "Q" "d.example.com"
           {| parser := bP; owned := {["d.example.com"]} |}
           {| parser := bQ; owned := {["d.example.com"]} |} bQ).
  - repeat split; vm_compute; discriminate.
  - vm_compute. reflexivity.
  - vm_compute. reflexivity.
  - discriminate.
  - vm_compute. reflexivity.
  - vm_compute. reflexivity.
  - reflexivity.
Defined.

(** C10, as stated, fails: after [clearPlatform("P")] the call
    [add("d.example.com", parser of Q)] is not without effect. The number of
    domains goes from 0 to 1, and [get("d.example.com", false)], which was
    [false] before the call, is the empty array after it. *)
Lemma readd_after_clearPlatform_changes_registry :
  let bP := mkBinding "/platforms/P/parser.js" "P" None None in
  let bQ := mkBinding "/platforms/Q/parser.js" "Q" None None in
  let pl := (adds [("d.example.com", bP); ("d.example.com", bQ)] new_ParserList).2 in
  let pl1 := (clearPlatform "P" pl).2 in
  ¬ (add "d.example.com" bQ pl1 = (Normal tt, pl1)) ∧
  sizeOf "domains" pl1 = Some 0 ∧
  sizeOf "domains" (add "d.example.com" bQ pl1).2 = Some 1 ∧
  (get "d.example.com" (Some false) (set_self pl1 (new_World (NoFile "ENOENT")))).1
    = Normal (Some JsFalse) ∧
  (get "d.example.com" (Some false)
     (set_self (add "d.example.com" bQ pl1).2 (new_World (NoFile "ENOENT")))).1
    = Normal (Some (Parsers [])).
Proof.
  intros bP bQ pl pl1. split.
  - intros H. apply (f_equal (λ r, entries (domains r.2) !! "d.example.com")) in H.
    vm_compute in H. discriminate.
  - vm_compute. done.
Qed.

(** C3. On a new list, [get("unknown.example.com")] returns [false] and
    queues the domain once, but the map gets no entry for it; the second
    call returns [false] and queues the domain a second time, and once both
    appends are done the ledger holds the domain twice. *)
Theorem get_miss_not_cached :
  let d := "unknown.example.com" in
  let w0 := new_World (Content "domain") in
  let w1 := (get d None w0).2 in
  let w2 := (get d None w1).2 in
  (get d None w0).1 = Normal (Some JsFalse) ∧
  missQueue (self w1) = [d] ∧
  entries (domains (self w1)) !! d = None ∧
  (get d None w1).1 = Normal (Some JsFalse) ∧
  missQueue (self w2) = [d; d] ∧
  missFile (Ledger.run [Ledger.Settle 0 true; Ledger.Settle 0 true] w2) =
    Content ("domain" +:+ LF +:+ d +:+ LF +:+ d).
Proof. vm_compute. done. Qed.

(** ** The registry: [clearCachedParsers] *)

(** C9. Whatever platforms are registered and whatever is cached,
    [clearCachedParsers()] returns with the world unchanged: its loop has
    nothing to visit, and no parser is evicted from [require.cache]. *)
Theorem clearCachedParsers_evicts_nothing (w : World) :
  clearCachedParsers w = (Normal tt, w).
Proof. reflexivity. Qed.

(** ** The ledger queue *)

Import Ledger.

Lemma writeMiss_step d w :
  (writeMiss d w).2 =
    let w1 := set_self (set_missQueue (missQueue (self w) ++ [d]) (self w)) w in
    match missQueue (self w) with
    | [] => set_inflight (inflight w ++ [d]) w1
    | _ :: _ => w1
    end.
Proof.
  unfold writeMiss, on_self, drain. js_unfold. cbn.
  destruct (missQueue (self w)) as [|c [|c' q]]; cbn; try done.
Qed.

Lemma run_snoc tr e w : run (tr ++ [e]) w = step (run tr w) e.
Proof. unfold run. by rewrite fold_left_app. Qed.

Lemma step_one_writer w e : one_writer w → one_writer (step w e).
Proof.
  intros Hw. destruct e as [d|i ok]; cbn [step].
  - rewrite writeMiss_step. cbn zeta.
    destruct Hw as [Hi|(c & q & Hi & Hq)].
    + destruct (missQueue (self w)) as [|c q] eqn:Hq; cbn; [|by left].
      right. exists d, []. by rewrite Hi.
    + rewrite Hq. right. exists c, (q ++ [d]). cbn. by rewrite Hi.
  - unfold settle. destruct (inflight w !! i) as [cur|] eqn:Hi; [|done].
    destruct Hw as [Hw|(c & q & Hw & Hq)]; [by rewrite Hw in Hi|].
    rewrite Hw in Hi. destruct i as [|i]; [|done]. cbn in Hi. simplify_eq.
    destruct ok; cbn; rewrite Hw, Hq; cbn.
    + unfold drain. cbn. destruct q as [|c' q]; cbn; [by left|].
      right. by exists c', q.
    + by left.
Qed.

Lemma run_one_writer tr w : one_writer w → one_writer (run tr w).
Proof.
  revert w. induction tr as [|e tr IH]; intros w Hw; [done|].
  cbn. apply IH. by apply step_one_writer.
Qed.

Lemma one_writer_length w : one_writer w → length (inflight w) ≤ 1.
Proof. intros [->|(c & q & -> & _)]; cbn; lia. Qed.

Lemma appended_snoc f0 l d : appended f0 (l ++ [d]) = appendFile (LF +:+ d) (appended f0 l).
Proof. unfold appended. by rewrite fold_left_app. Qed.

Lemma enqueued_snoc tr e :
  enqueued (tr ++ [e]) = enqueued tr ++ match e with Call d => [d] | _ => [] end.
Proof. unfold enqueued. rewrite omap_app. by destruct e. Qed.

Lemma run_in_order w0 tr :
  quiet w0 → Forall succeeds tr → in_order (missFile w0) tr (run tr w0).
Proof.
  intros [Hq0 Hi0]. induction tr as [|e tr IH] using rev_ind; intros Hok.
  - exists []. cbn. by rewrite Hq0, Hi0.
  - apply Forall_app in Hok as [Hok He]. apply Forall_inv in He.
    destruct (IH Hok) as (written & Henq & Hfile & Hinf).
    unfold in_order. rewrite run_snoc, enqueued_snoc. set (w := run tr w0) in *.
    destruct e as [d|i ok]; cbn [step].
    + exists written. rewrite writeMiss_step. cbn zeta.
      destruct (missQueue (self w)) as [|c q] eqn:Hq; cbn.
      * rewrite Henq, Hinf. cbn. by rewrite !app_nil_r.
      * rewrite Henq, Hinf. cbn. by rewrite <-app_assoc.
    + unfold succeeds in He. subst ok. rewrite app_nil_r. unfold settle.
      destruct (inflight w !! i) as [cur|] eqn:Hi; [|by exists written].
      rewrite Hinf in Hi. destruct (missQueue (self w)) as [|c q] eqn:Hq; [done|].
      destruct i as [|i]; [|done]. cbn in Hi. simplify_eq.
      exists (written ++ [cur]). cbn. rewrite Hinf, Hq. cbn.
      unfold drain. cbn. destruct q as [|c' q]; cbn.
      * rewrite Henq, Hfile, appended_snoc, app_nil_r. done.
      * rewrite Henq, Hfile, appended_snoc, <-app_assoc. done.
Qed.

Lemma settle_head w c q :
  missQueue (self w) = c :: q → inflight w = [c] →
  missQueue (self (settle 0 true w)) = q ∧
  inflight (settle 0 true w) = take 1 q ∧
  missFile (settle 0 true w) = appendFile (LF +:+ c) (missFile w).
Proof.
  intros Hq Hi. unfold settle, drain. rewrite Hi. cbn. rewrite Hq. cbn.
  by destruct q.
Qed.

Lemma drain_in_order f0 tr w :
  in_order f0 tr w →
  let w' := run (replicate (length (missQueue (self w))) (Settle 0 true)) w in
  missFile w' = appended f0 (enqueued tr) ∧ quiet w'.
Proof.
  intros (written & Henq & Hfile & Hinf). cbn zeta. rewrite Henq. clear Henq.
  remember (missQueue (self w)) as q eqn:Hq.
  revert w written Hfile Hinf Hq. induction q as [|c q IH]; intros w written Hfile Hinf Hq.
  - cbn. rewrite app_nil_r. repeat split; [done|done|by rewrite Hinf].
  - destruct (settle_head w c q (eq_sym Hq) Hinf) as (Hq' & Hi' & Hf').
    cbn [length replicate run fold_left step].
    fold (run (replicate (length q) (Settle 0 true)) (settle 0 true w)).
    replace (written ++ c :: q) with ((written ++ [c]) ++ q) by (by rewrite <-app_assoc).
    apply IH; [|done|done]. by rewrite Hf', Hfile, appended_snoc.
Qed.

(** C8. Start with nothing queued and nothing being appended, and let
    callers enter [writeMiss] and pending appends complete, well or badly, in
    any order. At every moment at most one append is pending. A call adds
    its domain at the end of the queue and touches neither the file nor the
    pending append, except that the call that makes the queue one long
    starts the append of its own domain. If no append fails, the domains
    that left the queue are in the file, appended one by one in call order,
    the head of the queue is the one being appended, and once the pending
    appends have completed the file holds every queued domain exactly once,
    in call order, with nothing left queued or pending. *)
Theorem writeMiss_single_writer (w0 : World) (tr : list event) :
  quiet w0 →
  let w := run tr w0 in
  length (inflight w) ≤ 1 ∧
  (∀ d, let w' := step w (Call d) in
     missQueue (self w') = missQueue (self w) ++ [d] ∧
     missFile w' = missFile w ∧
     inflight w' = if decide (length (missQueue (self w')) = 1) then [d] else inflight w) ∧
  (Forall succeeds tr →
     (∃ written, enqueued tr = written ++ missQueue (self w) ∧
        missFile w = appended (missFile w0) written ∧
        inflight w = take 1 (missQueue (self w))) ∧
     let w' := run (replicate (length (missQueue (self w))) (Settle 0 true)) w in
     missFile w' = appended (missFile w0) (enqueued tr) ∧ quiet w').
Proof.
  intros Hq. cbn zeta.
  assert (Hone : one_writer (run tr w0)) by (apply run_one_writer; left; apply Hq).
  split; [by apply one_writer_length|]. split.
  - intros d. cbn [step]. rewrite writeMiss_step. cbn zeta.
    destruct (missQueue (self (run tr w0))) as [|c q] eqn:Hmq; cbn.
    + destruct Hone as [->|(c & q & _ & Hq')]; [done|]. by rewrite ?Hmq in Hq'.
    + rewrite decide_False; [done|]. rewrite length_app. cbn. lia.
  - intros Hok. pose proof (run_in_order w0 tr Hq Hok) as Hin. split; [exact Hin|].
    by apply drain_in_order.
Qed.

Lemma writeMiss_single_writer_witness :
  let w0 := new_World (Content "domain") in
  let tr := [Call "w.example.com"; Call "x.example.com"; Settle 0 true;
             Call "y.example.com"; Call "z.example.com"] in
  let w := run tr w0 in
  let w' := run (replicate (length (missQueue (self w))) (Settle 0 true)) w in
  missFile w' = appended (missFile w0) (enqueued tr) ∧ quiet w'.
Proof.
  intros w0 tr w.
  assert (Hq : quiet w0) by (split; reflexivity).
  assert (Hok : Forall succeeds tr) by (repeat constructor).
  exact (proj2 (proj2 (proj2 (writeMiss_single_writer w0 tr Hq)) Hok)).
Defined.

(** *** A miss is queued again at every [get] *)

Lemma writeMiss_missQueue d w :
  missQueue (self (writeMiss d w).2) = missQueue (self w) ++ [d].
Proof. rewrite writeMiss_step. cbn zeta. by destruct (missQueue (self w)). Qed.

Lemma assign_false_props m d :
  d ∉ ["has"; "get"; "set"; "delete"; "size"] → intact m →
  ∃ m', assign_false m d = Normal m' ∧ entries m' = entries m ∧ intact m'.
Proof.
  intros Hd Hi. unfold assign_false.
  destruct (decide (d ∈ props m)); [by exists m|].
  destruct (decide (d = "size")) as [->|_].
  { exfalso. apply Hd. do 4 right. by left. }
  destruct (decide (d = "__proto__")); [by exists m|].
  eexists. split; [done|]. split; [done|].
  destruct Hi as (H1 & H2 & H3 & H4). unfold intact. cbn.
  rewrite !elem_of_union, !elem_of_singleton.
  repeat split; intros [Heq|?]; try done; subst d; apply Hd.
  - by left.
  - right. by left.
  - do 2 right. by left.
  - do 3 right. by left.
Qed.

(** A miss leaves the domain as unknown to the map as it was, so every
    [get] of it queues it again. *)
Lemma get_miss_enqueues d w :
  intact (domains (self w)) → entries (domains (self w)) !! d = None →
  d ∉ ["has"; "get"; "set"; "delete"; "size"] →
  (get d None w).1 = Normal (Some JsFalse) ∧
  missQueue (self (get d None w).2) = missQueue (self w) ++ [d] ∧
  intact (domains (self (get d None w).2)) ∧
  entries (domains (self (get d None w).2)) !! d = None.
Proof.
  intros Hi Hnone Hd.
  destruct (assign_false_props (domains (self w)) d Hd Hi) as (m' & Hm' & Hent & Hi').
  rewrite get_miss by (done || apply Hi). rewrite Hm'. cbn zeta.
  rewrite bool_decide_eq_true_2 by done. cbn [fst snd].
  split; [done|]. rewrite writeMiss_missQueue.
  destruct (writeMiss_domains d (set_self (set_domains m' (self w)) w)) as [-> _].
  cbn. by rewrite Hent.
Qed.

Lemma get_twice_enqueues_twice d w :
  intact (domains (self w)) → entries (domains (self w)) !! d = None →
  d ∉ ["has"; "get"; "set"; "delete"; "size"] →
  missQueue (self (get d None (get d None w).2).2) = missQueue (self w) ++ [d; d].
Proof.
  intros Hi Hnone Hd.
  destruct (get_miss_enqueues d w Hi Hnone Hd) as (_ & Hq & Hi1 & Hnone1).
  destruct (get_miss_enqueues d _ Hi1 Hnone1 Hd) as (_ & Hq2 & _).
  rewrite Hq2, Hq, <-app_assoc. done.
Qed.

(** *** A failed append *)

(** Once the queue is not empty and no append is pending, nothing is ever
    appended again: calls only lengthen the queue. *)
Lemma stalled_forever w tr :
  inflight w = [] → missQueue (self w) ≠ [] →
  inflight (run tr w) = [] ∧
  missFile (run tr w) = missFile w ∧
  missQueue (self (run tr w)) = missQueue (self w) ++ enqueued tr.
Proof.
  revert w. induction tr as [|e tr IH]; intros w Hi Hq.
  - cbn. by rewrite app_nil_r.
  - cbn [run fold_left]. fold (run tr (step w e)). destruct e as [d|i ok]; cbn [step].
    + rewrite writeMiss_step. cbn zeta.
      destruct (missQueue (self w)) as [|c q] eqn:Hmq; [done|].
      destruct (IH (set_self (set_missQueue ((c :: q) ++ [d]) (self w)) w))
        as (Hi' & Hf' & Hq'); [done|done|].
      rewrite Hi', Hf', Hq'. cbn. by rewrite <-app_assoc.
    + unfold settle. rewrite Hi. cbn. by apply IH.
Qed.

(** C5. Two domains are queued and the append of the first one fails. The
    first domain leaves the queue and is not written, but the promise of
    [writeMiss] is rejected and the loop is left: the second domain stays
    queued with no append pending. A later call only lengthens the queue,
    and the file never gets the domains that wait. *)
Theorem failed_append_stalls_queue :
  let w := run [Call "x.example.com"; Call "y.example.com"; Settle 0 false]
             (new_World (Content "domain")) in
  let w' := run [Call "z.example.com"; Settle 0 true; Settle 0 true] w in
  missQueue (self w) = ["y.example.com"] ∧ inflight w = [] ∧ rejected w = 1 ∧
  missQueue (self w') = ["y.example.com"; "z.example.com"] ∧ inflight w' = [] ∧
  missFile w' = Content "domain".
Proof. vm_compute. done. Qed.

(** The callback variant keeps the head of the queue in flight whatever the
    outcome of an append, so it goes past a failed one. *)
Lemma callback_keeps_draining w0 tr :
  quiet w0 →
  inflight (Callback.run tr w0) = take 1 (missQueue (self (Callback.run tr w0))).
Proof.
  intros [Hq0 Hi0]. induction tr as [|e tr IH] using rev_ind.
  - cbn. by rewrite Hq0, Hi0.
  - unfold Callback.run in *. rewrite fold_left_app. cbn [fold_left].
    set (w := fold_left Callback.step tr w0) in *.
    destruct e as [d|i ok]; cbn [Callback.step].
    + unfold Callback.writeMiss, on_self, Callback.writeNextDomain. js_unfold. cbn.
      destruct (missQueue (self w)) as [|c [|c' q]] eqn:Hq; cbn; rewrite ?IH; done.
    + unfold Callback.settle.
      destruct (inflight w !! i) as [cur|] eqn:Hi; [|done].
      rewrite IH in Hi. destruct (missQueue (self w)) as [|c q] eqn:Hq; [done|].
      destruct i as [|i]; [|done]. unfold Callback.writeNextDomain.
      destruct ok; cbn; rewrite IH, Hq; cbn; by destruct q.
Qed.

Lemma callback_failed_append_continues :
  let w := Callback.run [Call "x.example.com"; Call "y.example.com"; Settle 0 false]
             (new_World (Content "domain")) in
  missQueue (self w) = ["y.example.com"] ∧ inflight w = ["y.example.com"] ∧
  rejected w = 0 ∧
  missFile (Callback.run [Settle 0 true] w) = Content ("domain" +:+ LF +:+ "y.example.com").
Proof. vm_compute. done. Qed.

(** ** Building the catalogue *)

Import Catalog.

(** *** [sort] with [byLowerCase] *)
Lemma sort_insert_perm {A} (cmp : A → A → Z) x l : sort_insert cmp x l ≡ₚ x :: l.
Proof.
  induction l as [|y l IH]; cbn; [done|].
  destruct (cmp x y <? 0)%Z; [done|]. rewrite IH. apply Permutation_swap.
Qed.

Lemma sort_from_perm {A} (cmp : A → A → Z) acc l :
  fold_left (λ acc x, sort_insert cmp x acc) l acc ≡ₚ l ++ acc.
Proof.
  revert acc. induction l as [|x l IH]; intros acc; cbn; [done|].
  rewrite IH, sort_insert_perm. by rewrite Permutation_middle.
Qed.

Lemma sort_perm {A} (cmp : A → A → Z) l : sort cmp l ≡ₚ l.
Proof. unfold sort. by rewrite sort_from_perm, app_nil_r. Qed.

Lemma gt_false_le a b : gt a b = false → String.le a b.
Proof.
  unfold gt, String.ltb, String.le, String.leb. rewrite (String.compare_antisym a b).
  by destruct (String.compare b a).
Qed.

Lemma gt_true_le a b : gt a b = true → String.le b a.
Proof.
  unfold gt, String.ltb, String.le, String.leb. by destruct (String.compare b a).
Qed.

#[local] Instance ci_le_trans : Transitive ci_le.
Proof. intros x y z. unfold ci_le. apply transitivity. Qed.

Lemma byLowerCase_neg x y : (byLowerCase x y <? 0)%Z = true → ci_le x y.
Proof.
  unfold byLowerCase, ci_le. destruct (gt _ _) eqn:Hgt; [done|]. intros _.
  by apply gt_false_le.
Qed.

Lemma byLowerCase_nonneg x y : (byLowerCase x y <? 0)%Z = false → ci_le y x.
Proof.
  unfold byLowerCase, ci_le. destruct (gt _ _) eqn:Hgt; [|done]. intros _.
  by apply gt_true_le.
Qed.

Lemma sort_insert_sorted x l :
  StronglySorted ci_le l → StronglySorted ci_le (sort_insert byLowerCase x l).
Proof.
  induction l as [|y l IH]; intros Hs; cbn.
  - repeat constructor.
  - apply StronglySorted_cons in Hs as [Hy Hs].
    destruct (byLowerCase x y <? 0)%Z eqn:Hc.
    + apply byLowerCase_neg in Hc. apply StronglySorted_cons. split.
      * constructor; [done|]. eapply Forall_impl; [exact Hy|].
        intros z Hz. by etrans.
      * by apply StronglySorted_cons.
    + apply byLowerCase_nonneg in Hc. apply StronglySorted_cons. split; [|by apply IH].
      rewrite (sort_insert_perm byLowerCase x l). by constructor.
Qed.

Lemma sort_sorted l : StronglySorted ci_le (sort byLowerCase l).
Proof.
  unfold sort. assert (Hnil : StronglySorted ci_le []) by constructor.
  revert Hnil. generalize (@nil string). induction l as [|x l IH]; intros acc Hacc; cbn.
  - done.
  - apply IH. by apply sort_insert_sorted.
Qed.

(** *** [filter] with [addMiss] *)
Lemma accepted_elem known l x : x ∈ accepted known l ↔ x ∈ l ∧ x ∉ known.
Proof.
  revert known. induction l as [|y l IH]; intros known; cbn.
  - split; [intros []%not_elem_of_nil|intros [[]%not_elem_of_nil _]].
  - destruct (decide (y ∈ known)) as [Hy|Hy].
    + rewrite IH, elem_of_cons. split; [intros [??]; auto|].
      intros [[->|?] ?]; done.
    + rewrite !elem_of_cons, IH, elem_of_union, elem_of_singleton. split.
      * intros [->|[? Hn]]; [auto|]. split; [by right|]. intros ?. apply Hn. by right.
      * intros [[->|?] Hn]; [by left|].
        destruct (decide (x = y)) as [->|Hne]; [by left|right].
        split; [done|]. intros [?|?]; done.
Qed.

Lemma accepted_NoDup known l : NoDup (accepted known l).
Proof.
  revert known. induction l as [|y l IH]; intros known; cbn; [constructor|].
  destruct (decide (y ∈ known)); [apply IH|]. constructor; [|apply IH].
  rewrite accepted_elem. intros [_ Hn]. apply Hn. apply elem_of_union. left.
  by apply elem_of_singleton.
Qed.

Lemma filterM_addMiss lines pl :
  "has" ∉ props (domains pl) → "set" ∉ props (domains pl) →
  ∃ pl', filterM addMiss lines pl = (Normal (accepted (dom (entries (domains pl))) lines), pl') ∧
    (∀ x, entries (domains pl') !! x =
            if decide (x ∈ accepted (dom (entries (domains pl))) lines)
            then Some JsFalse else entries (domains pl) !! x) ∧
    props (domains pl') = props (domains pl) ∧
    platforms pl' = platforms pl ∧ missQueue pl' = missQueue pl.
Proof.
  revert pl. induction lines as [|x l IH]; intros pl Hhas Hset.
  - exists pl. cbn. split; [done|]. split; [|done]. intros x.
    by rewrite decide_False by apply not_elem_of_nil.
  - cbn [filterM accepted]. unfold bind at 1. unfold addMiss at 1. js_unfold.
    rewrite (decide_False _ _ Hhas). cbn.
    destruct (decide (x ∈ dom (entries (domains pl)))) as [Hx|Hx].
    + rewrite bool_decide_eq_true_2 by (by apply elem_of_dom). cbn.
      destruct (IH pl Hhas Hset) as (pl' & Hrun & Hent & Hrest).
      exists pl'. unfold bind. rewrite Hrun. cbn. done.
    + rewrite bool_decide_eq_false_2 by (by rewrite <-elem_of_dom). cbn.
      rewrite (decide_False _ _ Hset). cbn.
      set (pl1 := {| domains := {| entries := <[x:=JsFalse]> (entries (domains pl));
                                   props := props (domains pl) |};
                     platforms := platforms pl; missQueue := missQueue pl |}).
      destruct (IH pl1 Hhas Hset) as (pl' & Hrun & Hent & Hrest).
      exists pl'. unfold bind. rewrite Hrun. cbn.
      rewrite dom_insert_L. split; [done|]. split; [|done].
      intros y. rewrite Hent. cbn. rewrite dom_insert_L.
      destruct (decide (y ∈ accepted ({[x]} ∪ dom (entries (domains pl))) l)) as [Hy|Hy].
      * rewrite decide_True; [done|by right].
      * destruct (decide (x = y)) as [->|Hne].
        -- rewrite lookup_insert_eq, decide_True; [done|by left].
        -- rewrite lookup_insert_ne by done. rewrite decide_False; [done|].
           intros [?|?]%elem_of_cons; done.
Qed.

(** *** The scan keeps the invariant of [add] *)
Lemma preserves_ret {S A} (I : S → Prop) (a : A) : preserves I (mret a : M S A).
Proof. by intros s. Qed.
Lemma preserves_throw {S A} (I : S → Prop) e : preserves I (throw e : M S A).
Proof. by intros s. Qed.
Lemma preserves_lift {S A} (I : S → Prop) (c : Completion A) : preserves I (lift c : M S A).
Proof. by intros s. Qed.
Lemma preserves_bind {S A B} (I : S → Prop) (m : M S A) (k : A → M S B) :
  preserves I m → (∀ a, preserves I (k a)) → preserves I (m ≫= k).
Proof.
  intros Hm Hk s Hs. unfold mbind, M_bind, bind. specialize (Hm s Hs).
  destruct (m s) as [[a|e] s']; cbn in *; [by apply Hk|done].
Qed.
Lemma preserves_forEach {S A} (I : S → Prop) (f : A → M S unit) l :
  (∀ x, preserves I (f x)) → preserves I (forEach f l).
Proof.
  intros Hf. induction l as [|x l IH]; [by intros s|].
  cbn [forEach]. apply (preserves_bind I (f x) (λ _, forEach f l)); auto.
Qed.
Lemma preserves_add d p : preserves Inv (add d p).
Proof. intros s Hs. rewrite add_Inv_eq by done. by apply add_ok_Inv. Qed.

Lemma addDomainsOf_Inv disk item : preserves Inv (addDomainsOf disk item).
Proof.
  unfold addDomainsOf.
  apply preserves_bind; [apply preserves_lift|]. intros m.
  destruct (negb (truthy (name m))); [apply preserves_ret|].
  destruct (_ && _); [apply preserves_ret|].
  apply preserves_bind; [apply preserves_lift|]. intros _.
  apply preserves_bind; [apply preserves_forEach; intros; apply preserves_add|]. intros _.
  destruct (negb (truthy (pkb_domains m))); [apply preserves_ret|].
  apply preserves_bind; [apply preserves_lift|]. intros files.
  destruct (Nat.eqb _ _); [apply preserves_ret|].
  apply preserves_bind; [apply preserves_lift|]. intros records.
  apply preserves_forEach. intros r.
  destruct (truthy _); [apply preserves_add|apply preserves_ret].
Qed.

Lemma scanPlatforms_Inv disk pl : Inv (scanPlatforms disk pl).2.
Proof.
  unfold scanPlatforms. unfold mbind at 1. unfold M_bind, bind at 1. cbn [modify].
  match goal with |- Inv (?m new_ParserList).2 => assert (Hp : preserves Inv m) end.
  { apply preserves_bind; [apply preserves_lift|]. intros items.
    apply preserves_forEach. intros [item entry]. cbn.
    destruct entry; [apply preserves_throw|apply preserves_ret|apply addDomainsOf_Inv]. }
  apply Hp, Inv_new.
Qed.

(** *** [split] and [join] *)
Lemma split_nonempty c s : split c s ≠ [].
Proof. destruct s as [|a s]; cbn; [done|]. destruct (Ascii.eqb a c); [done|]. by destruct (split c s). Qed.

Lemma split_no_sep c s : Forall (λ x, contains c x = false) (split c s).
Proof.
  induction s as [|a s IH]; cbn; [by repeat constructor|].
  destruct (Ascii.eqb a c) eqn:Hac; [by constructor|].
  destruct (split c s) as [|x xs]; [by repeat constructor; cbn; rewrite Hac|].
  apply Forall_cons in IH as [Hx Hxs]. constructor; [|done]. cbn. by rewrite Hac, Hx.
Qed.

Lemma append_nil_l s : "" +:+ s = s.
Proof. reflexivity. Qed.
Lemma append_cons a x s : String a x +:+ s = String a (x +:+ s).
Proof. reflexivity. Qed.

Lemma concat_cons2 sep x y l :
  String.concat sep (x :: y :: l) = x +:+ sep +:+ String.concat sep (y :: l).
Proof. reflexivity. Qed.

Lemma split_app_sep c x s :
  contains c x = false → split c (x +:+ String c s) = x :: split c s.
Proof.
  induction x as [|a x IH]; cbn [contains]; intros Hx.
  - rewrite append_nil_l. cbn. by rewrite Ascii.eqb_refl.
  - apply orb_false_elim in Hx as [Ha Hx]. rewrite append_cons. cbn [split].
    rewrite Ha, IH by done. done.
Qed.

Lemma split_no_sep_id c x : contains c x = false → split c x = [x].
Proof.
  induction x as [|a x IH]; cbn; intros Hx; [done|].
  apply orb_false_elim in Hx as [Ha Hx]. by rewrite Ha, IH.
Qed.

Lemma split_join c l :
  l ≠ [] → Forall (λ x, contains c x = false) l → split c (join (String c "") l) = l.
Proof.
  intros Hne Hl. induction Hl as [|x l Hx Hl IH]; [done|].
  destruct l as [|y l].
  - cbn. by apply split_no_sep_id.
  - unfold join in *. rewrite concat_cons2, append_cons, append_nil_l.
    rewrite split_app_sep by done. by rewrite IH.
Qed.

(** *** The ledger after [init] *)

(** Whatever its first line, a ledger that can be read is rewritten as the
    header followed by the sorted lines that [addMiss] accepted. *)
Lemma buildMissingDomains_result w text :
  "has" ∉ props (domains (self w)) → "set" ∉ props (domains (self w)) →
  ledger_text (missFile w) = Some text →
  ∃ w', buildMissingDomains w = (Normal tt, w') ∧
    missFile w' =
      Content ("domain" +:+ LF +:+
               join LF (sort byLowerCase
                          (accepted (dom (entries (domains (self w))))
                                    (tail (split "010" text))))) ∧
    platforms (self w') = platforms (self w) ∧
    inflight w' = inflight w.
Proof.
  intros Hhas Hset Htext. destruct w as [pl f i r mo c]. cbn [self missFile] in *.
  destruct (filterM_addMiss (tail (split "010" text)) pl Hhas Hset)
    as (pl' & Hrun & _ & _ & Hplat & _).
  assert (Hread :
    (match f with
     | Content text => (mret (Some text) : M World (option string))
     | NoFile code => if String.eqb code "ENOENT" then mret None else throw (SystemError code)
     end) = λ s, (Normal (if f is Content _ then Some text else None), s)).
  { destruct f as [code|t]; cbn in Htext.
    - by destruct (String.eqb code "ENOENT").
    - by simplify_eq. }
  assert (Hdef : default "" (if f is Content _ then Some text else None) = text).
  { destruct f as [code|t]; cbn in *; [|done].
    destruct (String.eqb code "ENOENT"); by simplify_eq. }
  exists {| self := pl';
            missFile := Content ("domain" +:+ LF +:+
               join LF (sort byLowerCase
                          (accepted (dom (entries (domains pl))) (tail (split "010" text)))));
            inflight := i; rejected := r; modules := mo; requireCache := c |}.
  split; [|done].
  unfold buildMissingDomains. unfold mbind, M_bind, bind, gets. cbn [missFile].
  rewrite Hread. cbn beta iota. rewrite Hdef.
  destruct (negb (String.eqb (trim (hd "" (split "010" text))) "domain"));
    unfold modify, mret, M_ret, ret, on_self, set_missFile, set_self;
    cbn [self missFile inflight rejected modules requireCache];
    rewrite Hrun; reflexivity.
Qed.

(** C6. When the scan of the platforms ends normally and the ledger file,
    text of the ASCII range, starts with the header line, [init()] ends
    normally and rewrites the file as the header, a line feed, and the kept
    lines joined by line feeds. The kept lines are exactly the lines after
    the header that no platform registered, each once, in ascending order of
    their lower-cased text; and when there is at least one, the lines of the
    new file are the header followed by the kept lines. *)
Theorem reconciliation_keeps_unregistered_sorted disk w pl text :
  scanPlatforms disk (self w) = (Normal tt, pl) →
  missFile w = Content text →
  ascii_text text →
  trim (hd "" (split "010" text)) = "domain" →
  ∃ kept w',
    init disk w = (Normal tt, w') ∧
    missFile w' = Content ("domain" +:+ LF +:+ join LF kept) ∧
    (∀ x, x ∈ kept ↔ x ∈ tail (split "010" text) ∧ entries (domains pl) !! x = None) ∧
    NoDup kept ∧
    StronglySorted ci_le kept ∧
    (kept ≠ [] → split "010" ("domain" +:+ LF +:+ join LF kept) = "domain" :: kept).
Proof.
  intros Hscan Hfile _ _.
  pose proof (scanPlatforms_Inv disk (self w)) as [(Hhas & _ & Hset & _) _ _].
  rewrite Hscan in Hhas, Hset. cbn [snd] in Hhas, Hset.
  destruct (buildMissingDomains_result (set_self pl w) text) as (w' & Hrun & Hres & _);
    [done|done|by cbn; rewrite Hfile|].
  cbn [self set_self] in Hres.
  set (rest := tail (split "010" text)) in *.
  set (kept := sort byLowerCase (accepted (dom (entries (domains pl))) rest)) in *.
  assert (Hperm : kept ≡ₚ accepted (dom (entries (domains pl))) rest) by apply sort_perm.
  assert (Helem : ∀ x, x ∈ kept ↔ x ∈ rest ∧ entries (domains pl) !! x = None).
  { intros x. rewrite Hperm, accepted_elem, not_elem_of_dom. done. }
  exists kept, w'. split; [|split; [done|split; [done|split; [|split]]]].
  - unfold init, mbind, M_bind, bind, on_self. rewrite Hscan. exact Hrun.
  - rewrite Hperm. apply accepted_NoDup.
  - apply sort_sorted.
  - intros Hne. destruct kept as [|y l] eqn:Hk; [done|].
    change ("domain" +:+ LF +:+ join LF (y :: l)) with (join LF ("domain" :: y :: l)).
    apply (split_join "010" ("domain" :: y :: l)); [done|].
    constructor; [done|]. apply Forall_forall. intros x Hx.
    apply Helem in Hx as [Hx _].
    pose proof (split_no_sep "010" text) as Hall.
    rewrite Forall_forall in Hall. apply Hall.
    unfold rest in Hx. destruct (split "010" text); [done|by right].
Qed.

Lemma reconciliation_keeps_unregistered_sorted_witness :
  let text := "domain" +:+ LF +:+ "a.example.com" +:+ LF +:+ "b.example.com" in
  let w := new_World (Content text) in
  let pl := (scanPlatforms disk_A (self w)).2 in
  ∃ kept w',
    init disk_A w = (Normal tt, w') ∧
    missFile w' = Content ("domain" +:+ LF +:+ join LF kept) ∧
    (∀ x, x ∈ kept ↔ x ∈ tail (split "010" text) ∧ entries (domains pl) !! x = None) ∧
    NoDup kept ∧
    StronglySorted ci_le kept ∧
    (kept ≠ [] → split "010" ("domain" +:+ LF +:+ join LF kept) = "domain" :: kept).
Proof.
  intros text w pl.
  apply (reconciliation_keeps_unregistered_sorted disk_A w pl text).
  - vm_compute. reflexivity.
  - reflexivity.
  - vm_compute. reflexivity.
  - vm_compute. reflexivity.
Defined.

(** The example of the specification: [a.example.com] is registered by
    [platformA], [b.example.com] by nobody. *)
Example reconciliation_example :
  let text := "domain" +:+ LF +:+ "a.example.com" +:+ LF +:+ "b.example.com" in
  (init disk_A (new_World (Content text))).1 = Normal tt ∧
  missFile (init disk_A (new_World (Content text))).2 =
    Content ("domain" +:+ LF +:+ "b.example.com") ∧
  split "010" ("domain" +:+ LF +:+ "b.example.com") = ["domain"; "b.example.com"].
Proof. vm_compute. done. Qed.

(** After [init] the ledger is never the header alone. *)
Lemma reconciliation_not_just_header w w' text :
  "has" ∉ props (domains (self w)) → "set" ∉ props (domains (self w)) →
  ledger_text (missFile w) = Some text →
  buildMissingDomains w = (Normal tt, w') →
  missFile w' ≠ Content "domain".
Proof.
  intros Hhas Hset Htext Hrun.
  destruct (buildMissingDomains_result w text Hhas Hset Htext) as (w1 & Hrun1 & Hres & _).
  rewrite Hrun in Hrun1. injection Hrun1 as <-. rewrite Hres.
  intros [=].
Qed.

(** C7. No platform is registered. A ledger whose first line is not the
    header and whose second line is [b.example.com] is not reset to the
    header: [init()] writes the header and then writes the file again, as the
    header followed by [b.example.com]. An empty or a missing ledger becomes
    the header followed by a line feed. *)
Theorem header_repair_writes_lines_back :
  let disk := {| platformsDir := "/ezpaarse/platforms"; listing := Normal [];
                 extract := λ _ _, Normal [] |} in
  let after f := init disk (new_World f) in
  (after (Content ("garbage" +:+ LF +:+ "b.example.com"))).1 = Normal tt ∧
  missFile (after (Content ("garbage" +:+ LF +:+ "b.example.com"))).2 =
    Content ("domain" +:+ LF +:+ "b.example.com") ∧
  missFile (after (Content "")).2 = Content ("domain" +:+ LF) ∧
  missFile (after (NoFile "ENOENT")).2 = Content ("domain" +:+ LF).
Proof. vm_compute. done. Qed.

(** *** A faulty platform ends [init] *)

Lemma forEach_throws {S A} (f : A → M S unit) l x :
  x ∈ l → (∀ s, ∃ e, (f x s).1 = Throw e) → ∀ s, ∃ e, (forEach f l s).1 = Throw e.
Proof.
  intros Hx Hf. induction l as [|a l IH]; intros s; [by apply not_elem_of_nil in Hx|].
  cbn [forEach]. unfold bind. apply elem_of_cons in Hx as [<-|Hx].
  - destruct (Hf s) as [e He]. destruct (f x s) as [[|e'] s']; cbn in *; [done|eauto].
  - destruct (f a s) as [[|e'] s']; cbn; [by apply IH|eauto].
Qed.

Lemma addDomainsOf_throws disk item pl :
  faulty disk item → ∃ e, (addDomainsOf disk item pl).1 = Throw e.
Proof.
  intros [[e He]|(m & Hm & Hname & Hdom & Hfault)]; unfold addDomainsOf, mbind, M_bind, bind, lift.
  - rewrite He. eauto.
  - rewrite Hm, Hname. cbn [negb].
    assert (Hguard : negb (bool_decide (is_Some (manifest_domains m)))
                     && negb (truthy (pkb_domains m)) = false).
    { destruct Hdom as [Hd| ->]; [|by rewrite andb_false_r].
      by rewrite bool_decide_eq_true_2. }
    rewrite Hguard. destruct Hfault as [[e He]|[Hpkb [e He]]].
    + rewrite He. eauto.
    + destruct (stat_parser disk item) as [[]|e']; [|eauto].
      match goal with |- context [forEach ?f ?l pl] =>
        destruct (forEach f l pl) as [[[]|e'] pl'] end; [|eauto].
      rewrite Hpkb. cbn [negb]. rewrite He. eauto.
Qed.

(** Whenever the listing has a visible directory that is faulty, [init]
    throws. *)
Lemma init_rejects_on_faulty_platform disk w items item dir :
  listing disk = Normal items → (item, Directory dir) ∈ items → visible item →
  faulty disk item →
  ∃ e, (init disk w).1 = Throw e.
Proof.
  intros Hl Hin Hvis Hf.
  assert (Hscan : ∃ e, (scanPlatforms disk (self w)).1 = Throw e).
  { unfold scanPlatforms, mbind, M_bind, bind, modify, lift. rewrite Hl.
    eapply (forEach_throws _ _ (item, Directory dir)).
    - apply list_elem_of_filter. done.
    - intros s. cbn. by apply addDomainsOf_throws. }
  destruct Hscan as [e He]. exists e.
  unfold init, mbind, M_bind, bind, on_self.
  destruct (scanPlatforms disk (self w)) as [[|e'] pl]; cbn in *; [done|by simplify_eq].
Qed.

(** C1. The platforms directory lists a faulty platform and then the
    well-formed [platformA]; the fault is an unparsable manifest, a missing
    [parser.js], or a missing [pkb] folder. In each case [init()] is
    rejected with the error of the faulty platform, the domain of
    [platformA] is not registered, and the ledger file is left as it was,
    the line of the now supported domain included. *)
Theorem init_aborts_on_faulty_platform :
  let w0 := new_World (Content ("domain" +:+ LF +:+ "a.example.com")) in
  let unparsable := {| manifest_json := Malformed; parser_js := true;
                       pkb := Throw (SystemError "ENOENT") |} in
  let fields := {| name := Some "faulty"; longname := None; publisher_name := None;
                   manifest_domains := Some ["f.example.com"];
                   pkb_domains := Some "domain" |} in
  let no_parser := {| manifest_json := Object fields; parser_js := false;
                      pkb := Normal [] |} in
  let no_pkb := {| manifest_json := Object fields; parser_js := true;
                   pkb := Throw (SystemError "ENOENT") |} in
  let outcome dir := init (disk_with dir) w0 in
  (outcome unparsable).1 = Throw SyntaxError ∧
  (outcome no_parser).1 = Throw (SystemError "ENOENT") ∧
  (outcome no_pkb).1 = Throw (SystemError "ENOENT") ∧
  (∀ dir, dir ∈ [unparsable; no_parser; no_pkb] →
     entries (domains (self (outcome dir).2)) !! "a.example.com" = None ∧
     missFile (outcome dir).2 = missFile w0).
Proof.
  cbn zeta. do 3 (split; [vm_compute; reflexivity|]).
  intros dir Hd. repeat (apply elem_of_cons in Hd as [->|Hd]);
    [| | |by apply not_elem_of_nil in Hd]; split; vm_compute; reflexivity.
Qed.

(** ** The callback variant of [clearCachedParsers] *)

Lemma try_continue_eq m w : try_continue m w = (Normal tt, (m w).2).
Proof. unfold try_continue. by destruct (m w) as [[[]|e] w']. Qed.

Lemma callback_evict_loop (parsers : gmap string ParserBinding) (l : list string) w :
  let body := λ p : string,
    match parsers !! p with
    | None => throw TypeError
    | Some b => try_continue (evict (file b))
    end in
  (∀ p, p ∈ l → is_Some (parsers !! p)) →
  (forEach body l w).1 = Normal tt ∧
  modules (forEach body l w).2 = modules w ∧
  requireCache (forEach body l w).2 ⊆ requireCache w ∧
  ∀ p b, p ∈ l → parsers !! p = Some b → file b ∈ modules w →
    file b ∉ requireCache (forEach body l w).2.
Proof.
  cbn zeta. revert w. induction l as [|a l IH]; intros w Hl.
  - cbn. repeat split; [done|]. intros p b []%not_elem_of_nil.
  - cbn [forEach]. unfold bind.
    destruct (Hl a) as [b Hb]; [by left|]. rewrite Hb, try_continue_eq.
    set (w1 := (evict (file b) w).2).
    assert (Hm : modules w1 = modules w ∧ requireCache w1 ⊆ requireCache w ∧
                 (file b ∈ modules w → file b ∉ requireCache w1)).
    { unfold w1, evict. destruct (decide (file b ∈ modules w)) as [Hin|Hin]; cbn.
      - split; [done|]. split; [by apply subseteq_difference_l|].
        intros _. apply not_elem_of_difference. right. by apply elem_of_singleton.
      - done. }
    destruct Hm as (Hmod & Hsub & Hev).
    destruct (IH w1) as (Hn & Hmod' & Hsub' & Hev'); [intros; apply Hl; by right|].
    split; [done|]. split; [by rewrite Hmod', Hmod|]. split; [by etrans|].
    intros p b' [->|Hp]%elem_of_cons Hb' Hin.
    + simplify_eq. intros Hc. apply (Hev Hin). by apply Hsub'.
    + apply (Hev' p b' Hp Hb'). by rewrite Hmod.
Qed.

(** The callback variant visits every platform: a parser whose file
    resolves is not cached afterwards. *)
Lemma for_in_Object_prototype seen : for_in_from seen [Object_prototype] = [].
Proof.
  cbn [for_in_from Object_prototype]. rewrite app_nil_r.
  repeat (rewrite filter_cons_False; [|by intros [[=] _]]). done.
Qed.

Lemma for_in_parsers_object parsers :
  for_in (Callback.parsers_object parsers) = elements (dom parsers).
Proof.
  unfold for_in, Callback.parsers_object.
  change (for_in_from [] [?t; Object_prototype])
    with ((fst <$> filter (λ kv : string * bool, kv.2 = true ∧ kv.1 ∉ []) t)
            ++ for_in_from ([] ++ (fst <$> t)) [Object_prototype]).
  rewrite for_in_Object_prototype, app_nil_r.
  induction (elements (dom parsers)) as [|k l IH]; [done|].
  cbn [fmap list_fmap]. rewrite filter_cons_True.
  - cbn. f_equal. exact IH.
  - split; [done|apply not_elem_of_nil].
Qed.

(** X16. [clearCachedParsers] of the callback variant ends normally, and
    afterwards no parser of [this.parsers] whose file can be resolved is in
    [require.cache]. *)
Lemma callback_clearCachedParsers_evicts parsers w p b :
  parsers !! p = Some b → file b ∈ modules w →
  (Callback.clearCachedParsers parsers w).1 = Normal tt ∧
  file b ∉ requireCache (Callback.clearCachedParsers parsers w).2.
Proof.
  intros Hp Hin. unfold Callback.clearCachedParsers. rewrite for_in_parsers_object.
  destruct (callback_evict_loop parsers (elements (dom parsers)) w)
    as (Hn & _ & _ & Hev).
  { intros q Hq. by apply elem_of_dom, elem_of_elements. }
  split; [exact Hn|]. apply (Hev p b); [|done|done].
  apply elem_of_elements, elem_of_dom. by eexists.
Qed.

(** * Further properties of the registry *)

(** ** [addMiss], [add] and [get] *)

Lemma addMiss_eq d pl :
  "has" ∉ props (domains pl) → "set" ∉ props (domains pl) →
  addMiss d pl =
    if decide (is_Some (entries (domains pl) !! d)) then (Normal false, pl)
    else (Normal true,
          set_domains {| entries := <[d := JsFalse]> (entries (domains pl));
                         props := props (domains pl) |} pl).
Proof.
  intros Hh Hs. unfold addMiss. js_unfold.
  rewrite (decide_False _ _ Hh).
  destruct (decide (is_Some (entries (domains pl) !! d))) as [Hk|Hk].
  - rewrite bool_decide_eq_true_2 by done. reflexivity.
  - rewrite bool_decide_eq_false_2 by done. cbn.
    rewrite (decide_False _ _ Hs). reflexivity.
Qed.

(** X1. On a list whose [Map] methods are in place, [addMiss(d)] returns
    [false] and changes nothing when the domain map has an entry for [d],
    whatever it holds. When it has none, [addMiss(d)] returns [true] and adds
    the entry [false], touching nothing else; from then on [addMiss(d)]
    returns [false], and [get(d, write)] returns [false] without writing to
    the ledger queue and without changing anything, for every [write]. *)
Theorem addMiss_marks_domain_once d write w :
  intact (domains (self w)) →
  (∀ v, entries (domains (self w)) !! d = Some v →
     addMiss d (self w) = (Normal false, self w)) ∧
  (entries (domains (self w)) !! d = None →
   ∃ pl, addMiss d (self w) = (Normal true, pl) ∧
     entries (domains pl) = <[d := JsFalse]> (entries (domains (self w))) ∧
     props (domains pl) = props (domains (self w)) ∧
     platforms pl = platforms (self w) ∧ missQueue pl = missQueue (self w) ∧
     addMiss d pl = (Normal false, pl) ∧
     get d write (set_self pl w) = (Normal (Some JsFalse), set_self pl w)).
Proof.
  intros Hi. pose proof Hi as (Hh & Hg & Hs & Hd). split.
  - intros v Hv. rewrite addMiss_eq by done.
    rewrite decide_True; [done | by rewrite Hv].
  - intros Hn. eexists. split.
    { rewrite addMiss_eq by done. rewrite decide_False; [reflexivity|].
      rewrite Hn. apply is_Some_None. }
    cbn. repeat split; try reflexivity.
    + rewrite addMiss_eq by done. cbn. rewrite lookup_insert_eq.
      rewrite decide_True by (by eexists). reflexivity.
    + apply get_hit; cbn; [done|]. apply lookup_insert_eq.
Qed.

Lemma addMiss_marks_domain_once_witness :
  let w := new_World (Content "domain") in
  let d := "x.example.com" in
  (∀ v, entries (domains (self w)) !! d = Some v →
     addMiss d (self w) = (Normal false, self w)) ∧
  (entries (domains (self w)) !! d = None →
   ∃ pl, addMiss d (self w) = (Normal true, pl) ∧
     entries (domains pl) = <[d := JsFalse]> (entries (domains (self w))) ∧
     props (domains pl) = props (domains (self w)) ∧
     platforms pl = platforms (self w) ∧ missQueue pl = missQueue (self w) ∧
     addMiss d pl = (Normal false, pl) ∧
     get d None (set_self pl w) = (Normal (Some JsFalse), set_self pl w)).
Proof.
  intros w d. apply (addMiss_marks_domain_once d None w).
  repeat split; vm_compute; discriminate.
Defined.

(** X2. A domain that [addMiss] marked (its entry is [false]) is not
    registered by a later [add(d, parser)]. The call throws a [TypeError],
    because [false] has no [push], unless the platform of the parser still
    lists [d] among its domains, as it can after the [clearPlatform] of
    another owner of [d]: then the call returns and does nothing. Either way
    the domain map and the queue are as before and [get] still answers
    [false]; but the platform of the parser, when it was unknown, has been
    entered in the platform table with no domain. *)
Theorem add_on_missed_domain_registers_nothing d p pl :
  intact (domains pl) → entries (domains pl) !! d = Some JsFalse →
  ∃ pl', add d p pl =
           (if decide (d ∈ owned_of pl (platform p)) then Normal tt else Throw TypeError,
            pl') ∧
    domains pl' = domains pl ∧ missQueue pl' = missQueue pl ∧
    platforms pl' =
      (if decide (is_Some (platforms pl !! platform p)) then platforms pl
       else <[platform p := {| parser := p; owned := ∅ |}]> (platforms pl)) ∧
    ∀ write w, get d write (set_self pl' w) = (Normal (Some JsFalse), set_self pl' w).
Proof.
  intros Hi Hd. rewrite add_intact by done. unfold add_outcome.
  rewrite (decide_True (P := is_Some (entries (domains pl) !! d))) by (by rewrite Hd).
  assert (Hdom : {| entries := entries (domains pl); props := props (domains pl) |} = domains pl)
    by (by destruct (domains pl)).
  unfold owned_of.
  destruct (decide (is_Some (platforms pl !! platform p))) as [[e He]|Hn].
  - rewrite He. destruct (decide (d ∈ owned e)) as [Ho|Ho].
    + eexists. split; [reflexivity|]. cbn. repeat split; try done.
      intros. rewrite Hdom. apply get_hit; cbn; done.
    + rewrite Hd. eexists. split; [reflexivity|]. cbn. repeat split; try done.
      intros. rewrite Hdom. apply get_hit; cbn; done.
  - rewrite lookup_insert_eq. cbn [owned].
    rewrite (decide_False (P := d ∈ (∅ : gset string))) by apply not_elem_of_empty.
    rewrite Hd. destruct (platforms pl !! platform p) as [e|] eqn:He.
    { exfalso. apply Hn. by eexists. }
    rewrite (decide_False (P := d ∈ (∅ : gset string))) by apply not_elem_of_empty.
    eexists. split; [reflexivity|]. cbn. repeat split; try done.
    intros. rewrite Hdom. apply get_hit; cbn; done.
Qed.

Lemma add_on_missed_domain_registers_nothing_witness :
  let d := "x.example.com" in
  let p := mkBinding "/platforms/p/parser.js" "p" None None in
  let q := mkBinding "/platforms/q/parser.js" "q" None None in
  let missed := (addMiss d new_ParserList).2 in
  let stale := (addMiss d (clearPlatform "q" (add d q (add d p new_ParserList).2).2).2).2 in
  (∃ pl', add d p missed = (Throw TypeError, pl') ∧
     domains pl' = domains missed ∧ missQueue pl' = missQueue missed ∧
     platforms pl' = <[platform p := {| parser := p; owned := ∅ |}]> (platforms missed) ∧
     ∀ write w, get d write (set_self pl' w) = (Normal (Some JsFalse), set_self pl' w)) ∧
  (∃ pl', add d p stale = (Normal tt, pl') ∧
     domains pl' = domains stale ∧ missQueue pl' = missQueue stale ∧
     platforms pl' = platforms stale ∧
     ∀ write w, get d write (set_self pl' w) = (Normal (Some JsFalse), set_self pl' w)).
Proof.
  intros d p q missed stale. split.
  - apply (add_on_missed_domain_registers_nothing d p missed).
    + repeat split; vm_compute; discriminate.
    + vm_compute. reflexivity.
  - apply (add_on_missed_domain_registers_nothing d p stale).
    + repeat split; vm_compute; discriminate.
    + vm_compute. reflexivity.
Defined.

(** X3. On a list that only [add] filled, [add(d, parser)] ends normally and
    [get(d, write)] then returns a candidate list with a parser of that
    platform, without queueing a ledger write and without changing anything.
    [add] leaves the entries of the other domains and the queue alone. *)
Theorem get_after_add d p write w :
  Inv (self w) →
  ∃ pl l, add d p (self w) = (Normal tt, pl) ∧ Inv pl ∧
    get d write (set_self pl w) = (Normal (Some (Parsers l)), set_self pl w) ∧
    platform p ∈ platform <$> l ∧
    (∀ d', d' ≠ d → entries (domains pl) !! d' = entries (domains (self w)) !! d') ∧
    missQueue pl = missQueue (self w).
Proof.
  intros HI. exists (add_ok d p (self w)).
  exists (cands (self w) d ++
          (if decide (platform p ∈ platform <$> cands (self w) d) then [] else [p])).
  split; [by apply add_Inv_eq|]. split; [by apply add_ok_Inv|].
  split; [|split; [|split]].
  - apply get_hit.
    + apply (inv_intact _ (add_ok_Inv d p _ HI)).
    + cbn. by rewrite lookup_insert_eq.
  - rewrite fmap_app. apply elem_of_app.
    destruct (decide (platform p ∈ platform <$> cands (self w) d)); [by left|right].
    cbn. apply list_elem_of_singleton. reflexivity.
  - intros d' Hne. cbn. by rewrite lookup_insert_ne.
  - reflexivity.
Qed.

Lemma get_after_add_witness :
  let d := "a.example.com" in
  let p := mkBinding "/platforms/p/parser.js" "p" None None in
  let w := new_World (Content "domain") in
  ∃ pl l, add d p (self w) = (Normal tt, pl) ∧ Inv pl ∧
    get d None (set_self pl w) = (Normal (Some (Parsers l)), set_self pl w) ∧
    platform p ∈ platform <$> l ∧
    (∀ d', d' ≠ d → entries (domains pl) !! d' = entries (domains (self w)) !! d') ∧
    missQueue pl = missQueue (self w).
Proof.
  intros d p w. apply (get_after_add d p None w). exact Inv_new.
Defined.

(** ** The platform table after a run of [add] *)

Lemma adds_cons c calls pl :
  Inv pl → adds (c :: calls) pl = adds calls (add_ok c.1 c.2 pl).
Proof.
  intros HI. unfold adds. cbn [forEach]. unfold bind.
  rewrite (add_Inv_eq _ _ _ HI). reflexivity.
Qed.

Lemma entry_of_add_ok d p pl b :
  platform b = platform p →
  parser (entry_of b (add_ok d p pl)) = parser (entry_of p pl).
Proof.
  intros Hb. unfold entry_of at 1. cbn [platforms add_ok]. rewrite Hb.
  rewrite lookup_insert_eq. reflexivity.
Qed.

Lemma entry_of_add_ok_ne d p pl b :
  platform b ≠ platform p → entry_of b (add_ok d p pl) = entry_of b pl.
Proof.
  intros Hb. unfold entry_of. cbn [platforms add_ok].
  rewrite lookup_insert_ne by done. reflexivity.
Qed.

Ltac gset_eq :=
  apply set_eq; intros ?; cbn;
  rewrite ?elem_of_union, ?elem_of_singleton, ?elem_of_empty; tauto.

Lemma adds_platforms calls : ∀ pl, Inv pl → ∀ n,
  platforms (adds calls pl).2 !! n =
    match calls_of n calls with
    | [] => platforms pl !! n
    | c :: cs => Some {| parser := parser (entry_of c.2 pl);
                         owned := list_to_set (fst <$> c :: cs) ∪ owned_of pl n |}
    end.
Proof.
  induction calls as [|c calls IH]; intros pl HI n; [reflexivity|].
  rewrite adds_cons by done.
  rewrite (IH _ (add_ok_Inv c.1 c.2 pl HI) n).
  unfold calls_of. destruct (decide (platform c.2 = n)) as [Hn|Hn].
  - rewrite filter_cons_True by exact Hn.
    destruct (filter _ calls) as [|c' cs] eqn:Hf.
    + cbn [platforms add_ok]. rewrite Hn, lookup_insert_eq. f_equal. f_equal.
      rewrite owned_entry_of, Hn. gset_eq.
    + assert (Hc' : platform c'.2 = n).
      { assert (Hin : c' ∈ filter (λ c0 : string * ParserBinding, platform c0.2 = n) calls)
          by (rewrite Hf; left).
        apply list_elem_of_filter in Hin. apply Hin. }
      f_equal. f_equal.
      * apply entry_of_add_ok. congruence.
      * unfold owned_of at 1. cbn [platforms add_ok]. rewrite Hn, lookup_insert_eq.
        cbn [owned]. rewrite owned_entry_of, Hn. gset_eq.
  - rewrite filter_cons_False by exact Hn.
    destruct (filter _ calls) as [|c' cs] eqn:Hf.
    + cbn [platforms add_ok]. rewrite lookup_insert_ne by done. reflexivity.
    + assert (Hc' : platform c'.2 = n).
      { assert (Hin : c' ∈ filter (λ c0 : string * ParserBinding, platform c0.2 = n) calls)
          by (rewrite Hf; left).
        apply list_elem_of_filter in Hin. apply Hin. }
      f_equal. f_equal.
      * rewrite entry_of_add_ok_ne by congruence. reflexivity.
      * unfold owned_of. cbn [platforms add_ok]. rewrite lookup_insert_ne by done.
        reflexivity.
Qed.

Lemma added_for_nil d calls : added_for d calls = [] ↔ d ∉ fst <$> calls.
Proof.
  unfold added_for. induction calls as [|[d' b] calls IH].
  - split; [intros _; apply not_elem_of_nil | done].
  - destruct (decide (d' = d)) as [->|Hne].
    + rewrite filter_cons_True by done. split; [done|].
      intros H. exfalso. apply H. left.
    + rewrite filter_cons_False by done. rewrite IH, fmap_cons, not_elem_of_cons.
      cbn. split; [intros H; split; [congruence|exact H] | intros [_ H]; exact H].
Qed.

(** X4. After any run of [add] calls on a new list: [getDomainsOf(n)] is
    [undefined] when no call passed a parser of platform [n]; otherwise it
    holds the parser of the first such call and exactly the domains of these
    calls, and [getFromPlatform(n)] is that first parser, later parser
    objects of the platform never replacing it. [sizeOf('platforms')] is the
    number of distinct platform names, [sizeOf('domains')] the number of
    distinct domains, and [sizeOf('parsers')] is [null]. *)
Theorem platform_table_after_adds (calls : list (string * ParserBinding)) :
  ∃ pl, adds calls new_ParserList = (Normal tt, pl) ∧
    (∀ n, getDomainsOf n pl =
            match calls_of n calls with
            | [] => None
            | c :: cs => Some {| parser := c.2; owned := list_to_set (fst <$> c :: cs) |}
            end) ∧
    (∀ n, getFromPlatform n pl = snd <$> head (calls_of n calls)) ∧
    sizeOf "platforms" pl = Some (size (list_to_set (platform ∘ snd <$> calls) : gset string)) ∧
    sizeOf "domains" pl = Some (size (list_to_set (fst <$> calls) : gset string)) ∧
    sizeOf "parsers" pl = None.
Proof.
  destruct (adds_from new_ParserList calls Inv_new) as (pl & Hrun & HI & Hent).
  exists pl. split; [done|].
  assert (Hpl : pl = (adds calls new_ParserList).2) by (by rewrite Hrun).
  assert (Htab : ∀ n, platforms pl !! n =
            match calls_of n calls with
            | [] => None
            | c :: cs => Some {| parser := c.2; owned := list_to_set (fst <$> c :: cs) |}
            end).
  { intros n. rewrite Hpl, (adds_platforms calls _ Inv_new n).
    destruct (calls_of n calls) as [|c cs]; [reflexivity|].
    unfold entry_of, owned_of. cbn [platforms new_ParserList].
    rewrite !lookup_empty. cbn. f_equal. f_equal. gset_eq. }
  split; [exact Htab|]. split; [|split; [|split]].
  - intros n. unfold getFromPlatform. rewrite Htab.
    destruct (calls_of n calls); reflexivity.
  - unfold sizeOf. cbn. f_equal. rewrite <- size_dom. f_equal.
    apply set_eq. intros n. rewrite elem_of_dom, Htab, elem_of_list_to_set.
    rewrite list_elem_of_fmap. unfold calls_of. split.
    + destruct (filter _ calls) as [|c cs] eqn:Hf; [intros [? [=]]|intros _].
      assert (Hin : c ∈ filter (λ c0 : string * ParserBinding, platform c0.2 = n) calls)
        by (rewrite Hf; left).
      apply list_elem_of_filter in Hin. exists c. split; [symmetry; apply Hin|apply Hin].
    + intros (c & Hn & Hin).
      assert (Hin' : c ∈ filter (λ c0 : string * ParserBinding, platform c0.2 = n) calls)
        by (apply list_elem_of_filter; split; [by symmetry|done]).
      destruct (filter _ calls); [by apply not_elem_of_nil in Hin'|by eexists].
  - unfold sizeOf. cbn. f_equal. rewrite <- size_dom. f_equal.
    apply set_eq. intros d. rewrite elem_of_dom, Hent, elem_of_list_to_set.
    cbn [entries domains new_ParserList new_Map]. rewrite lookup_empty.
    pose proof (added_for_nil d calls) as Hnil.
    destruct (added_for d calls) eqn:Ha.
    + split; [intros [? [=]]|]. intros Hin. exfalso. by apply Hnil.
    + split; [intros _|by eexists].
      destruct (decide (d ∈ fst <$> calls)) as [|Hn]; [done|].
      apply Hnil in Hn. done.
  - reflexivity.
Qed.

(** ** [clearPlatform] and reloading a platform *)

(** X5. When [delete] of the domain map is in place, [clearPlatform(P)] of a
    registered platform ends normally; afterwards [P] is unknown to
    [getFromPlatform] and [getDomainsOf], the number of platforms is one
    less, every domain [P] owned has no entry, every other entry and every
    other platform is as before, and a second [clearPlatform(P)] changes
    nothing. *)
Theorem clearPlatform_removes_platform P e pl :
  "delete" ∉ props (domains pl) → platforms pl !! P = Some e →
  ∃ pl1, clearPlatform P pl = (Normal tt, pl1) ∧
    getFromPlatform P pl1 = None ∧ getDomainsOf P pl1 = None ∧
    (∀ Q, Q ≠ P → getDomainsOf Q pl1 = getDomainsOf Q pl) ∧
    (∀ d, d ∈ owned e → entries (domains pl1) !! d = None) ∧
    (∀ d, d ∉ owned e → entries (domains pl1) !! d = entries (domains pl) !! d) ∧
    sizeOf "platforms" pl = S <$> sizeOf "platforms" pl1 ∧
    clearPlatform P pl1 = (Normal tt, pl1).
Proof.
  intros Hdel He.
  destruct (clearPlatform_known P e pl He Hdel) as (pl1 & Hrun & Hent & Hpr & Hps & Hq).
  exists pl1. split; [exact Hrun|].
  assert (Hnone : platforms pl1 !! P = None) by (rewrite Hps; apply lookup_delete_eq).
  unfold getFromPlatform, getDomainsOf. rewrite Hnone. repeat split.
  - intros Q HQ. rewrite Hps. by apply lookup_delete_ne.
  - intros d Hd. rewrite Hent. by rewrite (decide_True _ _ Hd).
  - intros d Hd. rewrite Hent. by rewrite (decide_False _ _ Hd).
  - change (Some (size (platforms pl)) = Some (S (size (platforms pl1)))).
    f_equal. rewrite Hps.
    transitivity (size (<[P := e]> (delete P (platforms pl)))).
    + by rewrite insert_delete_id.
    + by rewrite map_size_insert_None by apply lookup_delete_eq.
  - by apply clearPlatform_unknown.
Qed.

Lemma clearPlatform_removes_platform_witness :
  let bP := mkBinding "/platforms/P/parser.js" "P" None None in
  let pl := (adds [("d.example.com", bP); ("e.example.com", bP)] new_ParserList).2 in
  let e := {| parser := bP; owned := {["d.example.com"; "e.example.com"]} |} in
  ∃ pl1, clearPlatform "P" pl = (Normal tt, pl1) ∧
    getFromPlatform "P" pl1 = None ∧ getDomainsOf "P" pl1 = None ∧
    (∀ Q, Q ≠ "P" → getDomainsOf Q pl1 = getDomainsOf Q pl) ∧
    (∀ d, d ∈ owned e → entries (domains pl1) !! d = None) ∧
    (∀ d, d ∉ owned e → entries (domains pl1) !! d = entries (domains pl) !! d) ∧
    sizeOf "platforms" pl = S <$> sizeOf "platforms" pl1 ∧
    clearPlatform "P" pl1 = (Normal tt, pl1).
Proof.
  intros bP pl e. apply (clearPlatform_removes_platform "P" e pl).
  - vm_compute. discriminate.
  - vm_compute. reflexivity.
Defined.

(** X6. Reloading a platform: on a list that only [add] filled,
    [clearPlatform(P)] followed by [add(d, b)] with a parser [b] of [P] ends
    normally; [P] is registered again with [b] as its parser (the new object,
    not the one of before) and [d] as its only domain, and [b] is the last
    candidate of [d], after the candidates [d] kept: all of them when [P]
    did not own [d], none when it did. *)
Theorem reload_platform P e d b pl :
  Inv pl → platforms pl !! P = Some e → platform b = P →
  ∃ pl1 pl2, clearPlatform P pl = (Normal tt, pl1) ∧ add d b pl1 = (Normal tt, pl2) ∧
    getDomainsOf P pl2 = Some {| parser := b; owned := {[d]} |} ∧
    getFromPlatform P pl2 = Some b ∧
    cands pl2 d = (if decide (d ∈ owned e) then [] else cands pl d) ++ [b] ∧
    (∀ d', d' ≠ d → d' ∉ owned e →
       entries (domains pl2) !! d' = entries (domains pl) !! d').
Proof.
  intros HI He Hb. pose proof (inv_intact _ HI) as Hi.
  pose proof Hi as (Hh & Hg & Hs & Hdel).
  destruct (clearPlatform_known P e pl He Hdel) as (pl1 & Hrun & Hent & Hpr & Hps & Hq).
  assert (Hi1 : intact (domains pl1)) by (unfold intact; rewrite Hpr; exact Hi).
  assert (Hnone : platforms pl1 !! platform b = None)
    by (rewrite Hb, Hps; apply lookup_delete_eq).
  assert (Hval : ∃ l,
    (if decide (is_Some (entries (domains pl1) !! d)) then entries (domains pl1)
     else <[d := Parsers []]> (entries (domains pl1))) !! d = Some (Parsers l) ∧
    l = if decide (d ∈ owned e) then [] else cands pl d).
  { rewrite (Hent d). destruct (decide (d ∈ owned e)) as [Hin|Hin].
    - rewrite (decide_False (P := is_Some (@None DomainVal))) by apply is_Some_None.
      rewrite lookup_insert_eq. by eexists.
    - unfold cands. destruct (entries (domains pl) !! d) as [[|l]|] eqn:Hd.
      + by destruct (inv_arrays _ HI d).
      + rewrite decide_True by (by eexists). rewrite Hent, (decide_False _ _ Hin), Hd.
        by eexists.
      + rewrite (decide_False (P := is_Some (@None DomainVal))) by apply is_Some_None.
        rewrite lookup_insert_eq. by eexists. }
  destruct Hval as (l & Hl & Hleq).
  exists pl1. eexists. split; [exact Hrun|].
  rewrite (add_intact _ _ _ Hi1). unfold add_outcome.
  rewrite (decide_False (P := is_Some (platforms pl1 !! platform b)))
    by (rewrite Hnone; apply is_Some_None).
  rewrite lookup_insert_eq. cbn [owned parser].
  rewrite (decide_False (P := d ∈ (∅ : gset string))) by apply not_elem_of_empty.
  rewrite Hl.
  split; [reflexivity|].
  unfold getDomainsOf, getFromPlatform, cands. cbn [platforms domains entries].
  rewrite Hb, !lookup_insert_eq. cbn. repeat split.
  - f_equal. f_equal. apply set_eq. intros x.
    rewrite elem_of_union, elem_of_empty. tauto.
  - by rewrite Hleq.
  - intros d' Hne Hin. rewrite lookup_insert_ne by done.
    destruct (decide (is_Some (entries (domains pl1) !! d))).
    + rewrite Hent. by rewrite (decide_False _ _ Hin).
    + rewrite lookup_insert_ne by done. rewrite Hent. by rewrite (decide_False _ _ Hin).
Qed.

Lemma reload_platform_witness :
  let bP := mkBinding "/platforms/P/parser.js" "P" None None in
  let bP' := mkBinding "/platforms/P/parser.js" "P" (Some "Platform P") None in
  let d := "d.example.com" in
  let pl := (add d bP new_ParserList).2 in
  let e := {| parser := bP; owned := {[d]} |} in
  ∃ pl1 pl2, clearPlatform "P" pl = (Normal tt, pl1) ∧ add d bP' pl1 = (Normal tt, pl2) ∧
    getDomainsOf "P" pl2 = Some {| parser := bP'; owned := {[d]} |} ∧
    getFromPlatform "P" pl2 = Some bP' ∧
    cands pl2 d = (if decide (d ∈ owned e) then [] else cands pl d) ++ [bP'] ∧
    (∀ d', d' ≠ d → d' ∉ owned e →
       entries (domains pl2) !! d' = entries (domains pl) !! d').
Proof.
  intros bP bP' d pl e. apply (reload_platform "P" e d bP' pl).
  - apply (preserves_add d bP), Inv_new.
  - vm_compute. reflexivity.
  - reflexivity.
Defined.

(** ** [get] on a miss *)

Lemma assign_false_entries m d m' : assign_false m d = Normal m' → entries m' = entries m.
Proof.
  unfold assign_false. repeat case_decide; intros [=]; subst; reflexivity.
Qed.

(** X7. A miss: when the [Map] methods are in place and the map has no entry
    for [d] (and [d] is not ["size"]), [get(d, write)] returns [false]; it
    appends [d] to the ledger queue unless [write] is [false], in which case
    the queue and the pending appends are untouched; in both cases the
    ledger file, the platform table and the entries of the domain map are as
    before. *)
Theorem get_miss_write_flag d write w :
  intact (domains (self w)) → entries (domains (self w)) !! d = None → d ≠ "size" →
  let r := get d write w in
  r.1 = Normal (Some JsFalse) ∧
  missQueue (self r.2) =
    missQueue (self w) ++ (if bool_decide (write = Some false) then [] else [d]) ∧
  (write = Some false → inflight r.2 = inflight w) ∧
  missFile r.2 = missFile w ∧
  platforms (self r.2) = platforms (self w) ∧
  entries (domains (self r.2)) = entries (domains (self w)).
Proof.
  intros (Hh & Hg & _) Hd Hsize r. subst r. rewrite get_miss by done.
  destruct (assign_false (domains (self w)) d) as [m|err] eqn:Ha.
  2:{ unfold assign_false in Ha. repeat case_decide; done. }
  apply assign_false_entries in Ha. cbn [fst snd].
  destruct write as [[|]|].
  - rewrite bool_decide_eq_true_2 by done. rewrite bool_decide_eq_false_2 by done.
    rewrite writeMiss_missQueue.
    destruct (writeMiss_domains d (set_self (set_domains m (self w)) w)) as [-> ->].
    rewrite writeMiss_step. cbn. repeat split; try done.
    by destruct (missQueue (self w)).
  - rewrite bool_decide_eq_false_2 by (intros H; by apply H).
    rewrite bool_decide_eq_true_2 by done. cbn. rewrite app_nil_r. done.
  - rewrite bool_decide_eq_true_2 by done. rewrite bool_decide_eq_false_2 by done.
    rewrite writeMiss_missQueue.
    destruct (writeMiss_domains d (set_self (set_domains m (self w)) w)) as [-> ->].
    rewrite writeMiss_step. cbn. repeat split; try done.
    by destruct (missQueue (self w)).
Qed.

Lemma get_miss_write_flag_witness :
  let d := "unknown.example.com" in
  let w := new_World (Content "domain") in
  let r := get d (Some false) w in
  r.1 = Normal (Some JsFalse) ∧
  missQueue (self r.2) =
    missQueue (self w) ++ (if bool_decide (Some false = Some false) then [] else [d]) ∧
  (Some false = Some false → inflight r.2 = inflight w) ∧
  missFile r.2 = missFile w ∧
  platforms (self r.2) = platforms (self w) ∧
  entries (domains (self r.2)) = entries (domains (self w)).
Proof.
  intros d w. apply (get_miss_write_flag d (Some false) w).
  - repeat split; vm_compute; discriminate.
  - reflexivity.
  - discriminate.
Defined.

Lemma get_throws_shadowed d write w :
  "has" ∈ props (domains (self w)) ∨ "get" ∈ props (domains (self w)) →
  (get d write w).1 = Throw TypeError.
Proof.
  intros Hs. destruct w as [pl f i r mo c]. unfold get, on_self. js_unfold.
  cbn [self set_self] in *.
  destruct (decide ("has" ∈ props (domains pl))) as [|Hhas]; cbn; [done|].
  destruct Hs as [?|Hget]; [done|].
  destruct (bool_decide (is_Some (entries (domains pl) !! d))); cbn;
    rewrite (decide_True _ _ Hget); reflexivity.
Qed.

(** X8. A host named like a method of [Map]: when [get("has")] or [get("get")]
    misses, it returns [false] like any miss, but the assignment
    [this.domains[domain] = false] has hidden the method of that name. Every
    later [get], for every domain, throws a [TypeError]; after [get("has")]
    every [add] and [addMiss] does too. *)
Theorem get_of_method_name_breaks_registry name write w :
  intact (domains (self w)) → entries (domains (self w)) !! name = None →
  name ∈ ["has"; "get"] →
  let w1 := (get name write w).2 in
  (get name write w).1 = Normal (Some JsFalse) ∧
  (∀ d write', (get d write' w1).1 = Throw TypeError) ∧
  (name = "has" → ∀ d p, (add d p (self w1)).1 = Throw TypeError ∧
                         (addMiss d (self w1)).1 = Throw TypeError).
Proof.
  intros Hi Hn Hname w1. pose proof Hi as (Hh & Hg & _).
  assert (Hw1 : (get name write w).1 = Normal (Some JsFalse) ∧
                name ∈ props (domains (self w1))).
  { subst w1. rewrite get_miss by done. unfold assign_false.
    assert (Hnp : name ∉ props (domains (self w))).
    { intros Hin. apply elem_of_cons in Hname as [->|Hname]; [done|].
      apply list_elem_of_singleton in Hname as ->. done. }
    rewrite (decide_False _ _ Hnp).
    assert (Hns : name ≠ "size").
    { intros ->. apply elem_of_cons in Hname as [?|Hname]; [done|].
      by apply list_elem_of_singleton in Hname. }
    assert (Hnq : name ≠ "__proto__").
    { intros ->. apply elem_of_cons in Hname as [?|Hname]; [done|].
      by apply list_elem_of_singleton in Hname. }
    rewrite (decide_False _ _ Hns), (decide_False _ _ Hnq). cbn [fst snd].
    split; [done|].
    destruct (bool_decide (write ≠ Some false)).
    - match goal with |- context [Ledger.writeMiss name ?w0] =>
        destruct (writeMiss_domains name w0) as [-> _] end.
      cbn. apply elem_of_union_l, elem_of_singleton. reflexivity.
    - cbn. apply elem_of_union_l, elem_of_singleton. reflexivity. }
  destruct Hw1 as [Hres Hin]. split; [exact Hres|]. split.
  - intros d write'. apply get_throws_shadowed.
    apply elem_of_cons in Hname as [->|Hname]; [by left|].
    apply list_elem_of_singleton in Hname as ->. by right.
  - intros -> d p. split.
    + unfold add. js_unfold. rewrite (decide_True _ _ Hin). reflexivity.
    + unfold addMiss. js_unfold. rewrite (decide_True _ _ Hin). reflexivity.
Qed.

Lemma get_of_method_name_breaks_registry_witness :
  let w := new_World (Content "domain") in
  let w1 := (get "has" None w).2 in
  (get "has" None w).1 = Normal (Some JsFalse) ∧
  (∀ d write', (get d write' w1).1 = Throw TypeError) ∧
  ("has" = "has" → ∀ d p, (add d p (self w1)).1 = Throw TypeError ∧
                          (addMiss d (self w1)).1 = Throw TypeError).
Proof.
  intros w. apply (get_of_method_name_breaks_registry "has" None w).
  - repeat split; vm_compute; discriminate.
  - reflexivity.
  - left.
Defined.

(** X9. The domain ["size"]: a [Map] has the accessor [size] without a setter,
    so in strict mode the assignment of the miss path throws. Unless the map
    has an entry for ["size"], which [get] returns, [get("size")] throws a
    [TypeError] and leaves everything as it was: no ledger write is queued. *)
Theorem get_size_throws write w :
  "has" ∉ props (domains (self w)) → "get" ∉ props (domains (self w)) →
  "size" ∉ props (domains (self w)) →
  get "size" write w =
    match entries (domains (self w)) !! "size" with
    | Some v => (Normal (Some v), w)
    | None => (Throw TypeError, w)
    end.
Proof.
  intros Hh Hg Hs. destruct (entries (domains (self w)) !! "size") as [v|] eqn:Hv.
  - destruct w as [pl f i r mo c]. unfold get, on_self. js_unfold.
    cbn [self set_self] in *.
    rewrite (decide_False _ _ Hh). cbn. rewrite Hv.
    rewrite bool_decide_eq_true_2 by (by eexists). cbn.
    rewrite (decide_False _ _ Hg). cbn. by rewrite Hv.
  - rewrite get_miss by done. unfold assign_false.
    rewrite (decide_False _ _ Hs). rewrite decide_True by done. reflexivity.
Qed.

Lemma get_size_throws_witness :
  let w := new_World (Content "domain") in
  get "size" None w =
    match entries (domains (self w)) !! "size" with
    | Some v => (Normal (Some v), w)
    | None => (Throw TypeError, w)
    end.
Proof.
  intros w. apply (get_size_throws None w); vm_compute; discriminate.
Defined.

(** ** [init] *)

Lemma addDomainsOf_preserves (I : ParserList → Prop) disk item :
  (∀ d p, preserves I (add d p)) → preserves I (addDomainsOf disk item).
Proof.
  intros Hadd. unfold addDomainsOf.
  apply preserves_bind; [apply preserves_lift|]. intros m.
  destruct (negb (truthy (name m))); [apply preserves_ret|].
  destruct (_ && _); [apply preserves_ret|].
  apply preserves_bind; [apply preserves_lift|]. intros _.
  apply preserves_bind; [apply preserves_forEach; intros; apply Hadd|]. intros _.
  destruct (negb (truthy (pkb_domains m))); [apply preserves_ret|].
  apply preserves_bind; [apply preserves_lift|]. intros files.
  destruct (Nat.eqb _ _); [apply preserves_ret|].
  apply preserves_bind; [apply preserves_lift|]. intros records.
  apply preserves_forEach. intros r.
  destruct (truthy _); [apply Hadd|apply preserves_ret].
Qed.

Lemma scanPlatforms_preserves (I : ParserList → Prop) disk pl :
  (∀ d p, preserves I (add d p)) → I new_ParserList → I (scanPlatforms disk pl).2.
Proof.
  intros Hadd Hnew.
  unfold scanPlatforms. unfold mbind at 1. unfold M_bind, bind at 1. cbn [modify].
  match goal with |- I (?m new_ParserList).2 => assert (Hp : preserves I m) end.
  { apply preserves_bind; [apply preserves_lift|]. intros items.
    apply preserves_forEach. intros [item entry]. cbn.
    destruct entry; [apply preserves_throw|apply preserves_ret|
                     by apply addDomainsOf_preserves]. }
  apply Hp, Hnew.
Qed.

Lemma buildMissingDomains_self w :
  "has" ∉ props (domains (self w)) → "set" ∉ props (domains (self w)) →
  let w' := (buildMissingDomains w).2 in
  (∀ x v, entries (domains (self w)) !! x = Some v →
          entries (domains (self w')) !! x = Some v) ∧
  props (domains (self w')) = props (domains (self w)) ∧
  missQueue (self w') = missQueue (self w) ∧
  platforms (self w') = platforms (self w) ∧
  inflight w' = inflight w.
Proof.
  intros Hhas Hset. destruct w as [pl f i r mo c]. cbn [self missFile] in *.
  unfold buildMissingDomains. unfold mbind, M_bind, bind, gets. cbn [missFile].
  destruct f as [code|text].
  - destruct (String.eqb code "ENOENT"); [|done].
    unfold mret, M_ret, ret. cbn beta iota. cbn [default from_option]. unfold id.
    destruct (filterM_addMiss (tail (split "010" "")) pl Hhas Hset)
      as (pl' & Hrun & Hent & Hpr & Hplat & Hq).
    destruct (negb (String.eqb (trim (hd "" (split "010" ""))) "domain"));
      unfold modify, on_self, set_missFile, set_self;
      cbn [self missFile inflight rejected modules requireCache];
      rewrite Hrun; cbn; (split; [|done]);
      intros x v Hx; rewrite Hent; rewrite decide_False; [done| |done|];
      intros [_ Hn]%accepted_elem; apply Hn, elem_of_dom; by eexists.
  - unfold mret, M_ret, ret. cbn beta iota. cbn [default from_option]. unfold id.
    destruct (filterM_addMiss (tail (split "010" text)) pl Hhas Hset)
      as (pl' & Hrun & Hent & Hpr & Hplat & Hq).
    destruct (negb (String.eqb (trim (hd "" (split "010" text))) "domain"));
      unfold modify, on_self, set_missFile, set_self;
      cbn [self missFile inflight rejected modules requireCache];
      rewrite Hrun; cbn; (split; [|done]);
      intros x v Hx; rewrite Hent; rewrite decide_False; [done| |done|];
      intros [_ Hn]%accepted_elem; apply Hn, elem_of_dom; by eexists.
Qed.

Lemma init_eq disk w :
  init disk w =
    match scanPlatforms disk (self w) with
    | (Normal _, pl) => buildMissingDomains (set_self pl w)
    | (Throw e, pl) => (Throw e, set_self pl w)
    end.
Proof.
  unfold init, mbind, M_bind, bind, on_self.
  by destruct (scanPlatforms disk (self w)) as [[[]|e] pl].
Qed.

Lemma preserves_add_queue d p : preserves (λ s, Inv s ∧ missQueue s = []) (add d p).
Proof.
  intros s [HI Hq]. rewrite (add_Inv_eq _ _ _ HI). split; [by apply add_ok_Inv|exact Hq].
Qed.

(** X11. However [init] ends, it leaves the ledger queue empty and the pending
    appends as they were. So a miss right after [init] finds a queue of
    length one and starts an append of its own, next to those that were
    pending before [init]: the reset of the queue is not coordinated with a
    drain in progress. *)
Theorem init_forgets_pending_append disk w :
  let w' := (init disk w).2 in
  missQueue (self w') = [] ∧ inflight w' = inflight w ∧
  ∀ d, inflight (step w' (Call d)) = inflight w ++ [d] ∧
       missQueue (self (step w' (Call d))) = [d].
Proof.
  intros w'.
  assert (Hscan : Inv (scanPlatforms disk (self w)).2 ∧
                  missQueue (scanPlatforms disk (self w)).2 = []).
  { apply (scanPlatforms_preserves (λ s, Inv s ∧ missQueue s = []));
      [apply preserves_add_queue|]. split; [apply Inv_new|done]. }
  assert (H : missQueue (self w') = [] ∧ inflight w' = inflight w).
  { subst w'. rewrite init_eq.
    destruct (scanPlatforms disk (self w)) as [[[]|e] pl]; cbn [snd] in *.
    - destruct Hscan as [HI Hq]. destruct (inv_intact _ HI) as (Hh & _ & Hs & _).
      destruct (buildMissingDomains_self (set_self pl w)) as (_ & _ & Hq' & _ & Hi'); [done..|].
      rewrite Hq', Hi'. done.
    - destruct Hscan as [_ Hq]. done. }
  destruct H as [Hq Hi]. split; [exact Hq|]. split; [exact Hi|].
  intros d. cbn [step]. rewrite writeMiss_step, Hq, Hi. cbn. done.
Qed.










Lemma forEach_ext {S A} (f g : A → M S unit) l :
  (∀ x s, x ∈ l → f x s = g x s) → ∀ s, forEach f l s = forEach g l s.
Proof.
  induction l as [|x l IH]; intros H s; [done|].
  cbn [forEach]. unfold bind. rewrite H by left.
  destruct (g x s) as [[[]|e] s1]; [|done]. apply IH. intros. apply H. by right.
Qed.

Lemma entry_named_visible item l :
  visible item →
  entry_named item (filter (λ i : string * DirEntry, visible i.1) l) = entry_named item l.
Proof.
  intros Hv. induction l as [|[n e] l IH]; [done|].
  destruct (decide (visible n)) as [Hn|Hn].
  - rewrite filter_cons_True by exact Hn. cbn. by rewrite IH.
  - rewrite filter_cons_False by exact Hn. cbn.
    destruct (String.eqb_spec n item) as [->|]; [done|exact IH].
Qed.

Lemma find_dir_visible disk item :
  visible item → find_dir (without_hidden disk) item = find_dir disk item.
Proof.
  intros Hv. unfold find_dir, without_hidden. cbn [listing].
  destruct (listing disk); [by apply entry_named_visible|done].
Qed.

Lemma addDomainsOf_visible disk item s :
  visible item → addDomainsOf (without_hidden disk) item s = addDomainsOf disk item s.
Proof.
  intros Hv. unfold addDomainsOf, read_manifest, stat_parser, readdir_pkb.
  rewrite (find_dir_visible disk item Hv). reflexivity.
Qed.

(** X13. [init] never looks at an item whose name starts with a dot, nor at
    [js-parser-skeleton]: with or without these items in the platforms
    directory, whatever they hold, [init] gives the same result and the same
    state. *)
Theorem init_ignores_hidden_items disk w :
  init (without_hidden disk) w = init disk w.
Proof.
  unfold init. unfold mbind, M_bind, bind, on_self.
  assert (Hscan : scanPlatforms (without_hidden disk) (self w) = scanPlatforms disk (self w)).
  { unfold scanPlatforms. unfold mbind, M_bind, bind, modify, lift. cbn [listing without_hidden].
    destruct (listing disk) as [items|e]; [|done]. cbn beta iota.
    rewrite list_filter_filter.
    erewrite (list_filter_iff _ (λ i : string * DirEntry,
      negb (String.prefix "." i.1) && negb (String.eqb i.1 "js-parser-skeleton") = true));
      [|unfold visible; tauto].
    apply forEach_ext. intros [item e] s Hin. cbn.
    destruct e; [done|done|].
    apply addDomainsOf_visible.
    apply list_elem_of_filter in Hin. apply Hin. }
  rewrite Hscan. reflexivity.
Qed.

Lemma match_pkb_pattern s :
  match_all pkb_pattern s = true ↔ dated_name s ∧ length s = 15.
Proof.
  split.
  - intros H. unfold pkb_pattern in H.
    do 15 (destruct s as [|? s];
           [cbn [match_all] in H; by repeat (apply andb_prop in H as [_ H])|]).
    destruct s; [|cbn [match_all] in H; by repeat (apply andb_prop in H as [_ H])].
    cbn [match_all] in H. repeat (apply andb_prop in H as [? H]).
    repeat match goal with
           | Hc : Ascii.eqb _ _ = true |- _ => apply Ascii.eqb_eq in Hc; subst
           end.
    split; [|reflexivity].
    exists [], [a0; a1; a2; a3], [a5; a6], [a8; a9]. cbn.
    split; [reflexivity|]. repeat split; try reflexivity.
    repeat constructor; assumption.
  - intros [(pre & y & m & d & -> & Hy & Hm & Hd & Hdig) Hlen].
    do 5 (destruct y as [|? y]; try discriminate Hy).
    do 3 (destruct m as [|? m]; try discriminate Hm).
    do 3 (destruct d as [|? d]; try discriminate Hd).
    rewrite length_app in Hlen. cbn in Hlen.
    destruct pre; [|cbn in Hlen; lia].
    cbn in Hdig. repeat (apply Forall_cons in Hdig as [? Hdig]).
    unfold pkb_pattern. cbn [match_all app]. rewrite !Ascii.eqb_refl.
    repeat match goal with Hc : is_digit _ = true |- _ => rewrite Hc; clear Hc end.
    reflexivity.
Qed.

(** X14. The files of a [pkb] folder that [addDomainsOf] reads are exactly
    those whose name ends with an underscore, four digits, a dash, two
    digits, a dash, two digits and [.txt]. *)
Theorem is_pkb_file_dated f :
  is_pkb_file f = true ↔ dated_name (String.list_ascii_of_string f).
Proof.
  unfold is_pkb_file. set (cs := String.list_ascii_of_string f). clearbody cs.
  rewrite match_pkb_pattern. split.
  - intros [(pre & y & m & d & Heq & Hy & Hm & Hd & Hdig) Hlen].
    exists (take (length cs - 15) cs ++ pre), y, m, d.
    split; [|done]. rewrite <- (app_assoc _ pre), <- Heq. by rewrite take_drop.
  - intros (pre & y & m & d & -> & Hy & Hm & Hd & Hdig).
    assert (Hlen : length (pre ++ ["_"%char] ++ y ++ ["-"%char] ++ m ++ ["-"%char] ++ d
                     ++ ["."%char; "t"%char; "x"%char; "t"%char]) = length pre + 15).
    { rewrite !length_app. cbn. lia. }
    rewrite Hlen. replace (length pre + 15 - 15) with (length pre) by lia.
    rewrite drop_app_length. split.
    + exists [], y, m, d. done.
    + rewrite !length_app. cbn. lia.
Qed.

(** X23. Whatever the ledger file was before (missing, empty, without a
    header, or well formed), its text being of the ASCII range: when [init]
    ends normally the file exists and its first line is [domain], so that
    the next [init] finds the header. The lines after it are sorted by
    lower-cased text and pairwise distinct, each is stored as [false] in the
    domain map, and the pending appends are as they were. *)
Theorem init_leaves_ledger_with_header disk w w' :
  ascii_ledger (missFile w) →
  init disk w = (Normal tt, w') →
  ∃ kept, missFile w' = Content ("domain" +:+ LF +:+ join LF kept) ∧
    hd "" (split "010" ("domain" +:+ LF +:+ join LF kept)) = "domain" ∧
    StronglySorted ci_le kept ∧ NoDup kept ∧
    (∀ x, x ∈ kept → entries (domains (self w')) !! x = Some JsFalse) ∧
    inflight w' = inflight w.
Proof.
  intros _ Hinit.
  assert (Heq : init disk w =
    match scanPlatforms disk (self w) with
    | (Normal _, pl) => buildMissingDomains (set_self pl w)
    | (Throw e, pl) => (Throw e, set_self pl w)
    end).
  { unfold init, mbind, M_bind, bind, on_self.
    by destruct (scanPlatforms disk (self w)) as [[[]|e] pl]. }
  rewrite Heq in Hinit. clear Heq.
  pose proof (scanPlatforms_Inv disk (self w)) as HI.
  destruct (scanPlatforms disk (self w)) as [[[]|e] pl]; [|done]. cbn [snd] in HI.
  destruct (inv_intact _ HI) as (Hh & _ & Hs & _).
  destruct (ledger_text (missFile w)) as [text|] eqn:Htext.
  2:{ exfalso. unfold buildMissingDomains in Hinit.
      unfold mbind, M_bind, bind, gets in Hinit. cbn [missFile set_self] in Hinit.
      destruct (missFile w) as [code|t]; [|done]. cbn in Htext.
      destruct (String.eqb code "ENOENT"); done. }
  set (lines := tail (split "010" text)).
  set (kept := sort byLowerCase (accepted (dom (entries (domains pl))) lines)).
  assert (Hrun : ∃ pl', filterM addMiss lines pl
            = (Normal (accepted (dom (entries (domains pl))) lines), pl') ∧
          (∀ x, entries (domains pl') !! x =
                  if decide (x ∈ accepted (dom (entries (domains pl))) lines)
                  then Some JsFalse else entries (domains pl) !! x) ∧
          w' = {| self := pl'; missFile := Content ("domain" +:+ LF +:+ join LF kept);
                  inflight := inflight w; rejected := rejected w; modules := modules w;
                  requireCache := requireCache w |}).
  { destruct (filterM_addMiss lines pl Hh Hs) as (pl' & Hrun & Hent & _).
    exists pl'. split; [exact Hrun|]. split; [exact Hent|].
    unfold buildMissingDomains in Hinit.
    unfold mbind, M_bind, bind, gets in Hinit. cbn [missFile set_self] in Hinit.
    assert (Hdef : ∀ o : option string,
              (match missFile w with
               | Content t => Some t
               | NoFile _ => None
               end) = o → default "" o = text).
    { intros o <-. destruct (missFile w) as [code|t]; cbn in *.
      - destruct (String.eqb code "ENOENT"); by simplify_eq.
      - by simplify_eq. }
    destruct (missFile w) as [code|t] eqn:Hf.
    - cbn in Htext. destruct (String.eqb code "ENOENT"); [|done].
      injection Htext as <-. unfold mret, M_ret, ret in Hinit. cbn beta iota in Hinit.
      cbn [default from_option] in Hinit. fold lines in Hinit.
      destruct (negb (String.eqb (trim (hd "" (split "010" ""))) "domain"));
        unfold modify, on_self, set_missFile, set_self in Hinit;
        cbn [self missFile inflight rejected modules requireCache] in Hinit;
        rewrite Hrun in Hinit; by injection Hinit as <-.
    - cbn in Htext. injection Htext as <-. unfold mret, M_ret, ret in Hinit.
      cbn beta iota in Hinit. cbn [default from_option] in Hinit. unfold id in Hinit.
      fold lines in Hinit.
      destruct (negb (String.eqb (trim (hd "" (split "010" t))) "domain"));
        unfold modify, on_self, set_missFile, set_self in Hinit;
        cbn [self missFile inflight rejected modules requireCache] in Hinit;
        rewrite Hrun in Hinit; by injection Hinit as <-. }
  destruct Hrun as (pl' & _ & Hent & ->). exists kept. cbn [missFile self inflight].
  split; [reflexivity|]. split; [|split; [|split; [|split]]].
  - replace ("domain" +:+ LF +:+ join LF kept)
      with ("domain" +:+ String "010" (join LF kept)) by reflexivity.
    by rewrite split_app_sep.
  - apply sort_sorted.
  - unfold kept. rewrite sort_perm. apply accepted_NoDup.
  - intros x Hx. rewrite Hent. rewrite decide_True; [done|].
    unfold kept in Hx. by rewrite sort_perm in Hx.
  - reflexivity.
Qed.

Lemma init_leaves_ledger_with_header_witness :
  let w := new_World (Content ("b.example.com" +:+ LF +:+ "C.example.com" +:+ LF
                               +:+ "a.example.com" +:+ LF +:+ "c.example.com")) in
  ∃ kept, missFile (init disk_A w).2 = Content ("domain" +:+ LF +:+ join LF kept) ∧
    hd "" (split "010" ("domain" +:+ LF +:+ join LF kept)) = "domain" ∧
    StronglySorted ci_le kept ∧ NoDup kept ∧
    (∀ x, x ∈ kept → entries (domains (self (init disk_A w).2)) !! x = Some JsFalse) ∧
    inflight (init disk_A w).2 = inflight w.
Proof.
  intros w. apply (init_leaves_ledger_with_header disk_A w (init disk_A w).2).
  - vm_compute. reflexivity.
  - vm_compute. reflexivity.
Defined.

(** * Further properties of the callback variant *)

(** ** The queue *)

(** X15. The queue of the callback variant always drains. In any state reached
    from a quiet one, once as many appends have completed as domains are
    queued, well or badly, the queue is empty and nothing is pending; the
    ledger has received, in order, the queued domains whose append succeeded;
    and no failure was reported to anybody. *)
Theorem callback_queue_always_drains w0 tr oks :
  quiet w0 →
  let w := Callback.run tr w0 in
  length oks = length (missQueue (self w)) →
  let w' := Callback.run (Settle 0 <$> oks) w in
  quiet w' ∧
  missFile w' =
    appended (missFile w) (fst <$> filter (λ x, x.2 = true) (zip (missQueue (self w)) oks)) ∧
  rejected w' = rejected w0.
Proof.
  intros Hq w Hlen.
  assert (Hinv : inflight w = take 1 (missQueue (self w)))
    by (by apply callback_keeps_draining).
  assert (Hrej : rejected w = rejected w0).
  { subst w. clear. induction tr as [|e tr IH] using rev_ind; [done|].
    unfold Callback.run in *. rewrite fold_left_app. cbn [fold_left].
    set (w := fold_left Callback.step tr w0) in *.
    destruct e as [d|i ok]; cbn [Callback.step].
    - unfold Callback.writeMiss, on_self, Callback.writeNextDomain. js_unfold. cbn.
      destruct (missQueue (self w)) as [|c [|c' q]]; cbn; done.
    - unfold Callback.settle. destruct (inflight w !! i); [|done].
      unfold Callback.writeNextDomain.
      destruct ok; cbn; destruct (tail (missQueue (self w))); done. }
  rewrite <- Hrej. clearbody w. clear Hq Hrej tr w0.
  revert w Hlen Hinv. induction oks as [|ok oks IH]; intros w Hlen Hinv.
  - cbn in *. destruct (missQueue (self w)) eqn:Hq; [|done].
    split; [|done]. split; [done|]. by rewrite Hinv.
  - destruct (missQueue (self w)) as [|c q] eqn:Hq; [done|].
    cbn [fmap list_fmap]. unfold Callback.run in *. cbn [fold_left Callback.step].
    assert (Hstep : missQueue (self (Callback.settle 0 ok w)) = q ∧
                    inflight (Callback.settle 0 ok w) = take 1 q ∧
                    rejected (Callback.settle 0 ok w) = rejected w ∧
                    missFile (Callback.settle 0 ok w) =
                      if ok then appendFile (LF +:+ c) (missFile w) else missFile w).
    { unfold Callback.settle. rewrite Hinv. cbn. unfold Callback.writeNextDomain.
      destruct ok; cbn; rewrite Hq; cbn; destruct q; done. }
    destruct Hstep as (Hq' & Hi' & Hr' & Hf').
    destruct (IH (Callback.settle 0 ok w)) as (IH1 & IH2 & IH3).
    + rewrite Hq'. cbn in Hlen. lia.
    + by rewrite Hq'.
    + split; [exact IH1|]. split; [|by rewrite IH3].
      rewrite IH2, Hq', Hf'. cbn [zip zip_with].
      destruct ok.
      * rewrite filter_cons_True by done. reflexivity.
      * rewrite filter_cons_False by done. reflexivity.
Qed.

Lemma callback_queue_always_drains_witness :
  let w0 := new_World (Content "domain") in
  let tr := [Call "x.example.com"; Call "y.example.com"; Call "z.example.com"] in
  let oks := [true; false; true] in
  let w := Callback.run tr w0 in
  let w' := Callback.run (Settle 0 <$> oks) w in
  quiet w' ∧
  missFile w' =
    appended (missFile w) (fst <$> filter (λ x, x.2 = true) (zip (missQueue (self w)) oks)) ∧
  rejected w' = rejected w0.
Proof.
  intros w0 tr oks. apply (callback_queue_always_drains w0 tr oks).
  - split; reflexivity.
  - vm_compute. reflexivity.
Defined.

Lemma callback_clearCachedParsers_evicts_witness :
  let b := mkBinding "/platforms/p/parser.js" "p" None None in
  let parsers : gmap string ParserBinding := {["p" := b]} in
  let w := {| self := new_ParserList; missFile := Content "domain"; inflight := [];
              rejected := 0; modules := {[file b]}; requireCache := {[file b]} |} in
  (Callback.clearCachedParsers parsers w).1 = Normal tt ∧
  file b ∉ requireCache (Callback.clearCachedParsers parsers w).2.
Proof.
  intros b parsers w. apply (callback_clearCachedParsers_evicts parsers w "p" b).
  - vm_compute. reflexivity.
  - vm_compute. reflexivity.
Defined.

(** ** [add], [get], [clearPlatform] *)

Lemma cb_read_plain {A} (o : gmap string A) k :
  plain k →
  Callback.read o k =
    match o !! k with Some a => Callback.Own a | None => Callback.Undefined end.
Proof.
  intros Hk. unfold Callback.read. destruct (o !! k); [done|].
  by rewrite (decide_False _ _ Hk).
Qed.

Ltac cb_unfold :=
  unfold mbind, M_bind, bind, modify, gets, mret, M_ret, ret, throw,
    Callback.set_parsers, Callback.set_domains, Callback.set_platforms;
  cbn [Callback.parsers Callback.domains Callback.platforms].

Ltac solve_plain := apply (bool_decide_unpack _); vm_compute; exact I.

Lemma cb_add_claimed d obj l : claimed l d → Callback.add d obj l = (Normal false, l).
Proof. intros Hc. unfold Callback.add. cb_unfold. unfold claimed in Hc. by rewrite Hc. Qed.

Lemma cb_add_unclaimed d obj l :
  ¬ claimed l d → plain (platform obj) →
  Callback.add d obj l =
    (Normal true,
     {| Callback.parsers := match Callback.parsers l !! platform obj with
                            | Some _ => Callback.parsers l
                            | None => <[platform obj := obj]> (Callback.parsers l)
                            end;
        Callback.domains :=
          <[d := Callback.VParser (default obj (Callback.parsers l !! platform obj))]>
            (Callback.domains l);
        Callback.platforms :=
          <[platform obj := default [] (Callback.platforms l !! platform obj) ++ [d]]>
            (Callback.platforms l) |}).
Proof.
  intros Hc Hp. unfold Callback.add. cb_unfold. unfold claimed in Hc.
  destruct (Callback.is_truthy _); [done|].
  rewrite !(cb_read_plain _ _ Hp).
  destruct l as [ps ds pfs]. cbn [Callback.parsers Callback.domains Callback.platforms].
  destruct (ps !! platform obj) as [b|] eqn:Hps;
    destruct (pfs !! platform obj) as [arr|] eqn:Hpf;
    repeat (progress (cbn [Callback.parsers Callback.domains Callback.platforms
                           Callback.value_of default from_option];
                      rewrite ?(cb_read_plain _ _ Hp), ?Hps, ?Hpf, ?lookup_insert_eq));
    unfold id; rewrite ?insert_insert_eq; reflexivity.
Qed.

Lemma cb_adds_from calls : ∀ l,
  cb_consistent l → Forall (λ c, plain c.1 ∧ plain (platform c.2)) calls →
  ∃ l', cb_adds calls l = (Normal (first_claims (dom (Callback.domains l)) calls), l') ∧
    cb_consistent l' ∧
    ∀ d, match Callback.domains l !! d with
         | Some v => Callback.domains l' !! d = Some v
         | None =>
             match added_for d calls with
             | [] => Callback.domains l' !! d = None
             | b :: _ => ∃ b', Callback.domains l' !! d = Some (Callback.VParser b') ∧
                               platform b' = platform b
             end
         end.
Proof.
  induction calls as [|[d0 obj] calls IH]; intros l HJ Hplain.
  - exists l. split; [done|]. split; [done|]. intros d. by destruct (Callback.domains l !! d).
  - apply Forall_cons in Hplain as [[Hd0 Hp0] Hplain]. cbn [fst snd] in *.
    cbn [cb_adds first_claims fst snd]. unfold bind.
    destruct (Callback.domains l !! d0) as [v0|] eqn:Hv0.
    + destruct (cb_domains_parsers _ HJ d0 v0 Hv0) as (b0 & -> & Hb0).
      rewrite cb_add_claimed
        by (unfold claimed; by rewrite (cb_read_plain _ _ Hd0), Hv0).
      destruct (IH l HJ Hplain) as (l' & Hrun & HJ' & Hdom).
      assert (Hseen : {[d0]} ∪ dom (Callback.domains l) = dom (Callback.domains l)).
      { apply set_eq. intros x. rewrite elem_of_union, elem_of_singleton.
        split; [intros [->|?]; [apply elem_of_dom; by eexists|done]|by right]. }
      rewrite Hseen, Hrun. exists l'. split.
      { unfold ret. do 3 f_equal. symmetry. apply bool_decide_eq_false_2. intros Hn.
        apply Hn, elem_of_dom.
        by eexists. }
      split; [exact HJ'|]. intros d. specialize (Hdom d).
      destruct (Callback.domains l !! d) eqn:Hd; [done|].
      unfold added_for in *. rewrite filter_cons_False; [done|].
      cbn. intros ->. congruence.
    + rewrite cb_add_unclaimed;
        [|unfold claimed; by rewrite (cb_read_plain _ _ Hd0), Hv0|done].
      set (b1 := default obj (Callback.parsers l !! platform obj)).
      set (l1 := {| Callback.parsers := _ |}).
      assert (Hb1 : platform b1 = platform obj).
      { subst b1. destruct (Callback.parsers l !! platform obj) as [b|] eqn:Hb; [|done].
        by apply (cb_parsers_keyed _ HJ). }
      assert (Hps1 : Callback.parsers l1 !! platform obj = Some b1).
      { subst l1 b1. cbn. destruct (Callback.parsers l !! platform obj) eqn:Hb; [done|].
        by rewrite lookup_insert_eq. }
      assert (Hmono : ∀ p b, Callback.parsers l !! p = Some b →
                              Callback.parsers l1 !! p = Some b).
      { intros p b Hb. subst l1. cbn.
        destruct (Callback.parsers l !! platform obj) eqn:Hb'; [done|].
        rewrite lookup_insert_ne; [done|]. intros <-. congruence. }
      assert (HJ1 : cb_consistent l1).
      { split.
        - intros p b. subst l1. cbn.
          destruct (Callback.parsers l !! platform obj) eqn:Hb';
            [by apply (cb_parsers_keyed _ HJ)|].
          destruct (decide (p = platform obj)) as [->|Hne].
          + rewrite lookup_insert_eq. by intros [= <-].
          + rewrite lookup_insert_ne by done. by apply (cb_parsers_keyed _ HJ).
        - intros d v. cbn [l1 Callback.domains].
          destruct (decide (d = d0)) as [->|Hne].
          + rewrite lookup_insert_eq. intros [= <-]. exists b1. by rewrite Hb1.
          + rewrite lookup_insert_ne by done. intros Hv.
            destruct (cb_domains_parsers _ HJ d v Hv) as (b & -> & Hb).
            exists b. split; [done|]. by apply Hmono. }
      destruct (IH l1 HJ1 Hplain) as (l' & Hrun & HJ' & Hdom).
      assert (Hseen : dom (Callback.domains l1) = {[d0]} ∪ dom (Callback.domains l)).
      { cbn [l1 Callback.domains]. by rewrite dom_insert_L. }
      rewrite Hseen in Hrun. rewrite Hrun. exists l'. split.
      { unfold ret. do 3 f_equal. symmetry. apply bool_decide_eq_true_2. intros Hin%elem_of_dom.
        rewrite Hv0 in Hin. by destruct Hin. }
      split; [exact HJ'|]. intros d. specialize (Hdom d).
      cbn [l1 Callback.domains] in Hdom.
      destruct (decide (d = d0)) as [->|Hne].
      * rewrite lookup_insert_eq in Hdom. rewrite Hv0.
        unfold added_for. rewrite filter_cons_True by done. cbn.
        exists b1. done.
      * rewrite lookup_insert_ne in Hdom by done.
        destruct (Callback.domains l !! d); [done|].
        unfold added_for in *. rewrite filter_cons_False; [done|]. cbn. congruence.
Qed.

(** X17. First claim wins. After any run of [add] calls of the callback
    variant on new lists, with no domain and no platform named like a member
    of [Object.prototype]: a call returns [true] exactly when no earlier call
    passed its domain; a domain resolves to one parser, which is of the
    platform of the first call that passed the domain and is the parser that
    [getFromPlatform] gives for that platform; and every further [add] for
    the domain returns [false] and changes nothing. *)
Theorem callback_first_claim_wins (calls : list (string * ParserBinding)) :
  Forall (λ c, plain c.1 ∧ plain (platform c.2)) calls →
  ∃ l, cb_adds calls Callback.new_ParserList = (Normal (first_claims ∅ calls), l) ∧
    ∀ d, match added_for d calls with
         | [] => Callback.domains l !! d = None
         | b :: _ =>
             ∃ b', Callback.domains l !! d = Some (Callback.VParser b') ∧
                   platform b' = platform b ∧
                   Callback.getFromPlatform (platform b) l = Callback.VParser b' ∧
                   ∀ obj, Callback.add d obj l = (Normal false, l)
         end.
Proof.
  intros Hplain.
  assert (HJ0 : cb_consistent Callback.new_ParserList).
  { split; cbn; intros ? ?; rewrite lookup_empty; done. }
  destruct (cb_adds_from calls _ HJ0 Hplain) as (l & Hrun & HJ & Hdom).
  cbn [Callback.new_ParserList Callback.domains] in Hrun. rewrite dom_empty_L in Hrun.
  exists l. split; [exact Hrun|]. intros d. specialize (Hdom d).
  cbn [Callback.new_ParserList Callback.domains] in Hdom. rewrite lookup_empty in Hdom.
  destruct (added_for d calls) as [|b rest] eqn:Ha; [exact Hdom|].
  destruct Hdom as (b' & Hd & Hb'). exists b'. split; [exact Hd|]. split; [exact Hb'|].
  destruct (cb_domains_parsers _ HJ d _ Hd) as (b2 & [= <-] & Hp).
  split.
  - unfold Callback.getFromPlatform, Callback.read. rewrite <- Hb', Hp. reflexivity.
  - intros obj. apply cb_add_claimed. unfold claimed, Callback.read. by rewrite Hd.
Qed.

Lemma callback_first_claim_wins_witness :
  let bP := mkBinding "/platforms/p/parser.js" "p" None None in
  let bQ := mkBinding "/platforms/q/parser.js" "q" None None in
  let calls := [("d.example.com", bP); ("d.example.com", bQ); ("e.example.com", bQ)] in
  ∃ l, cb_adds calls Callback.new_ParserList = (Normal (first_claims ∅ calls), l) ∧
    ∀ d, match added_for d calls with
         | [] => Callback.domains l !! d = None
         | b :: _ =>
             ∃ b', Callback.domains l !! d = Some (Callback.VParser b') ∧
                   platform b' = platform b ∧
                   Callback.getFromPlatform (platform b) l = Callback.VParser b' ∧
                   ∀ obj, Callback.add d obj l = (Normal false, l)
         end.
Proof.
  intros bP bQ calls. apply (callback_first_claim_wins calls).
  repeat constructor; solve_plain.
Defined.

Lemma cb_get_own d write s v :
  Callback.domains (Callback.this s) !! d = Some v → v ≠ Callback.VUndefined →
  Callback.get d write s = (Normal v, s).
Proof.
  intros Hd Hv. destruct s as [l w]. unfold Callback.get, Callback.on_this. cb_unfold.
  cbn [Callback.this Callback.host] in *. unfold Callback.read. rewrite Hd.
  cbn [Callback.domain_value]. by destruct v.
Qed.

Lemma cb_writeMiss_missQueue d w :
  missQueue (self (Callback.writeMiss d w).2) = missQueue (self w) ++ [d].
Proof.
  unfold Callback.writeMiss, on_self, Callback.writeNextDomain. js_unfold. cbn.
  by destruct (length (missQueue (self w) ++ [d]) =? 1)%nat; destruct (missQueue (self w) ++ [d]).
Qed.

Lemma cb_writeMiss_normal d w : (Callback.writeMiss d w).1 = Normal tt.
Proof.
  unfold Callback.writeMiss, on_self. js_unfold. cbn.
  by destruct (length (missQueue (self w) ++ [d]) =? 1)%nat.
Qed.

(** X18. The callback variant caches a miss. [get(d, write)] for a domain
    without a property in [this.domains] returns [false], stores [false]
    under [d] and queues one ledger write unless [write] is [false]; every
    later [get(d)] returns [false] and changes nothing, so nothing more is
    queued. A later [add(d, obj)] overwrites the cached miss: it returns
    [true] and [d] resolves to the parser of the platform of [obj]. *)
Theorem callback_get_caches_miss d write s :
  plain d → Callback.domains (Callback.this s) !! d = None →
  ∃ s1, Callback.get d write s = (Normal Callback.VFalse, s1) ∧
    Callback.domains (Callback.this s1) =
      <[d := Callback.VFalse]> (Callback.domains (Callback.this s)) ∧
    Callback.parsers (Callback.this s1) = Callback.parsers (Callback.this s) ∧
    Callback.platforms (Callback.this s1) = Callback.platforms (Callback.this s) ∧
    missQueue (self (Callback.host s1)) =
      missQueue (self (Callback.host s))
        ++ (if bool_decide (write = Some false) then [] else [d]) ∧
    (∀ write', Callback.get d write' s1 = (Normal Callback.VFalse, s1)) ∧
    (∀ obj, plain (platform obj) →
       ∃ l, Callback.add d obj (Callback.this s1) = (Normal true, l) ∧
         Callback.domains l !! d =
           Some (Callback.VParser
                   (default obj (Callback.parsers (Callback.this s) !! platform obj)))).
Proof.
  intros Hd Hn. destruct s as [l w]. cbn [Callback.this Callback.host] in *.
  assert (Hget : ∃ w1, Callback.get d write {| Callback.this := l; Callback.host := w |} =
            (Normal Callback.VFalse,
             {| Callback.this := Callback.set_domains
                                    (<[d := Callback.VFalse]> (Callback.domains l)) l;
                Callback.host := w1 |}) ∧
            missQueue (self w1) =
              missQueue (self w) ++ (if bool_decide (write = Some false) then [] else [d])).
  { unfold Callback.get, Callback.on_this, Callback.on_host.
    unfold mbind, M_bind, bind, modify, gets, mret, M_ret, ret.
    cbn [Callback.this Callback.host].
    rewrite (cb_read_plain _ _ Hd), Hn. cbn [Callback.domain_value Callback.is_truthy orb].
    rewrite bool_decide_eq_false_2 by done.
    destruct write as [[|]|].
    - rewrite bool_decide_eq_true_2 by done. rewrite bool_decide_eq_false_2 by done.
      cbn [Callback.this Callback.host].
      pose proof (cb_writeMiss_normal d w) as Hnorm.
      pose proof (cb_writeMiss_missQueue d w) as Hq.
      destruct (Callback.writeMiss d w) as [[[]|e] w1]; [|done]. cbn in Hq.
      exists w1. split; [reflexivity|exact Hq].
    - rewrite bool_decide_eq_false_2 by (intros H; by apply H).
      rewrite bool_decide_eq_true_2 by done. exists w. split; [reflexivity|by rewrite app_nil_r].
    - rewrite bool_decide_eq_true_2 by done. rewrite bool_decide_eq_false_2 by done.
      cbn [Callback.this Callback.host].
      pose proof (cb_writeMiss_normal d w) as Hnorm.
      pose proof (cb_writeMiss_missQueue d w) as Hq.
      destruct (Callback.writeMiss d w) as [[[]|e] w1]; [|done]. cbn in Hq.
      exists w1. split; [reflexivity|exact Hq]. }
  destruct Hget as (w1 & Hget & Hq). eexists. split; [exact Hget|].
  cbn [Callback.this Callback.host Callback.set_domains Callback.domains
       Callback.parsers Callback.platforms].
  repeat split; try done.
  - intros write'. apply cb_get_own; [|done]. cbn. by rewrite lookup_insert_eq.
  - intros obj Hp. eexists. split.
    + apply cb_add_unclaimed; [|done]. unfold claimed, Callback.read. cbn.
      by rewrite lookup_insert_eq.
    + cbn. by rewrite lookup_insert_eq.
Qed.

Lemma callback_get_caches_miss_witness :
  let d := "unknown.example.com" in
  let s := {| Callback.this := Callback.new_ParserList;
              Callback.host := new_World (Content "domain") |} in
  ∃ s1, Callback.get d None s = (Normal Callback.VFalse, s1) ∧
    Callback.domains (Callback.this s1) =
      <[d := Callback.VFalse]> (Callback.domains (Callback.this s)) ∧
    Callback.parsers (Callback.this s1) = Callback.parsers (Callback.this s) ∧
    Callback.platforms (Callback.this s1) = Callback.platforms (Callback.this s) ∧
    missQueue (self (Callback.host s1)) =
      missQueue (self (Callback.host s))
        ++ (if bool_decide (None = Some false) then [] else [d]) ∧
    (∀ write', Callback.get d write' s1 = (Normal Callback.VFalse, s1)) ∧
    (∀ obj, plain (platform obj) →
       ∃ l, Callback.add d obj (Callback.this s1) = (Normal true, l) ∧
         Callback.domains l !! d =
           Some (Callback.VParser
                   (default obj (Callback.parsers (Callback.this s) !! platform obj)))).
Proof.
  intros d s. apply (callback_get_caches_miss d None s).
  - solve_plain.
  - reflexivity.
Defined.

Lemma cb_forEach_delete arr : ∀ l,
  forEach (λ domain, modify (λ l, Callback.set_domains
             (delete domain (Callback.domains l)) l)) arr l =
    (Normal tt,
     Callback.set_domains (fold_left (λ m k, delete k m) arr (Callback.domains l)) l).
Proof.
  induction arr as [|k arr IH]; intros l.
  - by destruct l.
  - cbn [forEach]. unfold bind, modify at 1. rewrite IH. by destruct l.
Qed.

Lemma cb_lookup_fold_delete (l : list string) (m : gmap string Callback.Value) d :
  fold_left (λ m k, delete k m) l m !! d = if decide (d ∈ l) then None else m !! d.
Proof.
  revert m. induction l as [|k l IH]; intros m; cbn.
  - rewrite decide_False by apply not_elem_of_nil. done.
  - rewrite IH. destruct (decide (d ∈ l)) as [Hin|Hin].
    + rewrite decide_True; [done|by right].
    + destruct (decide (k = d)) as [->|Hne].
      * rewrite lookup_delete_eq, decide_True; [done|by left].
      * rewrite lookup_delete_ne by done. rewrite decide_False; [done|].
        intros [?|?]%elem_of_cons; done.
Qed.

(** X19. [clearPlatform(P)] of the callback variant. For a platform with an
    array in [this.platforms], it ends normally: the parser of [P] is gone,
    the domains of the array have no property any more, everything else is
    as before, and [P] keeps an empty array, so [sizeOf('platforms')] does
    not change; a following [add(d, obj)] for one of these domains, with a
    parser of [P], returns [true] and makes [obj] the parser of [d] and of
    [P]. For a platform without an array it throws a [TypeError], after it
    deleted the parser of that name. *)
Theorem callback_clearPlatform_known_or_throws P l :
  (∀ arr, Callback.platforms l !! P = Some arr →
     ∃ l', Callback.clearPlatform P l = (Normal tt, l') ∧
       Callback.getFromPlatform P l' =
         (if decide (P ∈ Callback.Object_members) then Callback.VBuiltin P
          else Callback.VFalse) ∧
       Callback.getDomainsOf P l' = Callback.Own [] ∧
       Callback.sizeOf "platforms" l' = Callback.sizeOf "platforms" l ∧
       (∀ d, Callback.domains l' !! d =
               if decide (d ∈ arr) then None else Callback.domains l !! d) ∧
       (∀ Q, Q ≠ P → Callback.parsers l' !! Q = Callback.parsers l !! Q ∧
                     Callback.platforms l' !! Q = Callback.platforms l !! Q) ∧
       (∀ d obj, d ∈ arr → plain d → platform obj = P → plain P →
          ∃ l2, Callback.add d obj l' = (Normal true, l2) ∧
            Callback.domains l2 !! d = Some (Callback.VParser obj) ∧
            Callback.getFromPlatform P l2 = Callback.VParser obj ∧
            Callback.getDomainsOf P l2 = Callback.Own [d])) ∧
  (Callback.platforms l !! P = None →
     Callback.clearPlatform P l =
       (Throw TypeError, Callback.set_parsers (delete P (Callback.parsers l)) l)).
Proof.
  split.
  - intros arr Hp. eexists. split.
    { unfold Callback.clearPlatform. unfold mbind, M_bind, bind, modify at 1, gets.
      cbn [Callback.set_parsers Callback.platforms]. unfold Callback.read. rewrite Hp.
      rewrite cb_forEach_delete. unfold modify. reflexivity. }
    cbn [Callback.set_parsers Callback.set_domains Callback.set_platforms
         Callback.parsers Callback.domains Callback.platforms].
    split; [|split; [|split; [|split; [|split]]]].
    + unfold Callback.getFromPlatform, Callback.read.
      cbn [Callback.set_parsers Callback.set_domains Callback.set_platforms
           Callback.parsers Callback.domains Callback.platforms].
      rewrite lookup_delete_eq.
      by destruct (decide (P ∈ Callback.Object_members)).
    + unfold Callback.getDomainsOf, Callback.read. cbn. by rewrite lookup_insert_eq.
    + unfold Callback.sizeOf. cbn. f_equal.
      apply map_size_insert_Some. by eexists.
    + intros d. apply cb_lookup_fold_delete.
    + intros Q HQ. by rewrite lookup_delete_ne, lookup_insert_ne.
    + intros d obj Hd Hpd Hobj HP. subst P. eexists. split.
      * apply cb_add_unclaimed; [|done]. unfold claimed. rewrite (cb_read_plain _ _ Hpd).
        cbn. rewrite cb_lookup_fold_delete, (decide_True _ _ Hd). done.
      * cbn. rewrite !lookup_delete_eq, !lookup_insert_eq. cbn.
        unfold Callback.getFromPlatform, Callback.getDomainsOf, Callback.read. cbn.
        rewrite !lookup_insert_eq. cbn. done.
  - intros Hp. unfold Callback.clearPlatform. unfold mbind, M_bind, bind, modify at 1, gets.
    cbn [Callback.set_parsers Callback.platforms]. unfold Callback.read. rewrite Hp.
    by destruct (decide (P ∈ Callback.Object_members)).
Qed.

(** ** [init] *)

#[local] Instance claimed_dec l d : Decision (claimed l d).
Proof. unfold claimed. apply _. Defined.

Lemma claimed_insert_false l d d' :
  ¬ claimed l d →
  claimed (Callback.set_domains (<[d := Callback.VFalse]> (Callback.domains l)) l) d' ↔
  claimed l d'.
Proof.
  intros Hn. unfold claimed, Callback.read in *.
  cbn [Callback.set_domains Callback.domains].
  destruct (decide (d' = d)) as [->|Hne].
  - rewrite lookup_insert_eq. cbn. split; [done|]. intros H. by destruct Hn.
  - by rewrite lookup_insert_ne by done.
Qed.

Lemma cb_add_spec key obj l :
  plain (platform obj) →
  ∃ b l', Callback.add key obj l = (Normal b, l') ∧
    (∀ d, claimed l d → claimed l' d) ∧ claimed l' key.
Proof.
  intros Hp. destruct (decide (claimed l key)) as [Hc|Hc].
  - exists false, l. by rewrite cb_add_claimed.
  - rewrite cb_add_unclaimed by done. eexists _, _. split; [reflexivity|].
    set (b := default obj _). set (l' := {| Callback.parsers := _ |}).
    assert (Hiff : ∀ d, claimed l' d ↔ d = key ∨ claimed l d).
    { intros d. unfold claimed, Callback.read. cbn [l' Callback.domains].
      destruct (decide (d = key)) as [->|Hne].
      - rewrite lookup_insert_eq. cbn. split; [by left|done].
      - rewrite lookup_insert_ne by done. split; [by right|]. by intros [?|?]. }
    split; [intros d Hd; apply Hiff; by right|apply Hiff; by left].
Qed.

Lemma cb_get_claimed key write s :
  claimed (Callback.this s) key → ∃ v, Callback.get key write s = (Normal v, s).
Proof.
  intros Hc. destruct s as [l w]. unfold Callback.get, Callback.on_this.
  unfold mbind, M_bind, bind, gets, mret, M_ret, ret. cbn [Callback.this Callback.host] in *.
  unfold claimed in Hc. rewrite Hc. cbn. by eexists.
Qed.

Lemma cb_register_spec obj key dm acc s :
  plain (platform obj) → (key ∈ acc.1 → claimed (Callback.this s) key) →
  ∃ acc' s', Callback.register obj key dm acc s = (Normal acc', s') ∧
    Callback.host s' = Callback.host s ∧
    (∀ d, claimed (Callback.this s) d → claimed (Callback.this s') d) ∧
    claimed (Callback.this s') key ∧
    (∀ k, k ∈ acc'.1 → k = key ∨ k ∈ acc.1).
Proof.
  intros Hp Hacc. unfold Callback.register.
  destruct (decide (key ∈ acc.1)) as [Hin|Hin].
  - exists acc, s. repeat split; try done; auto.
  - unfold mbind, M_bind, bind, Callback.on_this.
    destruct (cb_add_spec key obj (Callback.this s) Hp) as (b & l' & Hadd & Hmono & Hkey).
    rewrite Hadd. destruct b.
    + eexists _, _. split; [reflexivity|]. cbn. repeat split; try done.
      intros k. destruct (decide (key = "__proto__")); [by right|].
      rewrite elem_of_union, elem_of_singleton. tauto.
    + destruct (cb_get_claimed key None {| Callback.this := l'; Callback.host := Callback.host s |})
        as (v & Hget); [done|].
      rewrite Hget. eexists _, _. split; [reflexivity|]. cbn. repeat split; try done.
      intros k ?. by right.
Qed.

Lemma cb_foldM_register {A} obj (key : A → string) (dm : A → option string) xs :
  plain (platform obj) → ∀ acc s,
  (∀ k, k ∈ acc.1 → claimed (Callback.this s) k) →
  ∃ acc' s', Callback.foldM (λ x, Callback.register obj (key x) (dm x)) xs acc s
             = (Normal acc', s') ∧
    Callback.host s' = Callback.host s ∧
    (∀ d, claimed (Callback.this s) d → claimed (Callback.this s') d) ∧
    (∀ k, k ∈ acc'.1 → claimed (Callback.this s') k) ∧
    (∀ x, x ∈ xs → claimed (Callback.this s') (key x)).
Proof.
  intros Hp. induction xs as [|x xs IH]; intros acc s Hacc.
  - exists acc, s. repeat split; try done. intros x Hx. by apply not_elem_of_nil in Hx.
  - cbn [Callback.foldM]. unfold bind.
    destruct (cb_register_spec obj (key x) (dm x) acc s Hp (Hacc _))
      as (acc1 & s1 & Hreg & Hh1 & Hmono1 & Hkey1 & Hacc1).
    rewrite Hreg.
    destruct (IH acc1 s1) as (acc' & s' & Hrun & Hh & Hmono & Hacc' & Hxs).
    { intros k Hk. destruct (Hacc1 k Hk) as [->|Hk']; [done|]. apply Hmono1, Hacc, Hk'. }
    exists acc', s'. split; [exact Hrun|]. split; [congruence|].
    split; [intros; by apply Hmono, Hmono1|]. split; [exact Hacc'|].
    intros y [->|Hy]%elem_of_cons; [by apply Hmono|by apply Hxs].
Qed.

Lemma cb_addDomainsOf_spec disk item s :
  plain_platforms disk →
  ∃ r s', Callback.addDomainsOf disk item s = (Normal r, s') ∧
    Callback.host s' = Callback.host s ∧
    (∀ d, claimed (Callback.this s) d → claimed (Callback.this s') d) ∧
    (∀ m d, read_manifest disk item = Normal m → truthy (name m) = true →
            stat_parser disk item = Normal tt → d ∈ default [] (manifest_domains m) →
            claimed (Callback.this s') d) ∧
    (read_manifest disk item = Throw SyntaxError →
       r = Callback.Failed (Callback.Error ("Failed to parse the manifest of " +:+ item))) ∧
    (∀ m e, read_manifest disk item = Normal m → truthy (name m) = true →
            is_Some (manifest_domains m) → stat_parser disk item = Throw e →
       r = Callback.Failed (Callback.Error ("No parser found for " +:+ item))).
Proof.
  intros Hplain. unfold Callback.addDomainsOf.
  destruct (read_manifest disk item) as [m|e] eqn:Hm.
  2:{ destruct e; eexists _, s; (split; [reflexivity|]); repeat split; try done. }
  specialize (Hplain item m Hm).
  destruct (truthy (name m)) eqn:Hname; cbn [negb orb].
  2:{ eexists _, s. split; [reflexivity|]. repeat split; try done;
      intros; simplify_eq; congruence. }
  destruct (negb (bool_decide (is_Some (manifest_domains m))) && negb (truthy (pkb_domains m)))
    eqn:Hsome.
  { eexists _, s. split; [reflexivity|]. repeat split; try done.
    - intros m' d [= <-] _ _ Hd. apply andb_prop in Hsome as [Hs _].
      destruct (manifest_domains m); [|by apply not_elem_of_nil in Hd].
      by rewrite bool_decide_eq_true_2 in Hs by (by eexists).
    - intros m' e [= <-] _ Hs' _. apply andb_prop in Hsome as [Hs _].
      by rewrite bool_decide_eq_true_2 in Hs. }
  destruct (stat_parser disk item) as [[]|e] eqn:Hstat.
  2:{ eexists _, s. split; [reflexivity|]. repeat split; try done. }
  set (obj := {| file := _ |}).
  unfold mbind at 1. unfold M_bind, bind at 1.
  destruct (cb_foldM_register obj (λ d : string, d) (λ d, Some d)
              (default [] (manifest_domains m)) Hplain (∅, []) s)
    as (acc1 & s1 & Hlit & Hh1 & Hmono1 & Hacc1 & Hds).
  { intros k Hk. by apply elem_of_empty in Hk. }
  rewrite Hlit.
  assert (Hfin : ∀ r s', Callback.host s' = Callback.host s1 →
            (∀ d, claimed (Callback.this s1) d → claimed (Callback.this s') d) →
            ∃ r0 s0, (Normal r, s') = (Normal r0, s0) ∧
              Callback.host s0 = Callback.host s ∧
              (∀ d, claimed (Callback.this s) d → claimed (Callback.this s0) d) ∧
              (∀ m0 d, Normal m = Normal m0 → truthy (name m0) = true →
                 Normal tt = Normal tt → d ∈ default [] (manifest_domains m0) →
                 claimed (Callback.this s0) d) ∧
              (Normal m = Throw SyntaxError →
                 r0 = Callback.Failed
                        (Callback.Error ("Failed to parse the manifest of " +:+ item))) ∧
              (∀ m0 e, Normal m = Normal m0 → truthy (name m0) = true →
                 is_Some (manifest_domains m0) → Normal tt = Throw e →
                 r0 = Callback.Failed (Callback.Error ("No parser found for " +:+ item)))).
  { intros r s' Hh Hmono. exists r, s'. split; [done|]. split; [congruence|].
    split; [intros; by apply Hmono, Hmono1|]. split; [|done].
    intros m0 d [= <-] _ _ Hd. by apply Hmono, Hds. }
  destruct (negb (truthy (pkb_domains m))); [by apply Hfin|].
  destruct (readdir_pkb disk item) as [files|e]; [|by apply Hfin].
  destruct (Nat.eqb _ _); [by apply Hfin|].
  destruct (extract disk _ _) as [records|e]; [|by apply Hfin].
  unfold mbind at 1. unfold M_bind, bind at 1.
  destruct (cb_foldM_register obj
              (λ record : gmap string string,
                 default "undefined" (record !! default "" (pkb_domains m)))
              (λ record : gmap string string, record !! default "" (pkb_domains m))
              records Hplain acc1 s1 Hacc1)
    as (acc2 & s2 & Hpkb & Hh2 & Hmono2 & _ & _).
  rewrite Hpkb. by apply Hfin.
Qed.

Lemma cb_nextItem_spec disk : plain_platforms disk → ∀ items errors dups s,
  (∀ i, i ∈ items → i.1 ≠ "") →
  ∃ errors' dups' s', Callback.nextItem disk items errors dups s
                      = (Normal (errors', dups'), s') ∧
    Callback.host s' = Callback.host s ∧
    (∀ e, e ∈ errors → e ∈ errors') ∧
    (∀ d, claimed (Callback.this s) d → claimed (Callback.this s') d) ∧
    (∀ item dir, (item, Directory dir) ∈ items →
       (∀ m d, read_manifest disk item = Normal m → truthy (name m) = true →
               stat_parser disk item = Normal tt → d ∈ default [] (manifest_domains m) →
               claimed (Callback.this s') d) ∧
       (read_manifest disk item = Throw SyntaxError →
          Callback.Error ("Failed to parse the manifest of " +:+ item) ∈ errors') ∧
       (∀ m e, read_manifest disk item = Normal m → truthy (name m) = true →
               is_Some (manifest_domains m) → stat_parser disk item = Throw e →
          Callback.Error ("No parser found for " +:+ item) ∈ errors')) ∧
    (∀ item code, (item, StatError code) ∈ items →
       Callback.FsError (SystemError code) ∈ errors').
Proof.
  intros Hplain. induction items as [|[item entry] items IH]; intros errors dups s Hne.
  - exists errors, dups, s. repeat split; try done.
    all: intros; by match goal with H : _ ∈ [] |- _ => apply not_elem_of_nil in H end.
  - cbn [Callback.nextItem].
    assert (Hitem : String.eqb item "" = false).
    { apply String.eqb_neq. apply (Hne (item, entry)). left. }
    rewrite Hitem.
    assert (Hne' : ∀ i, i ∈ items → i.1 ≠ "") by (intros; apply Hne; by right).
    destruct entry as [code| |dir].
    + destruct (IH (errors ++ [Callback.FsError (SystemError code)]) dups s Hne')
        as (errors' & dups' & s' & Hrun & Hh & Herr & Hmono & Hdirs & Hstats).
      exists errors', dups', s'. split; [exact Hrun|]. split; [exact Hh|].
      split; [intros e He; apply Herr, elem_of_app; by left|]. split; [exact Hmono|].
      split.
      * intros it dir [[=]|Hin]%elem_of_cons. by apply (Hdirs it dir).
      * intros it c [[= -> ->]|Hin]%elem_of_cons; [|by apply (Hstats it c)].
        apply Herr, elem_of_app. right. left.
    + destruct (IH errors dups s Hne')
        as (errors' & dups' & s' & Hrun & Hh & Herr & Hmono & Hdirs & Hstats).
      exists errors', dups', s'. split; [exact Hrun|]. split; [exact Hh|].
      split; [exact Herr|]. split; [exact Hmono|]. split.
      * intros it dir [[=]|Hin]%elem_of_cons. by apply (Hdirs it dir).
      * intros it c [[=]|Hin]%elem_of_cons. by apply (Hstats it c).
    + unfold bind.
      destruct (cb_addDomainsOf_spec disk item s Hplain)
        as (r & s1 & Hadd & Hh1 & Hmono1 & Hreg1 & Hsyn1 & Hpar1).
      rewrite Hadd.
      assert (Hrest : ∃ errors1 dups1,
        (match r with
         | Callback.Failed err => Callback.nextItem disk items (errors ++ [err]) dups
         | Callback.Done dupl => Callback.nextItem disk items errors (dups ++ dupl)
         end) = Callback.nextItem disk items errors1 dups1 ∧
        (∀ e, e ∈ errors → e ∈ errors1) ∧
        (∀ err, r = Callback.Failed err → err ∈ errors1)).
      { destruct r as [err|dupl].
        - exists (errors ++ [err]), dups. split; [done|]. split.
          + intros e He. apply elem_of_app. by left.
          + intros ? [= <-]. apply elem_of_app. right. left.
        - exists errors, (dups ++ dupl). done. }
      destruct Hrest as (errors1 & dups1 & -> & Herr1 & Hfail1).
      destruct (IH errors1 dups1 s1 Hne')
        as (errors' & dups' & s' & Hrun & Hh & Herr & Hmono & Hdirs & Hstats).
      exists errors', dups', s'. split; [exact Hrun|]. split; [congruence|].
      split; [intros; by apply Herr, Herr1|].
      split; [intros; by apply Hmono, Hmono1|]. split.
      * intros it dir' [[= -> ->]|Hin]%elem_of_cons; [|by apply (Hdirs it dir')].
        split; [|split].
        -- intros m d Hm Hn Hs Hd. apply Hmono. by apply (Hreg1 m d).
        -- intros Hm. apply Herr, Hfail1. by apply Hsyn1.
        -- intros m e Hm Hn Hs He. apply Herr, Hfail1. by apply (Hpar1 m e).
      * intros it c [[=]|Hin]%elem_of_cons. by apply (Hstats it c).
Qed.

Lemma cb_addMiss_eq x l :
  Callback.addMiss x l =
    if decide (claimed l x) then (Normal false, l)
    else (Normal true, Callback.set_domains (<[x := Callback.VFalse]> (Callback.domains l)) l).
Proof.
  unfold Callback.addMiss. unfold mbind, M_bind, bind, gets, modify, mret, M_ret, ret.
  destruct (decide (claimed l x)) as [Hc|Hc]; unfold claimed in Hc.
  - by rewrite Hc.
  - by destruct (Callback.is_truthy _).
Qed.

Lemma cb_filterM_addMiss lines : ∀ l,
  ∃ l', filterM Callback.addMiss lines l
        = (Normal (filter (λ x, ¬ claimed l x) lines), l') ∧
    Callback.parsers l' = Callback.parsers l ∧
    Callback.platforms l' = Callback.platforms l ∧
    (∀ d, claimed l' d ↔ claimed l d) ∧
    (∀ d, Callback.domains l' !! d =
            if decide (d ∈ lines ∧ ¬ claimed l d) then Some Callback.VFalse
            else Callback.domains l !! d).
Proof.
  induction lines as [|x lines IH]; intros l.
  - exists l. split; [done|]. split; [done|]. split; [done|]. split; [done|].
    intros d. rewrite decide_False; [done|]. intros [H _]. by apply not_elem_of_nil in H.
  - cbn [filterM]. unfold bind. rewrite cb_addMiss_eq.
    destruct (decide (claimed l x)) as [Hc|Hc].
    + destruct (IH l) as (l' & Hrun & Hps & Hpf & Hcl & Hdom). rewrite Hrun.
      exists l'. split.
      { unfold ret. rewrite filter_cons_False; [done|]. by intros H. }
      repeat split; try done; try apply Hcl.
      intros d. rewrite Hdom. apply decide_ext. split.
      * intros [Hin Hn]. split; [by right|done].
      * intros [[->|Hin]%elem_of_cons Hn]; done.
    + set (l1 := Callback.set_domains _ l).
      assert (Hcl1 : ∀ d, claimed l1 d ↔ claimed l d)
        by (intros; by apply claimed_insert_false).
      destruct (IH l1) as (l' & Hrun & Hps & Hpf & Hcl & Hdom). rewrite Hrun.
      exists l'. split.
      { unfold ret. rewrite filter_cons_True by done. do 3 f_equal.
        apply list_filter_iff. intros y. by rewrite Hcl1. }
      split; [done|]. split; [done|].
      split; [intros d; by rewrite Hcl, Hcl1|].
      intros d. rewrite Hdom. cbn [l1 Callback.set_domains Callback.domains].
      destruct (decide (d = x)) as [->|Hne].
      * rewrite lookup_insert_eq.
        rewrite (decide_True (P := x ∈ x :: lines ∧ ¬ claimed l x)) by (split; [left|done]).
        by destruct (decide _).
      * rewrite lookup_insert_ne by done. apply decide_ext. rewrite Hcl1, elem_of_cons.
        split; [intros [? ?]; split; [by right|done]|intros [[?|?] ?]; done].
Qed.

Lemma cb_buildMissingDomains_spec errors dups s :
  ∃ errors' s', Callback.buildMissingDomains errors dups s
                = (Normal (errors', Some dups), s') ∧
    (∀ e, e ∈ errors → e ∈ errors') ∧
    (∀ d, claimed (Callback.this s') d ↔ claimed (Callback.this s) d).
Proof.
  destruct s as [l w]. unfold Callback.buildMissingDomains.
  unfold mbind at 1. unfold M_bind, bind at 1, Callback.on_host at 1, gets.
  cbn [Callback.this Callback.host].
  destruct (missFile w) as [code|text].
  - eexists _, _. split; [reflexivity|]. split; [|done].
    intros e He. destruct (String.eqb code "ENOENT"); [done|]. apply elem_of_app. by left.
  - destruct (negb (String.eqb (trim (hd "" (split "010" text))) "domain")).
    + eexists _, _. split; [reflexivity|]. done.
    + unfold mbind, M_bind, bind, Callback.on_this, Callback.on_host, modify, mret, M_ret, ret.
      cbn [Callback.this Callback.host].
      destruct (cb_filterM_addMiss (tail (split "010" text)) l)
        as (l' & Hrun & _ & _ & Hcl & _).
      rewrite Hrun. eexists _, _. split; [reflexivity|]. split; [done|exact Hcl].
Qed.

(** X20. [init] of the callback variant isolates the faults it reports. The
    platforms directory holds what a [Disk] describes: items that [fs.stat]
    rejects, files, and directories whose [manifest.json] cannot be read,
    does not parse, or holds an object with fields of the types of
    [Manifest]. (Any other manifest is outside of this: one that parses to
    [null], or whose [domains] is truthy and not an array, makes the source
    throw a [TypeError] inside a callback of [fs] and never call back.)
    When moreover no item has an empty name and no manifest names its
    platform like a member of [Object.prototype], [init] calls back with an
    array of errors and an array of duplicates. Whatever the other items of
    the directory are, every domain listed in the manifest of a visible
    platform directory that has a name and a parser resolves afterwards; a
    manifest that does not parse, a missing [parser.js] and an item that
    [fs.stat] rejects each leave their error in the array. *)
Theorem callback_init_isolates_faulty_platforms disk s items :
  plain_platforms disk → listing disk = Normal items → (∀ i, i ∈ items → i.1 ≠ "") →
  ∃ errors dups s', Callback.init disk s = (Normal (errors, Some dups), s') ∧
    (∀ item dir, (item, Directory dir) ∈ items → visible item →
       (∀ m d, read_manifest disk item = Normal m → truthy (name m) = true →
               stat_parser disk item = Normal tt → d ∈ default [] (manifest_domains m) →
               claimed (Callback.this s') d) ∧
       (read_manifest disk item = Throw SyntaxError →
          Callback.Error ("Failed to parse the manifest of " +:+ item) ∈ errors) ∧
       (∀ m e, read_manifest disk item = Normal m → truthy (name m) = true →
               is_Some (manifest_domains m) → stat_parser disk item = Throw e →
          Callback.Error ("No parser found for " +:+ item) ∈ errors)) ∧
    (∀ item code, (item, StatError code) ∈ items → visible item →
       Callback.FsError (SystemError code) ∈ errors).
Proof.
  intros Hplain Hlist Hne. unfold Callback.init.
  unfold mbind at 1 2. unfold M_bind, bind at 1 2.
  unfold Callback.on_this at 1, Callback.on_host at 1, on_self, modify.
  cbn [Callback.this Callback.host]. rewrite Hlist.
  set (s0 := {| Callback.this := Callback.new_ParserList |}).
  set (vis := filter _ items).
  unfold mbind, M_bind, bind.
  destruct (cb_nextItem_spec disk Hplain (reverse vis) [] [] s0)
    as (errors1 & dups1 & s1 & Hrun & _ & _ & _ & Hdirs & Hstats).
  { intros i Hi. rewrite elem_of_reverse in Hi. apply list_elem_of_filter in Hi as [_ Hi].
    by apply Hne. }
  rewrite Hrun. cbn [fst snd].
  destruct (cb_buildMissingDomains_spec errors1 dups1 s1) as (errors & s' & Hb & Herr & Hcl).
  rewrite Hb. exists errors, dups1, s'. split; [reflexivity|]. split.
  - intros item dir Hin Hvis.
    assert (Hin' : (item, Directory dir) ∈ reverse vis).
    { apply elem_of_reverse, list_elem_of_filter. split; [exact Hvis|exact Hin]. }
    destruct (Hdirs item dir Hin') as (Hreg & Hsyn & Hpar). split; [|split].
    + intros m d Hm Hn Hs Hd. apply Hcl. by apply (Hreg m d).
    + intros Hm. by apply Herr, Hsyn.
    + intros m e Hm Hn Hs He. by apply Herr, (Hpar m e).
  - intros item code Hin Hvis. apply Herr, (Hstats item code).
    apply elem_of_reverse, list_elem_of_filter. split; [exact Hvis|exact Hin].
Qed.

Lemma callback_init_isolates_faulty_platforms_witness :
  let unparsable := {| manifest_json := Malformed; parser_js := true;
                       pkb := Throw (SystemError "ENOENT") |} in
  let disk := disk_with unparsable in
  let s := {| Callback.this := Callback.new_ParserList;
              Callback.host := new_World (Content "domain") |} in
  ∃ errors dups s', Callback.init disk s = (Normal (errors, Some dups), s') ∧
    claimed (Callback.this s') "a.example.com" ∧
    Callback.Error "Failed to parse the manifest of faulty" ∈ errors.
Proof.
  intros unparsable disk s.
  destruct (callback_init_isolates_faulty_platforms disk s
              [("faulty", Directory unparsable); ("platformA", Directory platformA)])
    as (errors & dups & s' & Hrun & Hdirs & _).
  - intros item m. unfold read_manifest, find_dir, disk, disk_with.
    cbn [listing entry_named].
    destruct (String.eqb "faulty" item); [discriminate|].
    destruct (String.eqb "platformA" item); [|discriminate].
    intros [= <-]. solve_plain.
  - reflexivity.
  - intros i Hi. apply elem_of_cons in Hi as [->|Hi]; [discriminate|].
    apply list_elem_of_singleton in Hi as ->. discriminate.
  - exists errors, dups, s'. split; [exact Hrun|]. split.
    + destruct (Hdirs "platformA" platformA) as (Hreg & _ & _);
        [right; left|vm_compute; reflexivity|].
      apply (Hreg {| name := Some "platformA"; longname := None; publisher_name := None;
                     manifest_domains := Some ["a.example.com"]; pkb_domains := None |}
                  "a.example.com"); [vm_compute; reflexivity|reflexivity|
                                     vm_compute; reflexivity|left].
    + destruct (Hdirs "faulty" unparsable) as (_ & Hsyn & _);
        [left|vm_compute; reflexivity|].
      apply Hsyn. vm_compute. reflexivity.
Defined.

(** X21. The ledger at the end of [init] of the callback variant. A file that
    cannot be read changes nothing, and is reported unless it does not
    exist: a missing file is not created. For a file of the ASCII range: when
    its first line is not [domain] it is reset to that line alone, and the
    lists are left alone; otherwise the file becomes the header followed by
    the lines that resolve to nothing, sorted by lower-cased text, every
    occurrence of a repeated line included; these lines are stored as
    [false] and nothing else changes. *)
Theorem callback_reconciliation errors dups s :
  (∀ code, missFile (Callback.host s) = NoFile code →
     Callback.buildMissingDomains errors dups s =
       (Normal (if String.eqb code "ENOENT" then errors
                else errors ++ [Callback.FsError (SystemError code)], Some dups), s)) ∧
  (∀ text, missFile (Callback.host s) = Content text → ascii_text text →
     trim (hd "" (split "010" text)) ≠ "domain" →
     Callback.buildMissingDomains errors dups s =
       (Normal (errors, Some dups),
        {| Callback.this := Callback.this s;
           Callback.host := set_missFile (Content "domain") (Callback.host s) |})) ∧
  (∀ text, missFile (Callback.host s) = Content text → ascii_text text →
     trim (hd "" (split "010" text)) = "domain" →
     let lines := tail (split "010" text) in
     let kept := filter (λ x, ¬ claimed (Callback.this s) x) lines in
     ∃ l', Callback.buildMissingDomains errors dups s =
             (Normal (errors, Some dups),
              {| Callback.this := l';
                 Callback.host :=
                   set_missFile
                     (Content ("domain" +:+ LF +:+ join LF (sort byLowerCase kept)))
                     (Callback.host s) |}) ∧
       Callback.parsers l' = Callback.parsers (Callback.this s) ∧
       Callback.platforms l' = Callback.platforms (Callback.this s) ∧
       (∀ d, Callback.domains l' !! d =
               if decide (d ∈ lines ∧ ¬ claimed (Callback.this s) d)
               then Some Callback.VFalse
               else Callback.domains (Callback.this s) !! d) ∧
       sort byLowerCase kept ≡ₚ kept ∧
       StronglySorted ci_le (sort byLowerCase kept)).
Proof.
  destruct s as [l w]. cbn [Callback.this Callback.host].
  assert (Hunfold : Callback.buildMissingDomains errors dups
                      {| Callback.this := l; Callback.host := w |} =
    match missFile w with
    | NoFile code =>
        (Normal (if String.eqb code "ENOENT" then errors
                 else errors ++ [Callback.FsError (SystemError code)], Some dups),
         {| Callback.this := l; Callback.host := w |})
    | Content text =>
        if String.eqb (trim (hd "" (split "010" text))) "domain" then
          match filterM Callback.addMiss (tail (split "010" text)) l with
          | (Normal kept, l') =>
              (Normal (errors, Some dups),
               {| Callback.this := l';
                  Callback.host :=
                    set_missFile (Content ("domain" +:+ LF +:+
                                    join LF (sort byLowerCase kept))) w |})
          | (Throw e, l') => (Throw e, {| Callback.this := l'; Callback.host := w |})
          end
        else (Normal (errors, Some dups),
              {| Callback.this := l;
                 Callback.host := set_missFile (Content "domain") w |})
    end).
  { unfold Callback.buildMissingDomains.
    unfold mbind at 1. unfold M_bind, bind at 1, Callback.on_host at 1, gets.
    cbn [Callback.this Callback.host].
    destruct (missFile w) as [code|text]; [reflexivity|].
    destruct (String.eqb (trim (hd "" (split "010" text))) "domain"); cbn [negb];
      [|reflexivity].
    unfold mbind, M_bind, bind, Callback.on_this, Callback.on_host, modify, mret, M_ret, ret.
    cbn [Callback.this Callback.host].
    by destruct (filterM Callback.addMiss (tail (split "010" text)) l) as [[kept|e] l']. }
  rewrite Hunfold. clear Hunfold. split; [|split].
  - intros code ->. reflexivity.
  - intros text -> _ Hhead. apply String.eqb_neq in Hhead. by rewrite Hhead.
  - intros text Hf _ Hhead. cbv zeta. rewrite Hf. apply String.eqb_eq in Hhead. rewrite Hhead.
    destruct (cb_filterM_addMiss (tail (split "010" text)) l)
      as (l' & Hrun & Hps & Hpf & _ & Hdom).
    rewrite Hrun. exists l'. split; [done|]. split; [done|]. split; [done|].
    split; [exact Hdom|]. split; [apply sort_perm|apply sort_sorted].
Qed.

Lemma callback_reconciliation_witness :
  let text := "domain" +:+ LF +:+ "b.example.com" +:+ LF +:+ "a.example.com" +:+ LF
              +:+ "B.example.com" +:+ LF +:+ "b.example.com" in
  let obj := mkBinding "/platforms/p/parser.js" "p" None None in
  let l := (Callback.add "a.example.com" obj Callback.new_ParserList).2 in
  let s := {| Callback.this := l; Callback.host := new_World (Content text) |} in
  let kept := filter (λ x, ¬ claimed l x) (tail (split "010" text)) in
  ∃ l', Callback.buildMissingDomains [] [] s =
          (Normal ([], Some []),
           {| Callback.this := l';
              Callback.host :=
                set_missFile (Content ("domain" +:+ LF +:+ join LF (sort byLowerCase kept)))
                             (Callback.host s) |}) ∧
    Callback.domains l' !! "b.example.com" = Some Callback.VFalse ∧
    StronglySorted ci_le (sort byLowerCase kept).
Proof.
  intros text obj l s kept.
  destruct (callback_reconciliation [] [] s) as (_ & _ & H).
  destruct (H text) as (l' & Hrun & _ & _ & Hdom & _ & Hsorted);
    [reflexivity|vm_compute; reflexivity|vm_compute; reflexivity|].
  exists l'. split; [exact Hrun|]. split; [|exact Hsorted].
  rewrite Hdom. apply decide_True. split.
  - vm_compute. left.
  - vm_compute. discriminate.
Defined.

(** ** [addDomainsOf] and the duplicates *)

Lemma cb_register_literals obj ds s :
  plain (platform obj) → Forall plain ds →
  ∀ acc s1,
  Callback.host s1 = Callback.host s →
  (∀ d, d ∈ acc.1 → ¬ claimed (Callback.this s) d) →
  (∀ d, claimed (Callback.this s) d →
        Callback.domains (Callback.this s1) !! d = Callback.domains (Callback.this s) !! d) →
  (∀ d, claimed (Callback.this s1) d ↔ claimed (Callback.this s) d ∨ d ∈ acc.1) →
  ∃ acc' s', Callback.foldM (λ domain, Callback.register obj domain (Some domain)) ds acc s1
             = (Normal acc', s') ∧
    Callback.host s' = Callback.host s ∧
    acc'.2 = acc.2 ++ (duplicate_of (Callback.this s) (platform obj)
                         <$> filter (claimed (Callback.this s)) ds) ∧
    (∀ d, claimed (Callback.this s) d →
          Callback.domains (Callback.this s') !! d = Callback.domains (Callback.this s) !! d) ∧
    (∀ d, claimed (Callback.this s') d ↔
          claimed (Callback.this s) d ∨ d ∈ acc.1 ∨ d ∈ ds).
Proof.
  intros Hp Hds. induction Hds as [|d ds Hd Hds IH]; intros acc s1 Hh Hown Hkeep Hcl.
  - exists acc, s1. split; [done|]. split; [done|]. split; [by rewrite app_nil_r|].
    split; [done|]. intros d. rewrite Hcl. split; [tauto|].
    intros [?|[?|H]]; [tauto|tauto|by apply not_elem_of_nil in H].
  - cbn [Callback.foldM]. unfold bind. unfold Callback.register at 1.
    destruct (decide (d ∈ acc.1)) as [Hin|Hin].
    + unfold mret, M_ret, ret.
      destruct (IH acc s1 Hh Hown Hkeep Hcl) as (acc' & s' & Hrun & Hh' & Hdup & Hkeep' & Hcl').
      exists acc', s'. split; [exact Hrun|]. split; [exact Hh'|]. split.
      { rewrite Hdup. rewrite filter_cons_False; [done|]. by apply Hown. }
      split; [exact Hkeep'|]. intros d'. rewrite Hcl', elem_of_cons.
      split; [tauto|]. intros [?|[?|[->|?]]]; tauto.
    + unfold mbind, M_bind, bind, Callback.on_this.
      destruct (decide (claimed (Callback.this s) d)) as [Hc|Hc].
      * assert (Hc1 : claimed (Callback.this s1) d) by (apply Hcl; by left).
        rewrite (cb_add_claimed d obj _ Hc1).
        assert (Hs1 : {| Callback.this := Callback.this s1; Callback.host := Callback.host s1 |}
                      = s1) by (by destruct s1).
        rewrite Hs1.
        assert (Hget : Callback.get d None s1 =
                  (Normal (Callback.domain_value
                             (Callback.read (Callback.domains (Callback.this s)) d)), s1)).
        { destruct s1 as [l1 w1]. unfold Callback.get, Callback.on_this.
          unfold mbind, M_bind, bind, gets, mret, M_ret, ret.
          cbn [Callback.this Callback.host] in *.
          unfold claimed in Hc1. rewrite Hc1. cbn [orb].
          unfold Callback.read. by rewrite (Hkeep d Hc). }
        rewrite Hget. unfold mret, M_ret, ret.
        destruct (IH (acc.1, acc.2 ++ [{| Callback.dup_domain := Some d;
                        Callback.first := Callback.platform_of
                          (Callback.domain_value
                             (Callback.read (Callback.domains (Callback.this s)) d));
                        Callback.ignored := platform obj |}]) s1 Hh Hown Hkeep Hcl)
          as (acc' & s' & Hrun & Hh' & Hdup & Hkeep' & Hcl').
        exists acc', s'. split; [exact Hrun|]. split; [exact Hh'|]. split.
        { rewrite Hdup. cbn [fst snd]. rewrite filter_cons_True by done.
          rewrite <- app_assoc. reflexivity. }
        split; [exact Hkeep'|]. intros d'. rewrite Hcl', elem_of_cons. cbn [fst].
        split; [tauto|]. intros [?|[?|[->|?]]]; tauto.
      * assert (Hc1 : ¬ claimed (Callback.this s1) d).
        { intros H. apply Hcl in H as [?|?]; done. }
        rewrite (cb_add_unclaimed d obj _ Hc1 Hp). unfold mret, M_ret, ret.
        set (l2 := {| Callback.parsers := _ |}).
        assert (Hproto : d ≠ "__proto__").
        { intros ->. apply Hd. unfold Callback.Object_members. cbn.
          repeat (first [left; reflexivity | right]). }
        rewrite (decide_False _ _ Hproto).
        assert (Hcl2 : ∀ d', claimed l2 d' ↔ d' = d ∨ claimed (Callback.this s1) d').
        { intros d'. unfold claimed, Callback.read. cbn [l2 Callback.domains].
          destruct (decide (d' = d)) as [->|Hne].
          - rewrite lookup_insert_eq. cbn. split; [by left|done].
          - rewrite lookup_insert_ne by done. split; [by right|]. by intros [?|?]. }
        destruct (IH ({[d]} ∪ acc.1, acc.2)
                     {| Callback.this := l2; Callback.host := Callback.host s1 |})
          as (acc' & s' & Hrun & Hh' & Hdup & Hkeep' & Hcl').
        { exact Hh. }
        { intros d' Hd'. cbn [fst] in Hd'.
          apply elem_of_union in Hd' as [->%elem_of_singleton|?]; [done|by apply Hown]. }
        { intros d' Hd'. cbn [Callback.this l2 Callback.domains].
          rewrite lookup_insert_ne; [by apply Hkeep|]. intros <-. done. }
        { intros d'. cbn [Callback.this fst]. rewrite Hcl2, Hcl, elem_of_union, elem_of_singleton.
          tauto. }
        exists acc', s'. split; [exact Hrun|]. split; [exact Hh'|]. split.
        { rewrite Hdup. cbn [snd]. by rewrite filter_cons_False. }
        split; [exact Hkeep'|]. intros d'. rewrite Hcl', elem_of_cons. cbn [fst].
        rewrite elem_of_union, elem_of_singleton. tauto.
Qed.

(** X22. Duplicates. [addDomainsOf] of the callback variant, for a platform
    with a name, a parser and a list of domains but no knowledge base, none
    of these names being that of a member of [Object.prototype]: it calls
    back without an error, with one duplicate for every occurrence in the
    list of a domain that resolved before the call, naming the platform that
    holds the domain as [first] and this platform as [ignored]. These domains
    keep what they resolved to, the other domains of the list resolve
    afterwards, and a domain that the list repeats is not reported against
    itself. *)
Theorem callback_addDomainsOf_reports_duplicates disk item m ds s :
  read_manifest disk item = Normal m → truthy (name m) = true →
  manifest_domains m = Some ds → truthy (pkb_domains m) = false →
  stat_parser disk item = Normal tt →
  plain (default "" (name m)) → Forall plain ds →
  ∃ s', Callback.addDomainsOf disk item s =
          (Normal (Callback.Done (duplicate_of (Callback.this s) (default "" (name m))
                                    <$> filter (claimed (Callback.this s)) ds)), s') ∧
    Callback.host s' = Callback.host s ∧
    (∀ d, claimed (Callback.this s) d →
          Callback.domains (Callback.this s') !! d = Callback.domains (Callback.this s) !! d) ∧
    (∀ d, claimed (Callback.this s') d ↔ claimed (Callback.this s) d ∨ d ∈ ds).
Proof.
  intros Hm Hname Hds Hpkb Hstat Hp Hplain. unfold Callback.addDomainsOf.
  rewrite Hm, Hname, Hds, Hpkb, Hstat. cbn [negb orb andb default from_option].
  rewrite bool_decide_eq_true_2 by (by eexists). cbn [negb andb]. unfold id.
  set (obj := {| file := _ |}).
  unfold mbind, M_bind, bind.
  assert (H1 : ∀ d, d ∈ (∅ : gset string) → ¬ claimed (Callback.this s) d).
  { intros d Hd. by apply elem_of_empty in Hd. }
  assert (H2 : ∀ d, claimed (Callback.this s) d ↔
                    claimed (Callback.this s) d ∨ d ∈ (∅ : gset string)).
  { intros d. split; [by left|]. intros [?|H]; [done|by apply elem_of_empty in H]. }
  destruct (cb_register_literals obj ds s Hp Hplain (∅, []) s eq_refl H1 (λ _ _, eq_refl) H2)
    as (acc' & s' & Hrun & Hh & Hdup & Hkeep & Hcl).
  rewrite Hrun. exists s'. split.
  { unfold mret, M_ret, ret. rewrite Hdup. reflexivity. }
  split; [exact Hh|]. split; [exact Hkeep|].
  intros d. rewrite Hcl. cbn [fst]. rewrite elem_of_empty. tauto.
Qed.

Lemma callback_addDomainsOf_reports_duplicates_witness :
  let bQ := mkBinding "/ezpaarse/platforms/Q/parser.js" "Q" None None in
  let m := {| name := Some "P"; longname := None; publisher_name := None;
              manifest_domains := Some ["d.example.com"; "e.example.com"];
              pkb_domains := None |} in
  let disk := {| platformsDir := "/ezpaarse/platforms";
                 listing := Normal [("P", Directory {| manifest_json := Object m;
                                                       parser_js := true;
                                                       pkb := Throw (SystemError "ENOENT") |})];
                 extract := λ _ _, Normal [] |} in
  let s := {| Callback.this := (Callback.add "d.example.com" bQ Callback.new_ParserList).2;
              Callback.host := new_World (Content "domain") |} in
  ∃ s', Callback.addDomainsOf disk "P" s =
          (Normal (Callback.Done (duplicate_of (Callback.this s) "P"
                     <$> filter (claimed (Callback.this s))
                                ["d.example.com"; "e.example.com"])), s') ∧
    Callback.host s' = Callback.host s ∧
    (∀ d, claimed (Callback.this s) d →
          Callback.domains (Callback.this s') !! d = Callback.domains (Callback.this s) !! d) ∧
    (∀ d, claimed (Callback.this s') d ↔
          claimed (Callback.this s) d ∨ d ∈ ["d.example.com"; "e.example.com"]).
Proof.
  intros bQ m disk s.
  apply (callback_addDomainsOf_reports_duplicates disk "P" m
           ["d.example.com"; "e.example.com"] s).
  - vm_compute. reflexivity.
  - reflexivity.
  - reflexivity.
  - reflexivity.
  - vm_compute. reflexivity.
  - solve_plain.
  - repeat constructor; solve_plain.
Defined.

(** ** Keys named like a member of [Object.prototype] *)

(** X24. In the callback variant a key named like a member of
    [Object.prototype] is read through the prototype. A domain of that name,
    with no property of its own, already resolves: [get] returns the
    inherited member and records no miss, [add] returns [false] and
    [addMiss] returns [false], each without changing anything. A parser whose
    platform has such a name cannot be registered: [add] for an unclaimed
    domain stores the inherited member as what the domain resolves to and
    then throws a [TypeError]. *)
Theorem callback_inherited_names d obj write s :
  d ∈ Callback.Object_members → Callback.domains (Callback.this s) !! d = None →
  Callback.get d write s = (Normal (Callback.VBuiltin d), s) ∧
  Callback.add d obj (Callback.this s) = (Normal false, Callback.this s) ∧
  Callback.addMiss d (Callback.this s) = (Normal false, Callback.this s) ∧
  (∀ d', ¬ claimed (Callback.this s) d' → platform obj = d →
     Callback.parsers (Callback.this s) !! d = None →
     Callback.platforms (Callback.this s) !! d = None →
     Callback.add d' obj (Callback.this s) =
       (Throw TypeError,
        Callback.set_domains
          (<[d' := Callback.VBuiltin d]> (Callback.domains (Callback.this s)))
          (Callback.this s))).
Proof.
  intros Hd Hn.
  assert (Hread : ∀ A (o : gmap string A), o !! d = None →
            Callback.read o d = Callback.Inherited d).
  { intros A o Ho. unfold Callback.read. by rewrite Ho, (decide_True _ _ Hd). }
  split; [|split; [|split]].
  - destruct s as [l w]. unfold Callback.get, Callback.on_this.
    unfold mbind, M_bind, bind, gets, mret, M_ret, ret.
    cbn [Callback.this Callback.host] in *. by rewrite (Hread _ _ Hn).
  - unfold Callback.add. unfold mbind, M_bind, bind, gets, mret, M_ret, ret.
    by rewrite (Hread _ _ Hn).
  - unfold Callback.addMiss. unfold mbind, M_bind, bind, gets, mret, M_ret, ret.
    by rewrite (Hread _ _ Hn).
  - intros d' Hd' Hp Hps Hpf. unfold Callback.add. cb_unfold. unfold claimed in Hd'.
    destruct (Callback.is_truthy _); [done|]. rewrite Hp.
    rewrite !(Hread _ _ Hps), !(Hread _ _ Hpf). cbn [Callback.value_of].
    destruct (Callback.this s) as [ps ds pfs]. cbn in *.
    by rewrite (Hread _ _ Hps).
Qed.

Lemma callback_inherited_names_witness :
  let s := {| Callback.this := Callback.new_ParserList;
              Callback.host := new_World (Content "domain") |} in
  let obj := mkBinding "/ezpaarse/platforms/c/parser.js" "constructor" None None in
  Callback.get "constructor" None s = (Normal (Callback.VBuiltin "constructor"), s) ∧
  Callback.add "constructor" obj (Callback.this s) = (Normal false, Callback.this s) ∧
  Callback.addMiss "constructor" (Callback.this s) = (Normal false, Callback.this s) ∧
  (∀ d', ¬ claimed (Callback.this s) d' → platform obj = "constructor" →
     Callback.parsers (Callback.this s) !! "constructor" = None →
     Callback.platforms (Callback.this s) !! "constructor" = None →
     Callback.add d' obj (Callback.this s) =
       (Throw TypeError,
        Callback.set_domains
          (<[d' := Callback.VBuiltin "constructor"]> (Callback.domains (Callback.this s)))
          (Callback.this s))).
Proof.
  intros s obj. apply (callback_inherited_names "constructor" obj None s).
  - left.
  - reflexivity.
Defined.
